(** * typedoc-mintlify: rendering and cross-reference engine

    A shallow embedding of the TypeScript/JavaScript sources of the
    typedoc-mintlify plugin (utils.ts, components.ts, reflection-renderer.ts,
    theme.ts, navigation.ts, renderer.js) together with the properties
    stated about them.

    Conventions of the embedding.
    - A JavaScript string is a [string]: a sequence of 8-bit characters.
      For ASCII text this is the sequence of UTF-16 code units the
      source manipulates; a character outside ASCII is the sequence of its
      UTF-8 bytes, each of which is an ordinary non-space, non-word
      character for the purposes of character classes.  White space is
      the ASCII one and the change of case is that of the ASCII letters.
      The line terminators of the matcher are the line feed and the
      carriage return; a statement that depends on where a line ends is
      made for the texts that hold neither [lineSeparator] nor
      [paragraphSeparator], the two other terminators of the language.
    - A call that can throw has a [completion] for result: the value it
      returns, or the exception.
    - A regular expression literal of the source is a value of [regex],
      run by a backtracking matcher that follows the ECMAScript matching
      rules (leftmost match, ordered alternation, greedy and lazy
      quantifiers, captures, lookahead, back-references).
    - [Map<string,string>] is an association list in insertion order. *)

From Stdlib Require Import String Ascii List Bool Arith ZArith Lia.
Import ListNotations.
Open Scope list_scope.
Open Scope string_scope.

Set Implicit Arguments.

(* ================================================================== *)
(** * Characters and strings of the host language *)
(* ================================================================== *)

Module Js.

(** The characters that cannot be typed inside a literal. *)
Definition LF : ascii := "010"%char.
Definition CR : ascii := "013"%char.
Definition TAB : ascii := "009"%char.
Definition VT : ascii := "011"%char.
Definition FF : ascii := "012"%char.
Definition DQ : ascii := "034"%char.
Definition BSL : ascii := "092"%char.

Definition nl : string := String LF "".
Definition dq : string := String DQ "".

(** The line separator U+2028 and the paragraph separator U+2029, as the
    bytes of their UTF-8 form.  [.], and [^] and [$] under the m flag,
    take them for line terminators in the source language; the matcher
    of this file does not. *)
Definition lineSeparator : string :=
  String "226" (String "128" (String "168" "")).
Definition paragraphSeparator : string :=
  String "226" (String "128" (String "169" "")).

(** How a call ends: it returns a value, or it throws. *)
Inductive exception : Type := TypeError.

Inductive completion (A : Type) : Type :=
| Normal (value : A)
| Throw (e : exception).

Arguments Normal {A} value.
Arguments Throw {A} e.

(** The rest of a computation runs on the value returned; an exception
    ends it. *)
Definition andThen {A B : Type} (c : completion A) (f : A -> completion B)
  : completion B :=
  match c with
  | Normal a => f a
  | Throw e => Throw e
  end.

(** [l.map(f)], the calls made from left to right up to the first that
    throws. *)
Definition mapThrowing {X Y : Type} (f : X -> completion Y)
  : list X -> completion (list Y) :=
  fix each (l : list X) : completion (list Y) :=
    match l with
    | [] => Normal []
    | x :: l' =>
        andThen (f x) (fun y =>
        andThen (each l') (fun ys => Normal (y :: ys)))
    end.

(** The text a call returned; the empty text stands for a call that
    threw, in the places where the caller is modelled for the calls that
    return. *)
Definition returned (c : completion string) : string :=
  match c with
  | Normal text => text
  | Throw _ => ""
  end.

Definition code (c : ascii) : nat := nat_of_ascii c.

Definition between (lo hi : ascii) (c : ascii) : bool :=
  Nat.leb (code lo) (code c) && Nat.leb (code c) (code hi).

Definition is_upper : ascii -> bool := between "A" "Z".
Definition is_lower : ascii -> bool := between "a" "z".
Definition is_digit : ascii -> bool := between "0" "9".

(** [\w] *)
Definition is_word (c : ascii) : bool :=
  is_upper c || is_lower c || is_digit c || Ascii.eqb c "_".

(** [\s], and the characters [trim] strips. *)
Definition is_space (c : ascii) : bool :=
  Ascii.eqb c " " || Ascii.eqb c TAB || Ascii.eqb c LF
  || Ascii.eqb c VT || Ascii.eqb c FF || Ascii.eqb c CR.

(** The line terminators seen by [.], and by [^] and [$] under the m flag. *)
Definition is_newline (c : ascii) : bool :=
  Ascii.eqb c LF || Ascii.eqb c CR.

Definition lower_char (c : ascii) : ascii :=
  if is_upper c then ascii_of_nat (code c + 32) else c.

Definition upper_char (c : ascii) : ascii :=
  if is_lower c then ascii_of_nat (code c - 32) else c.

Fixpoint map_chars (f : ascii -> ascii) (s : string) : string :=
  match s with
  | "" => ""
  | String c s' => String (f c) (map_chars f s')
  end.

(** [s.toLowerCase()] *)
Definition toLowerCase (s : string) : string := map_chars lower_char s.

(** [s.toUpperCase()] *)
Definition toUpperCase (s : string) : string := map_chars upper_char s.

Fixpoint rev_onto (s acc : string) : string :=
  match s with
  | "" => acc
  | String c s' => rev_onto s' (String c acc)
  end.

Definition rev (s : string) : string := rev_onto s "".

Fixpoint take (n : nat) (s : string) : string :=
  match n, s with
  | S n', String c s' => String c (take n' s')
  | _, _ => ""
  end.

Fixpoint drop (n : nat) (s : string) : string :=
  match n, s with
  | S n', String _ s' => drop n' s'
  | _, _ => s
  end.

(** [s.startsWith(p)] *)
Fixpoint startsWith (s p : string) : bool :=
  match p, s with
  | "", _ => true
  | String a p', String b s' => Ascii.eqb a b && startsWith s' p'
  | String _ _, "" => false
  end.

(** [s.endsWith(p)] *)
Definition endsWith (s p : string) : bool := startsWith (rev s) (rev p).

(** [s.indexOf(p)], with [None] for -1. *)
Fixpoint indexOf (s p : string) : option nat :=
  if startsWith s p then Some 0
  else match s with
       | "" => None
       | String _ s' => option_map S (indexOf s' p)
       end.

(** [s.includes(p)] *)
Definition includes (s p : string) : bool :=
  match indexOf s p with Some _ => true | None => false end.

Fixpoint trimStart (s : string) : string :=
  match s with
  | String c s' => if is_space c then trimStart s' else s
  | "" => ""
  end.

Definition trimEnd (s : string) : string := rev (trimStart (rev s)).

(** [s.trim()] *)
Definition trim (s : string) : string := trimEnd (trimStart s).

(** [s.split(c)] for a one-character separator. *)
Fixpoint split (sep : ascii) (s : string) : list string :=
  match s with
  | "" => [""]
  | String c s' =>
      if Ascii.eqb c sep then "" :: split sep s'
      else match split sep s' with
           | l :: ls => String c l :: ls
           | [] => [String c ""]
           end
  end.

(** [a.join(sep)] *)
Fixpoint join (sep : string) (l : list string) : string :=
  match l with
  | [] => ""
  | [x] => x
  | x :: l' => x ++ sep ++ join sep l'
  end.

(** [s.substring(0, n)] *)
Definition substring0 (n : nat) (s : string) : string := take n s.

(** [s.slice(0, -1)] *)
Definition dropLast (s : string) : string := take (String.length s - 1) s.

(** JavaScript truthiness of a string: [x || y]. *)
Definition orElse (x y : string) : string :=
  match x with "" => y | _ => x end.

Definition nonEmpty (x : string) : bool :=
  match x with "" => false | _ => true end.

End Js.

(* ================================================================== *)
(** * Regular expressions *)
(* ================================================================== *)

Module Re.
Import Js.

(** The abstract syntax of the regular expression literals of the source.
    Quantifiers carry their greediness; groups carry their number. *)
Inductive regex : Type :=
| Eps
| Chr (c : ascii)
| Cls (p : ascii -> bool)
| Seq (r1 r2 : regex)
| Alt (r1 r2 : regex)
| Star (greedy : bool) (r : regex)
| Grp (n : nat) (r : regex)
| Bol (multiline : bool)
| Eol (multiline : bool)
| Look (positive : bool) (r : regex)
| Bref (n : nat).

(** A position in the subject: the character before it (none at offset 0),
    the text after it, and the captures made so far. *)
Record mstate : Type := MState {
  prev : option ascii;
  rest : string;
  caps : list (nat * string)
}.

Fixpoint last_char (p : option ascii) (s : string) : option ascii :=
  match s with
  | "" => p
  | String c s' => last_char (Some c) s'
  end.

Definition advance (n : nat) (st : mstate) : mstate :=
  MState (last_char (prev st) (take n (rest st))) (drop n (rest st)) (caps st).

Fixpoint cap_get (n : nat) (cs : list (nat * string)) : option string :=
  match cs with
  | [] => None
  | (m, s) :: cs' => if Nat.eqb m n then Some s else cap_get n cs'
  end.

Definition cap_set (n : nat) (s : string) (cs : list (nat * string)) :=
  (n, s) :: cs.

Fixpoint groups (r : regex) : list nat :=
  match r with
  | Seq r1 r2 | Alt r1 r2 => (groups r1 ++ groups r2)%list
  | Star _ r1 | Look _ r1 => groups r1
  | Grp n r1 => n :: groups r1
  | _ => []
  end.

Definition cap_clear (gs : list nat) (cs : list (nat * string)) :=
  filter (fun e => negb (existsb (Nat.eqb (fst e)) gs)) cs.

Definition with_caps (cs : list (nat * string)) (st : mstate) : mstate :=
  MState (prev st) (rest st) cs.

Definition at_bol (multiline : bool) (st : mstate) : bool :=
  match prev st with
  | None => true
  | Some c => multiline && is_newline c
  end.

Definition at_eol (multiline : bool) (st : mstate) : bool :=
  match rest st with
  | "" => true
  | String c _ => multiline && is_newline c
  end.

(** The iteration of a quantified sub-expression [body]: greedy, one
    more iteration is tried before the continuation; lazy, after it.  An
    iteration that consumes nothing is rejected, so that the number of
    iterations is bounded by the length of the text left. *)
Fixpoint iterate (body : mstate -> (mstate -> option mstate) -> option mstate)
  (greedy : bool) (k : mstate -> option mstate) (fuel : nat) (st : mstate)
  {struct fuel} : option mstate :=
  match fuel with
  | O => k st
  | S fuel' =>
      let again :=
        body st
          (fun st' =>
             if Nat.ltb (String.length (rest st')) (String.length (rest st))
             then iterate body greedy k fuel' st' else None) in
      if greedy then
        match again with Some res => Some res | None => k st end
      else
        match k st with Some res => Some res | None => again end
  end.

(** The backtracking matcher, in continuation style: [run r st k] tries
    the ways [r] can match at [st], in the order of the ECMAScript
    rules, and returns the first for which the continuation [k]
    succeeds.  The captures of a quantified sub-expression are reset at
    each of its iterations. *)
Fixpoint run (r : regex) (st : mstate) (k : mstate -> option mstate)
  {struct r} : option mstate :=
  match r with
  | Eps => k st
  | Chr c =>
      match rest st with
      | String a _ => if Ascii.eqb a c then k (advance 1 st) else None
      | "" => None
      end
  | Cls p =>
      match rest st with
      | String a _ => if p a then k (advance 1 st) else None
      | "" => None
      end
  | Seq r1 r2 => run r1 st (fun st' => run r2 st' k)
  | Alt r1 r2 =>
      match run r1 st k with
      | Some res => Some res
      | None => run r2 st k
      end
  | Star greedy r1 =>
      iterate
        (fun st' k' =>
           run r1 (with_caps (cap_clear (groups r1) (caps st')) st') k')
        greedy k (S (String.length (rest st))) st
  | Grp n r1 =>
      run r1 st (fun st' =>
        let text := take (String.length (rest st) - String.length (rest st'))
                         (rest st) in
        k (with_caps (cap_set n text (caps st')) st'))
  | Bol m => if at_bol m st then k st else None
  | Eol m => if at_eol m st then k st else None
  | Look positive r1 =>
      match run r1 st (fun st' => Some st') with
      | Some st' => if positive then k (with_caps (caps st') st) else None
      | None => if positive then None else k st
      end
  | Bref n =>
      match cap_get n (caps st) with
      | None => k st
      | Some text =>
          if startsWith (rest st) text
          then k (advance (String.length text) st) else None
      end
  end.

(** ** Derived forms *)

Definition Plus (greedy : bool) (r : regex) : regex := Seq r (Star greedy r).
Definition Opt (r : regex) : regex := Alt r Eps.

Fixpoint Lit (s : string) : regex :=
  match s with
  | "" => Eps
  | String c "" => Chr c
  | String c s' => Seq (Chr c) (Lit s')
  end.

Fixpoint Seqs (rs : list regex) : regex :=
  match rs with
  | [] => Eps
  | [r] => r
  | r :: rs' => Seq r (Seqs rs')
  end.

Fixpoint Alts (rs : list regex) : regex :=
  match rs with
  | [] => Eps
  | [r] => r
  | r :: rs' => Alt r (Alts rs')
  end.

Definition Not (p : ascii -> bool) : regex := Cls (fun c => negb (p c)).
Definition NotChr (c : ascii) : regex := Cls (fun a => negb (Ascii.eqb a c)).
(** [.] without the s flag; [[\s\S]] or [.] with it. *)
Definition Dot : regex := Cls (fun c => negb (is_newline c)).
Definition Any : regex := Cls (fun _ => true).
Definition Word : regex := Cls is_word.
Definition Space : regex := Cls is_space.
Definition Upper : regex := Cls is_upper.
Definition NL : regex := Chr LF.

(** ** Results of a match *)

Record mresult : Type := MResult {
  matched : string;           (* [match[0]] *)
  groups_of : list (nat * string);
  after : mstate
}.

(** [$n] / the n-th argument of a replacement callback; an unset group
    reads as the empty string in both uses made by the source. *)
Definition group (n : nat) (m : mresult) : string :=
  match cap_get n (groups_of m) with Some s => s | None => "" end.

(** One attempt at one position. *)
Definition exec_at (r : regex) (p : option ascii) (s : string)
  : option mresult :=
  match run r (MState p s []) (fun st => Some st) with
  | Some st' =>
      Some (MResult (take (String.length s - String.length (rest st')) s)
                    (caps st') st')
  | None => None
  end.

(** The leftmost match at or after the current position, with the text
    skipped before it. *)
Fixpoint search_from (r : regex) (p : option ascii) (s : string)
  {struct s} : option (string * mresult) :=
  match exec_at r p s with
  | Some m => Some ("", m)
  | None =>
      match s with
      | "" => None
      | String c s' =>
          match search_from r (Some c) s' with
          | Some (skipped, m) => Some (String c skipped, m)
          | None => None
          end
      end
  end.

(** [s.match(r)] for a regex without the g flag, [r.exec(s)] from index 0. *)
Definition search (r : regex) (s : string) : option (string * mresult) :=
  search_from r None s.

(** [r.test(s)] *)
Definition test (r : regex) (s : string) : bool :=
  match search r s with Some _ => true | None => false end.

(** [s.replace(r, f)] for a regex with the g flag: every match, left to
    right, non-overlapping; after an empty match the scan moves on by one
    character. *)
Fixpoint replace_from (fuel : nat) (r : regex) (f : mresult -> string)
  (p : option ascii) (s : string) {struct fuel} : string :=
  match fuel with
  | O => s
  | S fuel' =>
      let step :=
        match s with
        | "" => ""
        | String c s' => String c (replace_from fuel' r f (Some c) s')
        end in
      match exec_at r p s with
      | Some m =>
          match matched m with
          | "" => f m ++ step
          | _ => f m ++ replace_from fuel' r f (prev (after m)) (rest (after m))
          end
      | None => step
      end
  end.

Definition replaceAll (r : regex) (f : mresult -> string) (s : string)
  : string :=
  replace_from (S (String.length s)) r f None s.

(** [s.replace(r, f)] for a regex without the g flag: the first match. *)
Definition replaceFirst (r : regex) (f : mresult -> string) (s : string)
  : string :=
  match search r s with
  | Some (skipped, m) => skipped ++ f m ++ rest (after m)
  | None => s
  end.

(** All the matches of a g-flagged regex, as the [exec] loop and
    [s.match(r)] enumerate them. *)
Fixpoint matches_from (fuel : nat) (r : regex) (p : option ascii)
  (s : string) {struct fuel} : list mresult :=
  match fuel with
  | O => []
  | S fuel' =>
      let step :=
        match s with
        | "" => []
        | String c s' => matches_from fuel' r (Some c) s'
        end in
      match exec_at r p s with
      | Some m =>
          match matched m with
          | "" => m :: step
          | _ => m :: matches_from fuel' r (prev (after m)) (rest (after m))
          end
      | None => step
      end
  end.

Definition matchAll (r : regex) (s : string) : list mresult :=
  matches_from (S (String.length s)) r None s.

End Re.

(* ================================================================== *)
(** * The declaration graph handed in by TypeDoc *)
(* ================================================================== *)

Module Model.

(** Reflection kinds, as the numeric constants the source compares with. *)
Definition KProject : Z := 1%Z.
Definition KModule : Z := 2%Z.
Definition KNamespace : Z := 4%Z.
Definition KEnum : Z := 8%Z.
Definition KEnumMember : Z := 16%Z.
Definition KVariable : Z := 32%Z.
Definition KFunction : Z := 64%Z.
Definition KClass : Z := 128%Z.
Definition KInterface : Z := 256%Z.
Definition KConstructor : Z := 512%Z.
Definition KProperty : Z := 1024%Z.
Definition KMethod : Z := 2048%Z.
Definition KTypeAlias : Z := 2097152%Z.

(** One part of a comment: [{ kind, text }]; an absent text is [""]. *)
Record commentPart : Type := CommentPart {
  part_kind : string;
  part_text : string
}.

Record blockTag : Type := BlockTag {
  tag : string;
  content : list commentPart
}.

Record comment : Type := Comment {
  summary : list commentPart;
  blockTags : list blockTag
}.

(** The value of a literal type: a string, a number (given by the text
    [JSON.stringify] prints for it), a boolean, null, or a bigint (given
    by its digits). *)
Inductive literal : Type :=
| LStr (s : string)
| LNum (digits : string)
| LBool (b : bool)
| LNull
| LBigInt (digits : string).

(** Type expressions and the declarations they may embed.  A field the
    source reads with [?.] or tests for absence is an [option]; an absent
    array is the empty list. *)
Unset Elimination Schemes.
Inductive type : Type :=
| TyString (s : string)
| Intrinsic (name : string)
| Reference (name : string) (typeArguments : list type)
| ArrayT (elementType : type)
| Union (types : list type)
| Intersection (types : list type)
| Literal (value : literal)
| Tuple (elements : list type)
| ReflectionT (declaration : option declaration)
| Conditional (checkType extendsType trueType falseType : type)
| IndexedAccess (objectType indexType : type)
| Query (queryTypeName : option string)
| Predicate (name : string) (targetType : option type)
| TemplateLiteral (toStringResult : option string)
| OtherType (toStringResult : option string)
with declaration : Type :=
| Decl (name : string) (kind : Z) (cmt : option comment)
    (children : list declaration) (signatures : list signature)
    (ty : option type) (isOptional : bool) (defaultValue : option string)
with signature : Type :=
| Sig (parameters : list param) (ty : option type)
    (cmt : option comment)
with param : Type :=
| Param (name : string) (ty : option type) (isOptional : bool)
    (cmt : option comment).
Set Elimination Schemes.

Definition d_name (d : declaration) : string :=
  let 'Decl n _ _ _ _ _ _ _ := d in n.
Definition d_kind (d : declaration) : Z :=
  let 'Decl _ k _ _ _ _ _ _ := d in k.
Definition d_comment (d : declaration) : option comment :=
  let 'Decl _ _ c _ _ _ _ _ := d in c.
Definition d_children (d : declaration) : list declaration :=
  let 'Decl _ _ _ ch _ _ _ _ := d in ch.
Definition d_signatures (d : declaration) : list signature :=
  let 'Decl _ _ _ _ sg _ _ _ := d in sg.
Definition d_type (d : declaration) : option type :=
  let 'Decl _ _ _ _ _ t _ _ := d in t.
Definition d_isOptional (d : declaration) : bool :=
  let 'Decl _ _ _ _ _ _ o _ := d in o.
Definition d_defaultValue (d : declaration) : option string :=
  let 'Decl _ _ _ _ _ _ _ v := d in v.

Definition s_parameters (s : signature) : list param :=
  let 'Sig ps _ _ := s in ps.
Definition s_type (s : signature) : option type :=
  let 'Sig _ t _ := s in t.
Definition s_comment (s : signature) : option comment :=
  let 'Sig _ _ c := s in c.

Definition p_name (p : param) : string :=
  let 'Param n _ _ _ := p in n.
Definition p_type (p : param) : option type :=
  let 'Param _ t _ _ := p in t.
Definition p_isOptional (p : param) : bool :=
  let 'Param _ _ o _ := p in o.
Definition p_comment (p : param) : option comment :=
  let 'Param _ _ _ c := p in c.

(** [Map<string, string>]: keys in insertion order. *)
Definition urlMap : Type := list (string * string).

Fixpoint map_get (m : urlMap) (k : string) : option string :=
  match m with
  | [] => None
  | (k', v) :: m' => if String.eqb k' k then Some v else map_get m' k
  end.

Definition map_has (m : urlMap) (k : string) : bool :=
  match map_get m k with Some _ => true | None => false end.

(** [m.set(k, v)]: an existing key keeps its place. *)
Fixpoint map_set (m : urlMap) (k v : string) : urlMap :=
  match m with
  | [] => [(k, v)]
  | (k', v') :: m' =>
      if String.eqb k' k then (k, v) :: m' else (k', v') :: map_set m' k v
  end.

Definition map_keys (m : urlMap) : list string := map fst m.

End Model.

(* ================================================================== *)
(** * utils.ts *)
(* ================================================================== *)

Module Utils.
Import Js Re Model.

(** [escapeMdx] *)
Definition escapeMdx (text : string) : string :=
  replaceAll (Chr ">") (fun _ => String BSL ">")
    (replaceAll (Chr "<") (fun _ => String BSL "<")
       (replaceAll (Chr "}") (fun _ => String BSL "}")
          (replaceAll (Chr "{") (fun _ => String BSL "{") text))).

(** [sanitizeAttribute]: escape double quotes, turn line feeds into
    spaces, drop carriage returns. *)
Definition sanitizeAttribute (text : string) : string :=
  replaceAll (Chr CR) (fun _ => "")
    (replaceAll (Chr LF) (fun _ => " ")
       (replaceAll (Chr DQ) (fun _ => String BSL dq) text)).

Definition is_slug_char (c : ascii) : bool := is_lower c || is_digit c.

(** [/[^a-z0-9]+/g] *)
Definition re_non_slug : regex := Plus true (Not is_slug_char).

(** [/^-+|-+$/g] *)
Definition re_edge_hyphens : regex :=
  Alt (Seq (Bol false) (Plus true (Chr "-")))
      (Seq (Plus true (Chr "-")) (Eol false)).

(** [slugify]: lower-case, turn every run of other characters into one
    hyphen, strip the hyphens at both ends. *)
Definition slugify (text : string) : string :=
  replaceAll re_edge_hyphens (fun _ => "")
    (replaceAll re_non_slug (fun _ => "-")
       (toLowerCase text)).

(** [/\.mdx$/] *)
Definition re_mdx_ext : regex := Seq (Lit ".mdx") (Eol false).

Definition stripMdx (url : string) : string :=
  replaceFirst re_mdx_ext (fun _ => "") url.

Definition hex_digit (n : nat) : ascii :=
  if Nat.ltb n 10 then ascii_of_nat (48 + n) else ascii_of_nat (87 + n).

(** [JSON.stringify] of a string: the quoted text with its escapes. *)
Fixpoint json_escape (s : string) : string :=
  match s with
  | "" => ""
  | String c s' =>
      (if Ascii.eqb c DQ then String BSL dq
       else if Ascii.eqb c BSL then String BSL (String BSL "")
       else if Ascii.eqb c "008" then String BSL "b"
       else if Ascii.eqb c TAB then String BSL "t"
       else if Ascii.eqb c LF then String BSL "n"
       else if Ascii.eqb c FF then String BSL "f"
       else if Ascii.eqb c CR then String BSL "r"
       else if Nat.ltb (code c) 32 then
         String BSL ("u00" ++ String (hex_digit (code c / 16))
                                (String (hex_digit (code c mod 16)) ""))
       else String c "") ++ json_escape s'
  end.

Definition json_stringify (v : literal) : completion string :=
  match v with
  | LStr s => Normal (dq ++ json_escape s ++ dq)
  | LNum digits => Normal digits
  | LBool true => Normal "true"
  | LBool false => Normal "false"
  | LNull => Normal "null"
  | LBigInt _ => Throw TypeError
  end.

(** The hyperlink a reference name becomes when it has a page. *)
Definition linkName (typeToUrlMap : option urlMap) (typeName : string)
  : string :=
  match typeToUrlMap with
  | Some m =>
      match map_get m typeName with
      | Some targetUrl =>
          let cleanUrl := stripMdx targetUrl in
          let absoluteUrl :=
            if startsWith cleanUrl "/" then cleanUrl else "/" ++ cleanUrl in
          "[" ++ typeName ++ "](" ++ absoluteUrl ++ ")"
      | None => typeName
      end
  | None => typeName
  end.

Definition optionalMark (isOptional : bool) : string :=
  if isOptional then "?" else "".

Section FormatType.

Variable typeToUrlMap : option urlMap.

(** [formatType] on a type object.  The recursion follows the source:
    one call per sub-expression, through arguments, members, element
    types, and the first signature or the children of an embedded
    declaration, in the order of the source; the exception of a call
    ends the calls that contain it. *)
Fixpoint formatNode (t : type) {struct t} : completion string :=
  let formatOpt (o : option type) : completion string :=
    match o with None => Normal "any" | Some t' => formatNode t' end in
  match t with
  | TyString s => Normal (match s with "" => "any" | _ => s end)
  | Intrinsic name => Normal name
  | Reference name typeArguments =>
      let typeName := linkName typeToUrlMap name in
      match typeArguments with
      | [] => Normal typeName
      | _ =>
          andThen (mapThrowing formatNode typeArguments) (fun args =>
            Normal (typeName ++ "<" ++ join ", " args ++ ">"))
      end
  | ArrayT elementType =>
      andThen (formatNode elementType) (fun e => Normal (e ++ "[]"))
  | Union types =>
      andThen (mapThrowing formatNode types) (fun ss =>
        Normal (join " | " ss))
  | Intersection types =>
      andThen (mapThrowing formatNode types) (fun ss =>
        Normal (join " & " ss))
  | Literal value => json_stringify value
  | Tuple elements =>
      andThen (mapThrowing formatNode elements) (fun ss =>
        Normal ("[" ++ join ", " ss ++ "]"))
  | ReflectionT None => Normal "object"
  | ReflectionT (Some reflection) =>
      match d_signatures reflection with
      | sig :: _ =>
          andThen
            (mapThrowing
               (fun p =>
                  andThen (formatOpt (p_type p)) (fun s =>
                    Normal (p_name p ++ optionalMark (p_isOptional p)
                            ++ ": " ++ s)))
               (s_parameters sig))
            (fun params =>
               andThen (formatOpt (s_type sig)) (fun returnType =>
                 Normal ("(" ++ join ", " params ++ ") => " ++ returnType)))
      | [] =>
          match d_children reflection with
          | _ :: _ =>
              andThen
                (mapThrowing
                   (fun child =>
                      andThen (formatOpt (d_type child)) (fun s =>
                        Normal (d_name child
                                ++ optionalMark (d_isOptional child)
                                ++ ": " ++ s)))
                   (d_children reflection))
                (fun props => Normal ("{ " ++ join "; " props ++ " }"))
          | [] => Normal "object"
          end
      end
  | Conditional checkType extendsType trueType falseType =>
      andThen (formatNode checkType) (fun c =>
      andThen (formatNode extendsType) (fun e =>
      andThen (formatNode trueType) (fun a =>
      andThen (formatNode falseType) (fun b =>
        Normal (c ++ " extends " ++ e ++ " ? " ++ a ++ " : " ++ b)))))
  | IndexedAccess objectType indexType =>
      andThen (formatNode objectType) (fun o =>
      andThen (formatNode indexType) (fun i =>
        Normal (o ++ "[" ++ i ++ "]")))
  | Query queryTypeName =>
      Normal
        ("typeof "
         ++ orElse (match queryTypeName with Some n => n | None => "" end)
                   "unknown")
  | Predicate name _ =>
      (* [formatType(predicate.type)]: the field read is the tag of the
         type object, the text [predicate], which the call returns as it
         is; the target type is not read. *)
      Normal (orElse name "this" ++ " is " ++ "predicate")
  | TemplateLiteral toStringResult =>
      Normal
        (orElse (match toStringResult with Some s => s | None => "" end)
                "string")
  | OtherType toStringResult =>
      Normal
        (orElse (match toStringResult with Some s => s | None => "" end)
                "any")
  end.

(** [formatType(type, typeToUrlMap, currentPageUrl)]; an absent type
    formats to [any]. *)
Definition formatType (type : option type) : completion string :=
  match type with
  | None => Normal "any"
  | Some t => formatNode t
  end.

(** The same function with its call depth counted: [formatTypeN n type]
    is the completion of [formatType] when no chain of nested calls is
    longer than [n], and [None] when the recursion would go deeper. *)
Definition counted (A : Type) : Type := option (completion A).

Definition thenCounted {A B : Type} (c : counted A) (f : A -> counted B)
  : counted B :=
  match c with
  | Some (Normal a) => f a
  | Some (Throw e) => Some (Throw e)
  | None => None
  end.

Definition mapCounted {X Y : Type} (f : X -> counted Y)
  : list X -> counted (list Y) :=
  fix each (l : list X) : counted (list Y) :=
    match l with
    | [] => Some (Normal [])
    | x :: l' =>
        thenCounted (f x) (fun y =>
        thenCounted (each l') (fun ys => Some (Normal (y :: ys))))
    end.

Fixpoint formatTypeN (n : nat) (type : option type) {struct n}
  : counted string :=
  match n with
  | O => None
  | S n' =>
      let rec := formatTypeN n' in
      let ret (text : string) : counted string := Some (Normal text) in
      match type with
      | None => ret "any"
      | Some t =>
          match t with
          | TyString s => ret (match s with "" => "any" | _ => s end)
          | Intrinsic name => ret name
          | Reference name typeArguments =>
              let typeName := linkName typeToUrlMap name in
              match typeArguments with
              | [] => ret typeName
              | _ =>
                  thenCounted
                    (mapCounted (fun a => rec (Some a)) typeArguments)
                    (fun args =>
                       ret (typeName ++ "<" ++ join ", " args ++ ">"))
              end
          | ArrayT elementType =>
              thenCounted (rec (Some elementType)) (fun e => ret (e ++ "[]"))
          | Union types =>
              thenCounted (mapCounted (fun a => rec (Some a)) types)
                (fun ss => ret (join " | " ss))
          | Intersection types =>
              thenCounted (mapCounted (fun a => rec (Some a)) types)
                (fun ss => ret (join " & " ss))
          | Literal value => Some (json_stringify value)
          | Tuple elements =>
              thenCounted (mapCounted (fun a => rec (Some a)) elements)
                (fun ss => ret ("[" ++ join ", " ss ++ "]"))
          | ReflectionT None => ret "object"
          | ReflectionT (Some reflection) =>
              match Model.d_signatures reflection with
              | sig :: _ =>
                  thenCounted
                    (mapCounted
                       (fun p =>
                          thenCounted (rec (p_type p)) (fun s =>
                            ret (p_name p ++ optionalMark (p_isOptional p)
                                 ++ ": " ++ s)))
                       (s_parameters sig))
                    (fun params =>
                       thenCounted (rec (s_type sig)) (fun returnType =>
                         ret ("(" ++ join ", " params ++ ") => "
                              ++ returnType)))
              | [] =>
                  match d_children reflection with
                  | _ :: _ =>
                      thenCounted
                        (mapCounted
                           (fun child =>
                              thenCounted (rec (d_type child)) (fun s =>
                                ret (d_name child
                                     ++ optionalMark (d_isOptional child)
                                     ++ ": " ++ s)))
                           (d_children reflection))
                        (fun props => ret ("{ " ++ join "; " props ++ " }"))
                  | [] => ret "object"
                  end
              end
          | Conditional checkType extendsType trueType falseType =>
              thenCounted (rec (Some checkType)) (fun c =>
              thenCounted (rec (Some extendsType)) (fun e =>
              thenCounted (rec (Some trueType)) (fun a =>
              thenCounted (rec (Some falseType)) (fun b =>
                ret (c ++ " extends " ++ e ++ " ? " ++ a ++ " : " ++ b)))))
          | IndexedAccess objectType indexType =>
              thenCounted (rec (Some objectType)) (fun o =>
              thenCounted (rec (Some indexType)) (fun i =>
                ret (o ++ "[" ++ i ++ "]")))
          | Query queryTypeName =>
              ret ("typeof "
                   ++ orElse (match queryTypeName with
                              | Some q => q | None => "" end) "unknown")
          | Predicate name _ =>
              thenCounted (rec (Some (TyString "predicate"))) (fun s =>
                ret (orElse name "this" ++ " is " ++ s))
          | TemplateLiteral toStringResult =>
              ret (orElse (match toStringResult with
                           | Some s => s | None => "" end) "string")
          | OtherType toStringResult =>
              ret (orElse (match toStringResult with
                           | Some s => s | None => "" end) "any")
          end
      end
  end.

End FormatType.

(** The nesting depth of a type expression: the longest chain of
    nested calls [formatType] makes on it, the call on the tag of a
    predicate included. *)
Fixpoint depth (t : type) {struct t} : nat :=
  let depthOpt (o : option type) : nat :=
    match o with None => 0 | Some t' => depth t' end in
  let depthAll :=
    fix depthAll (l : list type) : nat :=
      match l with
      | [] => 0
      | t' :: l' => Nat.max (depth t') (depthAll l')
      end in
  S match t with
    | Reference _ typeArguments => depthAll typeArguments
    | ArrayT elementType => depth elementType
    | Union types | Intersection types | Tuple types => depthAll types
    | ReflectionT (Some reflection) =>
        match d_signatures reflection with
        | sig :: _ =>
            Nat.max
              ((fix each (l : list param) : nat :=
                  match l with
                  | [] => 0
                  | p :: l' => Nat.max (depthOpt (p_type p)) (each l')
                  end) (s_parameters sig))
              (depthOpt (s_type sig))
        | [] =>
            (fix each (l : list declaration) : nat :=
               match l with
               | [] => 0
               | child :: l' => Nat.max (depthOpt (d_type child)) (each l')
               end) (d_children reflection)
        end
    | Conditional c e a b =>
        Nat.max (Nat.max (depth c) (depth e)) (Nat.max (depth a) (depth b))
    | IndexedAccess o i => Nat.max (depth o) (depth i)
    | Predicate _ _ => 1
    | _ => 0
    end.

Definition depthOpt (o : option type) : nat :=
  match o with None => 0 | Some t => depth t end.

(** The largest value of a measure over a list. *)
Definition maxOf {A : Type} (f : A -> nat) (l : list A) : nat :=
  fold_right (fun a acc => Nat.max (f a) acc) 0 l.

(** [shouldHaveOwnPage] *)
Definition pageableKinds : list Z :=
  [KModule; KNamespace; KEnum; KFunction; KClass; KInterface; KTypeAlias].

Definition shouldHaveOwnPage (reflection : declaration) : bool :=
  existsb (Z.eqb (d_kind reflection)) pageableKinds.

End Utils.

(* ================================================================== *)
(** * components.ts *)
(* ================================================================== *)

Module Components.
Import Js.

Record section : Type := Section_ {
  title : string;
  content : string
}.

(** [accordion(title, content)] *)
Definition accordion (title content : string) : string :=
  "<Accordion title=" ++ dq ++ title ++ dq ++ ">" ++ nl
  ++ content ++ nl
  ++ "</Accordion>".

(** Every line of the content moved two columns to the right. *)
Definition indent (content : string) : string :=
  join nl (map (fun line => "  " ++ line) (split LF content)).

(** [accordionGroup(accordions)] *)
Definition accordionGroup (accordions : list section) : string :=
  let items :=
    join (nl ++ nl)
      (map (fun acc => accordion (title acc) (indent (content acc)))
           accordions) in
  "<AccordionGroup>" ++ nl ++ items ++ nl ++ "</AccordionGroup>".

Record codeBlock : Type := CodeBlock {
  cb_title : string;
  cb_code : string;
  cb_language : string
}.

Definition fence : string := "```".

(** [codeGroup(codeBlocks)] *)
Definition codeGroup (codeBlocks : list codeBlock) : string :=
  let blocks :=
    join (nl ++ nl)
      (map (fun block =>
              fence ++ cb_language block ++ " " ++ cb_title block ++ nl
              ++ cb_code block ++ nl ++ fence)
           codeBlocks) in
  "<CodeGroup>" ++ nl ++ blocks ++ nl ++ "</CodeGroup>".

Definition titleAttr (title : string) : string :=
  match title with
  | "" => ""
  | _ => " title=" ++ dq ++ title ++ dq
  end.

(** [info(content, title = '')] *)
Definition info (content title : string) : string :=
  "<Info" ++ titleAttr title ++ ">" ++ nl ++ content ++ nl ++ "</Info>".

(** [warning(content, title = '')] *)
Definition warning (content title : string) : string :=
  "<Warning" ++ titleAttr title ++ ">" ++ nl ++ content ++ nl
  ++ "</Warning>".

(** [note(content, title = '')] *)
Definition note (content title : string) : string :=
  "<Note" ++ titleAttr title ++ ">" ++ nl ++ content ++ nl ++ "</Note>".

(** [expandable(title, content, defaultOpen = false)] *)
Definition expandable (title content : string) (defaultOpen : bool)
  : string :=
  "<Expandable title=" ++ dq ++ title ++ dq
  ++ (if defaultOpen then " defaultOpen" else "") ++ ">" ++ nl
  ++ content ++ nl
  ++ "</Expandable>".

End Components.

(* ================================================================== *)
(** * reflection-renderer.ts: MintlifyReflectionRenderer *)
(* ================================================================== *)

Module Renderer.
Import Js Re Model Utils Components.

(** The fields of the renderer object that the rendering methods read. *)
Record renderer : Type := Renderer_ {
  typeToUrlMap : urlMap;
  currentPageUrl : option string;
  frontmatterDescription : option string;
  indexPageUrl : string
}.

Section Methods.

Variable this : renderer.

(** [formatTypeWithLinks].  The methods of the renderer are modelled
    for the reflections whose types format: they read the text the
    formatter returned. *)
Definition formatTypeWithLinks (type : option type) : string :=
  returned (formatType (Some (typeToUrlMap this)) type).

(** [extractCommentText] *)
Definition extractCommentText (content : list commentPart) : string :=
  trim (join ""
    (map (fun part =>
            if String.eqb (part_kind part) "code" && nonEmpty (part_text part)
            then "`" ++ part_text part ++ "`"
            else part_text part)
         content)).

Definition summaryOf (c : option comment) : list commentPart :=
  match c with Some c' => summary c' | None => [] end.

(** [/\.$/] *)
Definition re_final_dot : regex := Seq (Chr ".") (Eol false).

(** [renderSummary] *)
Definition renderSummary (reflection : declaration) : string :=
  match d_comment reflection with
  | None => ""
  | Some c =>
      let summary := extractCommentText (summary c) in
      match summary with
      | "" => ""
      | _ =>
          let same :=
            match frontmatterDescription this with
            | Some fd =>
                nonEmpty fd &&
                String.eqb
                  (replaceFirst re_final_dot (fun _ => "") (trim summary))
                  (replaceFirst re_final_dot (fun _ => "") (trim fd))
            | None => false
            end in
          if same then "" else summary ++ nl ++ nl
      end
  end.

(** The pattern the example extractor runs: an opening fence with an
    optional language word, a line feed, and the shortest text up to the
    next fence. *)
Definition re_code_block : regex :=
  Seqs [Lit fence; Opt (Grp 1 (Plus true Word)); NL;
        Grp 2 (Star false Any); Lit fence].

Record example : Type := Example_ {
  language : string;
  code : string
}.

Definition capitalize (s : string) : string :=
  match s with
  | "" => ""
  | String c s' => String (upper_char c) s'
  end.

(** [renderComments] *)
Definition renderComments (c : option comment) : string :=
  match c with
  | None => ""
  | Some c =>
      let step (acc : string * list example) (t : blockTag) :=
        let '(content, examples) := acc in
        if String.eqb (tag t) "@remarks" then
          match extractCommentText (Model.content t) with
          | "" => acc
          | text => (content ++ info text "" ++ nl ++ nl, examples)
          end
        else if String.eqb (tag t) "@warning" then
          match extractCommentText (Model.content t) with
          | "" => acc
          | text => (content ++ warning text "" ++ nl ++ nl, examples)
          end
        else if String.eqb (tag t) "@note" then
          match extractCommentText (Model.content t) with
          | "" => acc
          | text => (content ++ note text "" ++ nl ++ nl, examples)
          end
        else if String.eqb (tag t) "@example" then
          match extractCommentText (Model.content t) with
          | "" => acc
          | exampleText =>
              let found :=
                map (fun m => Example_ (orElse (group 1 m) "typescript")
                                       (trim (group 2 m)))
                    (matchAll re_code_block exampleText) in
              let examples' := (examples ++ found)%list in
              match examples', trim exampleText with
              | [], String _ _ =>
                  (content, [Example_ "typescript" (trim exampleText)])
              | _, _ => (content, examples')
              end
          end
        else acc in
      let '(content, examples) := fold_left step (blockTags c) ("", []) in
      match examples with
      | [] => content
      | [ex] =>
          content ++ fence ++ language ex ++ nl ++ code ex ++ nl ++ fence
          ++ nl ++ nl
      | _ =>
          content
          ++ codeGroup (map (fun ex => CodeBlock (capitalize (language ex))
                                                 (code ex) (language ex))
                            examples)
          ++ nl ++ nl
      end
  end.

(** [determineParameterLocation] *)
Definition determineParameterLocation (name : string) : string :=
  let nameLower := toLowerCase name in
  if includes nameLower "id"
     && negb (includes nameLower "userid")
     && negb (includes nameLower "accountid")
  then "path"
  else if includes nameLower "header"
          || String.eqb nameLower "authorization"
          || String.eqb nameLower "auth"
          || String.eqb nameLower "apikey"
  then "header"
  else if includes nameLower "query"
          || includes nameLower "limit"
          || includes nameLower "offset"
          || includes nameLower "page"
          || includes nameLower "sort"
          || includes nameLower "filter"
  then "query"
  else if includes nameLower "body"
          || includes nameLower "data"
          || includes nameLower "payload"
          || includes nameLower "request"
  then "body"
  else "path".

(** [generateParameterDescription] *)
Definition generateParameterDescription (name type : string) : string :=
  let nameLower := toLowerCase name in
  if includes nameLower "id" then
    "Unique identifier for the resource."
  else if includes nameLower "url" || includes nameLower "endpoint" then
    "The API endpoint URL."
  else if includes nameLower "key" || includes nameLower "token"
          || includes nameLower "auth" then
    "Authentication credentials or API key."
  else if includes nameLower "options" || includes nameLower "config" then
    "Configuration options for the request."
  else if includes nameLower "data" || includes nameLower "body"
          || includes nameLower "payload" then
    "Request payload data."
  else if includes nameLower "limit" then
    "Maximum number of results to return."
  else if includes nameLower "offset" || includes nameLower "skip" then
    "Number of results to skip."
  else if includes nameLower "timeout" then
    "Request timeout in milliseconds."
  else if String.eqb type "string" then
    "The " ++ name ++ " value."
  else if String.eqb type "number" then
    "Numeric value for " ++ name ++ "."
  else if String.eqb type "boolean" then
    "Whether " ++ name ++ " is enabled."
  else
    "The " ++ name ++ " parameter.".

(** A markdown link [[text](target)], with the text captured. *)
Definition re_md_link : regex :=
  Seqs [Chr "["; Grp 1 (Plus true (NotChr "]")); Lit "]("; 
        Plus true (NotChr ")"); Chr ")"].

(** [type.replace(re_md_link, '$1')]: every link replaced by its text. *)
Definition unlink (type : string) : string :=
  replaceAll re_md_link (group 1) type.

Definition hasLink (type : string) : bool :=
  includes type "[" && includes type "](".

(** The head of the type name, up to its first [<]. *)
Definition baseName (typeName : string) : string :=
  match split "<" (toLowerCase typeName) with
  | head :: _ => head
  | [] => ""
  end.

(** The description a parameter field carries: the comment's summary or,
    without one, the synthesized sentence; then the linked type, when the
    type has links and the text does not name it. *)
Definition parameterDescription (p : param) : string :=
  let name := p_name p in
  let type := formatTypeWithLinks (p_type p) in
  let description :=
    orElse (extractCommentText (summaryOf (p_comment p)))
           (generateParameterDescription name type) in
  if hasLink type
     && negb (includes (toLowerCase description) (baseName (unlink type)))
  then description ++ " Type: " ++ type ++ "."
  else description.

(** The body of the loop of [renderParameters]: one [ParamField]. *)
Definition renderParameter (p : param) : string :=
  let name := p_name p in
  let type := formatTypeWithLinks (p_type p) in
  let required := negb (p_isOptional p) in
  let description := parameterDescription p in
  let location := determineParameterLocation name in
  let locationAttr :=
    if String.eqb location "path" then "path"
    else if String.eqb location "query" then "query"
    else if String.eqb location "header" then "header"
    else "body" in
  let typeForAttribute := unlink type in
  "<ParamField " ++ locationAttr ++ "=" ++ dq ++ sanitizeAttribute name ++ dq
  ++ " type=" ++ dq ++ sanitizeAttribute typeForAttribute ++ dq
  ++ (if required then " required" else "") ++ ">" ++ nl
  ++ description ++ nl
  ++ "</ParamField>" ++ nl ++ nl.

(** [renderParameters] *)
Definition renderParameters (parameters : list param) : string :=
  join "" (map renderParameter parameters).

Definition returnsTag (c : option comment) : list commentPart :=
  match c with
  | None => []
  | Some c' =>
      match find (fun t => String.eqb (tag t) "@returns") (blockTags c') with
      | Some t => Model.content t
      | None => []
      end
  end.

(** [renderReturnType] *)
Definition renderReturnType (signature : signature) : string :=
  match s_type signature with
  | None => ""
  | Some _ =>
      let type := formatTypeWithLinks (s_type signature) in
      let returnsComment := extractCommentText (returnsTag (s_comment signature)) in
      let description :=
        match returnsComment with
        | "" => "Returns " ++ type ++ "."
        | _ => returnsComment ++ " Returns " ++ type ++ "."
        end in
      let typeForAttribute := unlink type in
      "<ResponseField name=" ++ dq ++ "returns" ++ dq
      ++ " type=" ++ dq ++ sanitizeAttribute typeForAttribute ++ dq ++ ">"
      ++ nl ++ description ++ nl ++ "</ResponseField>" ++ nl ++ nl
  end.

(** [renderSignature] *)
Definition renderSignature (name : string) (signature : signature)
  (isConstructor useExpandable : bool) : string :=
  let params := s_parameters signature in
  let paramList :=
    join ", "
      (map (fun p => p_name p ++ optionalMark (p_isOptional p) ++ ": "
                     ++ returned (formatType None (p_type p)))
           params) in
  let returnType :=
    match s_type signature with
    | Some _ => returned (formatType None (s_type signature))
    | None => "void"
    end in
  let sigText :=
    if isConstructor then "new " ++ name ++ "(" ++ paramList ++ ")"
    else name ++ "(" ++ paramList ++ "): " ++ returnType in
  "`" ++ sigText ++ "`" ++ nl ++ nl
  ++ match s_comment signature with
     | Some c =>
         match extractCommentText (summary c) with
         | "" => ""
         | summary => summary ++ nl ++ nl
         end
     | None => ""
     end
  ++ match params with
     | [] => ""
     | _ =>
         let paramsContent := renderParameters params in
         if useExpandable then
           expandable "Parameters" (trim paramsContent) false ++ nl ++ nl
         else "#### Parameters" ++ nl ++ nl ++ paramsContent ++ nl
     end
  ++ match s_type signature with
     | Some _ =>
         if isConstructor then ""
         else
           let returnsContent := renderReturnType signature in
           if useExpandable then
             expandable "Returns" (trim returnsContent) false ++ nl ++ nl
           else "#### Returns" ++ nl ++ nl ++ returnsContent ++ nl
     | None => ""
     end.

(** [renderInterfaceProperty] *)
Definition renderInterfaceProperty (property : declaration) : string :=
  let name := d_name property in
  let type := formatTypeWithLinks (d_type property) in
  let required := negb (d_isOptional property) in
  let description :=
    orElse (extractCommentText (summaryOf (d_comment property)))
           ("The " ++ name ++ " property.") in
  let typeName := unlink type in
  let description :=
    if negb (includes (toLowerCase description) (baseName typeName))
    then description ++ " Type: " ++ type ++ "."
    else description in
  let typeForAttribute := unlink type in
  "**" ++ name ++ "**" ++ nl ++ nl
  ++ "<ResponseField name=" ++ dq ++ sanitizeAttribute name ++ dq
  ++ " type=" ++ dq ++ sanitizeAttribute typeForAttribute ++ dq
  ++ (if required then " required" else "") ++ ">" ++ nl
  ++ description ++ nl
  ++ "</ResponseField>" ++ nl ++ nl.

(** [renderProperty] *)
Definition renderProperty (property : declaration) : string :=
  let name := d_name property in
  let type := formatTypeWithLinks (d_type property) in
  let description :=
    orElse (extractCommentText (summaryOf (d_comment property)))
           ("The " ++ name ++ " property.") in
  "**" ++ name ++ "**" ++ nl ++ nl
  ++ (if hasLink type then "**Type:** " ++ type ++ nl ++ nl
      else "**Type:** `" ++ type ++ "`" ++ nl ++ nl)
  ++ match description with
     | "" => ""
     | _ => description ++ nl ++ nl
     end.

(** [renderToc] *)
Definition renderToc (items : list string) : string :=
  match items with
  | [] => ""
  | _ =>
      let tocLinks :=
        join nl
          (map (fun item =>
                  let anchor :=
                    replaceAll (Plus true Space) (fun _ => "-")
                               (toLowerCase item) in
                  "- [" ++ item ++ "](#" ++ anchor ++ ")")
               items) in
      "<Toc>" ++ nl ++ tocLinks ++ nl ++ "</Toc>" ++ nl ++ nl
  end.

Definition ofKind (k : Z) (reflection : declaration) : list declaration :=
  filter (fun child => Z.eqb (d_kind child) k) (d_children reflection).

(** The constructor block of [renderClass]. *)
Definition renderClassConstructors (constructors : list declaration)
  : string :=
  match constructors with
  | [] => ""
  | _ =>
      "### Constructor" ++ nl ++ nl
      ++ join ""
           (map (fun constructor =>
                   match d_signatures constructor with
                   | sig :: _ =>
                       match s_parameters sig with
                       | _ :: _ =>
                           renderSignature (d_name constructor) sig true true
                       | [] =>
                           renderSignature (d_name constructor) sig true false
                       end
                   | [] => ""
                   end)
                constructors)
      ++ nl
  end.

(** The properties block of [renderClass]: a disclosure group when there
    are more than 5 properties, a flat sequence otherwise. *)
Definition renderClassProperties (properties : list declaration) : string :=
  match properties with
  | [] => ""
  | _ =>
      "### Properties" ++ nl ++ nl
      ++ (if Nat.ltb 5 (List.length properties) then
            let accordions :=
              map (fun prop => Section_ (d_name prop)
                                        (trim (renderProperty prop)))
                  properties in
            accordionGroup accordions ++ nl ++ nl
          else
            join "" (map renderProperty properties) ++ nl)
  end.

(** The accordion of one method, in the grouped layout. *)
Definition methodAccordion (method : declaration) : section :=
  match d_signatures method with
  | sig :: _ =>
      let paramList :=
        join ", "
          (map (fun p => p_name p ++ optionalMark (p_isOptional p) ++ ": "
                         ++ formatTypeWithLinks (p_type p))
               (s_parameters sig)) in
      let returnType :=
        match s_type sig with
        | Some _ => formatTypeWithLinks (s_type sig)
        | None => "void"
        end in
      Section_ (d_name method ++ "(" ++ paramList ++ "): " ++ returnType)
               (trim (renderSignature (d_name method) sig false true))
  | [] => Section_ (d_name method) ""
  end.

(** What the flat layout writes for one method: its first signature. *)
Definition methodFlat (method : declaration) : string :=
  match d_signatures method with
  | sig :: _ => renderSignature (d_name method) sig false true
  | [] => ""
  end.

(** The methods block of [renderClass]: a disclosure group when there are
    more than 3 methods. *)
Definition renderClassMethods (methods : list declaration) : string :=
  match methods with
  | [] => ""
  | _ =>
      "### Methods" ++ nl ++ nl
      ++ (if Nat.ltb 3 (List.length methods) then
            let accordions :=
              filter (fun acc => nonEmpty (content acc))
                     (map methodAccordion methods) in
            accordionGroup accordions ++ nl ++ nl
          else join "" (map methodFlat methods) ++ nl)
  end.

Definition tocItem (label : string) (members : list declaration)
  : list string :=
  match members with [] => [] | _ => [label] end.

(** [renderClass] *)
Definition renderClass (reflection : declaration) : string :=
  let constructors := ofKind KConstructor reflection in
  let properties := ofKind KProperty reflection in
  let methods := ofKind KMethod reflection in
  let tocItems :=
    (tocItem "Constructor" constructors ++ tocItem "Properties" properties
     ++ tocItem "Methods" methods)%list in
  renderSummary reflection
  ++ renderComments (d_comment reflection)
  ++ renderToc tocItems
  ++ renderClassConstructors constructors
  ++ renderClassProperties properties
  ++ renderClassMethods methods.

(** [renderInterface] *)
Definition renderInterface (reflection : declaration) : string :=
  let properties := ofKind KProperty reflection in
  renderSummary reflection
  ++ renderComments (d_comment reflection)
  ++ match properties with
     | [] => ""
     | _ =>
         renderToc ["Properties"]
         ++ (if Nat.ltb 5 (List.length properties) then
               accordionGroup
                 (map (fun prop =>
                         Section_ (d_name prop)
                                  (trim (renderInterfaceProperty prop)))
                      properties)
               ++ nl ++ nl
             else join "" (map renderInterfaceProperty properties))
     end.

(** [renderFunction] *)
Definition renderFunction (reflection : declaration) : string :=
  let tocItems :=
    match d_signatures reflection with
    | sig :: _ =>
        ((match s_parameters sig with [] => [] | _ => ["Parameters"] end)
         ++ (match s_type sig with Some _ => ["Returns"] | None => [] end))%list
    | [] => []
    end in
  renderSummary reflection
  ++ renderComments (d_comment reflection)
  ++ renderToc tocItems
  ++ join ""
       (map (fun sig => renderSignature (d_name reflection) sig false true)
            (d_signatures reflection)).

Definition emDash : string := "—".

(** One row of the members table of [renderEnum]. *)
Definition renderEnumRow (member : declaration) : string :=
  let name := d_name member in
  let value :=
    orElse (match d_defaultValue member with Some v => v | None => "" end)
           name in
  let description :=
    orElse (extractCommentText (summaryOf (d_comment member))) emDash in
  "| `" ++ name ++ "` | `" ++ value ++ "` | " ++ description ++ " |" ++ nl.

(** [renderEnum] *)
Definition renderEnum (reflection : declaration) : string :=
  let members := ofKind KEnumMember reflection in
  renderSummary reflection
  ++ renderComments (d_comment reflection)
  ++ match members with
     | [] => ""
     | _ =>
         renderToc ["Members"]
         ++ "### Members" ++ nl ++ nl
         ++ "| Name | Value | Description |" ++ nl
         ++ "|------|-------|-------------|" ++ nl
         ++ join "" (map renderEnumRow members)
         ++ nl
     end.

(** [renderTypeAlias] *)
Definition renderTypeAlias (reflection : declaration) : string :=
  renderSummary reflection
  ++ renderComments (d_comment reflection)
  ++ match d_type reflection with
     | Some _ =>
         let typeStr := formatTypeWithLinks (d_type reflection) in
         if hasLink typeStr then
           let escapedType :=
             replaceAll (Chr "}") (fun _ => String BSL "}")
               (replaceAll (Chr "{") (fun _ => String BSL "{") typeStr) in
           "**Type:** " ++ escapedType ++ nl ++ nl
         else "**Type:** `" ++ typeStr ++ "`" ++ nl ++ nl
     | None => ""
     end.

End Methods.

End Renderer.

(* ================================================================== *)
(** * navigation.ts: MintlifyNavigation *)
(* ================================================================== *)

Module Navigation.
Import Js Re Model.

(** The private [slugify] of the navigation writer, the same text as
    [Utils.slugify]. *)
Definition slugify (text : string) : string := Utils.slugify text.

(** [getClassPath] *)
Definition getClassPath (cls : declaration) : string :=
  "classes/" ++ slugify (d_name cls).

(** [getInterfacePath] *)
Definition getInterfacePath (iface : declaration) : string :=
  "interfaces/" ++ slugify (d_name iface).

(** [getFunctionPath] *)
Definition getFunctionPath (func : declaration) : string :=
  "functions/" ++ slugify (d_name func).

(** [getTypePath] *)
Definition getTypePath (type : declaration) : string :=
  "types/" ++ slugify (d_name type).

End Navigation.

(* ================================================================== *)
(** * theme.ts: MintlifyTheme *)
(* ================================================================== *)

Module Theme.
Import Js Re Model Utils.

(** The options [getUrls] reads; an unset string option is [""]. *)
Record options : Type := Options {
  outputFileStrategy : string;
  membersWithOwnFile : option (list string);
  fileExtension : string;
  entryFileName : string;
  flattenOutputFiles : bool
}.

Record urlEntry : Type := UrlEntry {
  url : string;
  model : declaration
}.

Section GetUrls.

Variable opts : options.

Definition ownFile (kindName : string) : bool :=
  match membersWithOwnFile opts with
  | Some l => existsb (String.eqb kindName) l
  | None => false
  end.

(** The [kindMap] of [getUrlForReflection]; other kinds fall to
    [modules]. *)
Definition kindFolder (kind : Z) : string :=
  if Z.eqb kind KClass then "classes"
  else if Z.eqb kind KInterface then "interfaces"
  else if Z.eqb kind KFunction then "functions"
  else if Z.eqb kind KEnum then "enums"
  else if Z.eqb kind KTypeAlias then "type-aliases"
  else "modules".

(** [getUrlForReflection] *)
Definition getUrlForReflection (reflection : declaration) : string :=
  let fileExtension := orElse (fileExtension opts) ".mdx" in
  let folder := kindFolder (d_kind reflection) in
  let fileName :=
    if flattenOutputFiles opts then d_name reflection
    else folder ++ "/" ++ d_name reflection in
  fileName ++ fileExtension.

Definition documented (reflection : declaration) : bool :=
  let kind := d_kind reflection in
  if Z.eqb kind KClass && ownFile "Class" then true
  else if Z.eqb kind KInterface && ownFile "Interface" then true
  else if Z.eqb kind KFunction && ownFile "Function" then true
  else if Z.eqb kind KEnum && ownFile "Enum" then true
  else if Z.eqb kind KTypeAlias && ownFile "TypeAlias" then true
  else false.

(** [visitReflection]: the reflections pushed to
    [reflectionsToDocument], in the order of the traversal. *)
Fixpoint visitReflection (reflection : declaration) {struct reflection}
  : list declaration :=
  let 'Decl _ _ _ children _ _ _ _ := reflection in
  ((if documented reflection then [reflection] else [])
   ++ (fix visitAll (l : list declaration) : list declaration :=
         match l with
         | [] => []
         | child :: l' => (visitReflection child ++ visitAll l')%list
         end) children)%list.

Definition hasIndexUrl (indexUrl : string) (u : urlEntry) : bool :=
  String.eqb (url u) indexUrl
  || String.eqb (url u) "index.mdx"
  || String.eqb (url u) "index.md"
  || String.eqb (url u) "README.md"
  || String.eqb (url u) "README.mdx"
  || startsWith (url u) "index.".

Definition isIndividualPage (u : urlEntry) : bool :=
  negb (String.eqb (url u) "index.mdx")
  && (includes (url u) "classes/"
      || includes (url u) "interfaces/"
      || includes (url u) "functions/"
      || includes (url u) "enums/").

(** The entry [typeToUrlMap.set] stores for one reflection. *)
Definition mapEntry (reflection : declaration) : string * string :=
  let cleanUrl := stripMdx (getUrlForReflection reflection) in
  let urlWithApi :=
    if startsWith cleanUrl "api/" then cleanUrl else "api/" ++ cleanUrl in
  (d_name reflection, urlWithApi).

(** [getUrls]: the page list and the reference map it leaves in
    [this.typeToUrlMap].  [parentUrls] is what the base theme's
    [getUrls] returned. *)
Definition getUrls (parentUrls : list urlEntry) (typeToUrlMap : urlMap)
  (project : declaration) : list urlEntry * urlMap :=
  let indexUrl :=
    orElse (entryFileName opts) "index"
    ++ orElse (fileExtension opts) ".mdx" in
  let hasIndex :=
    existsb (fun u => hasIndexUrl indexUrl u
                      || Z.eqb (d_kind (model u)) KProject) parentUrls in
  let urls :=
    if hasIndex then parentUrls
    else UrlEntry indexUrl project :: parentUrls in
  if String.eqb (outputFileStrategy opts) "members"
     && negb (existsb isIndividualPage urls)
  then
    let reflectionsToDocument :=
      flat_map visitReflection (d_children project) in
    let urls :=
      (urls ++ map (fun r => UrlEntry (getUrlForReflection r) r)
                   reflectionsToDocument)%list in
    let typeToUrlMap :=
      fold_left (fun m r => map_set m (fst (mapEntry r)) (snd (mapEntry r)))
                reflectionsToDocument typeToUrlMap in
    let hasIndexAfter := existsb (hasIndexUrl indexUrl) urls in
    (if hasIndexAfter then urls else UrlEntry indexUrl project :: urls,
     typeToUrlMap)
  else (urls, typeToUrlMap).

End GetUrls.

(** [Array.from(keys).sort((a, b) => b.length - a.length)]: longest
    first, names of one length in their order of insertion. *)
Fixpoint insertByLength (x : string) (l : list string) : list string :=
  match l with
  | [] => [x]
  | y :: l' =>
      if Nat.ltb (String.length y) (String.length x) then x :: y :: l'
      else y :: insertByLength x l'
  end.

Definition sortByLengthDesc (l : list string) : list string :=
  fold_left (fun acc x => insertByLength x acc) l [].

Definition fence : string := "```".

(** A line of a function signature in the index: a link followed by an
    inline literal that opens with a parenthesis. *)
Definition re_signature_line : regex :=
  Seqs [Chr "["; Plus true (NotChr "]"); Lit "]("; Plus true (NotChr ")");
        Chr ")"; Star true Space; Lit "`("; Plus true (NotChr "`"); Chr ")"].

(** The three patterns built around a type name.  The source makes
    them with [new RegExp] from the name as it is written; here the name
    stands for its own text, as it does in a pattern when it is made of
    letters, digits and underscores. *)
Section Links.

Variable typeName : string.
Variable absoluteUrl : string.

(** The name inside a generic argument list in an inline literal. *)
Definition genericInCodePattern : regex :=
  Seqs [Chr "`"; Grp 1 (Seq (Star false (NotChr "`")) (Chr "<"));
        Grp 2 (Lit typeName);
        Grp 3 (Seq (Chr ">") (Star false (NotChr "`"))); Chr "`"].

Definition is_closing_punct (c : ascii) : bool :=
  existsb (Ascii.eqb c) ["."; ","; ";"; ":"; ")"; ">"]%char.

(** The name alone in an inline literal, between spaces or punctuation. *)
Definition standaloneTypePattern : regex :=
  Seqs [Grp 1 (Alt (Bol false) Space); Chr "`"; Grp 2 (Lit typeName);
        Chr "`"; Grp 3 (Alts [Space; Eol false; Cls is_closing_punct])].

(** The name in an inline literal after a parameter prefix. *)
Definition paramTypePattern : regex :=
  Seqs [Grp 1 (Alt (Seqs [Lit "**"; Plus true Word; Lit "**"])
                   (Seq (Plus true Word) (Opt (Chr "?"))));
        Lit ": `"; Grp 2 (Lit typeName); Chr "`"].

Definition link (text : string) : string :=
  "[" ++ text ++ "](" ++ absoluteUrl ++ ")".

(** What the line pass does to a line outside fenced blocks. *)
Definition linkLine (line : string) : string :=
  if test re_signature_line line then line
  else
    let line :=
      replaceAll genericInCodePattern
        (fun m =>
           replaceAll (Chr "<") (fun _ => "&lt;") (group 1 m)
           ++ link (group 2 m)
           ++ replaceAll (Chr ">") (fun _ => "&gt;") (group 3 m))
        line in
    replaceAll standaloneTypePattern
      (fun m => group 1 m ++ link (group 2 m) ++ group 3 m)
      line.

(** The line pass: fence lines toggle [inCodeBlock] and are kept, lines
    inside a fenced block are kept, the others are rewritten. *)
Fixpoint processLines (inCodeBlock : bool) (lines : list string)
  : list string :=
  match lines with
  | [] => []
  | line :: lines' =>
      if startsWith (trim line) fence then
        line :: processLines (negb inCodeBlock) lines'
      else if inCodeBlock then line :: processLines inCodeBlock lines'
      else linkLine line :: processLines inCodeBlock lines'
  end.

(** The parameter-prefix rewrite, run over the whole text. *)
Definition linkParamTypes (result : string) : string :=
  replaceAll paramTypePattern
    (fun m =>
       let beforeMatch :=
         match indexOf result (matched m) with
         | Some i => substring0 i result
         | None => ""
         end in
       if includes beforeMatch ("[" ++ group 2 m ++ "]") then matched m
       else group 1 m ++ ": [`" ++ group 2 m ++ "`](" ++ absoluteUrl ++ ")")
    result.

(** One round of the loop of [addTypeLinksToIndexPage]. *)
Definition linkTypeName (result : string) : string :=
  linkParamTypes (join nl (processLines false (split LF result))).

End Links.

(** [addTypeLinksToIndexPage] *)
Definition addTypeLinksToIndexPage (typeToUrlMap : urlMap) (content : string)
  : string :=
  match typeToUrlMap with
  | [] => content
  | _ =>
      fold_left
        (fun result typeName =>
           match map_get typeToUrlMap typeName with
           | Some url =>
               let cleanUrl := stripMdx url in
               let urlWithApi :=
                 if startsWith cleanUrl "api/" then cleanUrl
                 else "api/" ++ cleanUrl in
               linkTypeName typeName ("/" ++ urlWithApi) result
           | None => result
           end)
        (sortByLengthDesc (map_keys typeToUrlMap)) content
  end.

(** [/^##### (.+)$/gm] and [/^###### (.+)$/gm] *)
Definition re_heading (hashes : string) : regex :=
  Seqs [Bol true; Lit (hashes ++ " "); Grp 1 (Plus true Dot); Eol true].

(** [flattenHeadings] *)
Definition flattenHeadings (content : string) : string :=
  replaceAll (re_heading "######") (fun m => "**" ++ group 1 m ++ "**")
    (replaceAll (re_heading "#####") (fun m => "**" ++ group 1 m ++ "**")
       content).

End Theme.

(* ================================================================== *)
(** * renderer.js: MintlifyPageRenderer *)
(* ================================================================== *)

Module PageRenderer.
Import Js Re.

Definition bullet : string := "•".
Definition fence : string := "```".

(** [generateParameterDescription] of the page renderer. *)
Definition generateParameterDescription (name type : string) : string :=
  let nameLower := toLowerCase name in
  if includes nameLower "id" then
    "Unique identifier for the resource."
  else if includes nameLower "url" || includes nameLower "endpoint" then
    "The API endpoint URL."
  else if includes nameLower "key" || includes nameLower "token"
          || includes nameLower "auth" then
    "Authentication credentials or API key."
  else if includes nameLower "options" || includes nameLower "config" then
    "Configuration options for the request."
  else if includes nameLower "data" || includes nameLower "body"
          || includes nameLower "payload" then
    "Request payload data."
  else if includes nameLower "limit" then
    "Maximum number of results to return."
  else if includes nameLower "offset" || includes nameLower "skip" then
    "Number of results to skip."
  else if includes nameLower "timeout" then
    "Request timeout in milliseconds."
  else if includes nameLower "retry" then
    "Retry configuration for failed requests."
  else if includes nameLower "headers" then
    "Custom headers to include in the request."
  else if includes nameLower "message" || includes nameLower "msg" then
    "Descriptive message or error text."
  else if includes nameLower "type" then
    "Type or category identifier."
  else if includes nameLower "status" then
    "HTTP status code."
  else if String.eqb type "string" then
    "The " ++ name ++ " value."
  else if String.eqb type "number" then
    "Numeric value for " ++ name ++ "."
  else if String.eqb type "boolean" then
    "Whether " ++ name ++ " is enabled."
  else
    "The " ++ name ++ " parameter.".

(** ** transformParameters *)

(** A section headed by an H6 Parameters heading, up to the next heading
    or the end of the text. *)
Definition paramSectionPattern : regex :=
  Seqs [Lit "###### Parameters"; NL; NL; Grp 1 (Star false Any);
        Look true
          (Alts [Seq NL (Lit "###### "); Seq NL (Lit "##### ");
                 Seq NL (Lit "#### "); Seq NL (Lit "### ");
                 Seq NL (Lit "## "); Seq NL (Lit "# "); Eol false])].

(** A bullet line: bullet, bold name, colon, type in an inline literal,
    then the description. *)
Definition paramBulletPattern : regex :=
  Seqs [Lit (bullet ++ " **"); Grp 1 (Plus false Dot); Lit "**: `";
        Grp 2 (Plus false Dot); Chr "`"; Star true Space;
        Grp 3 (Star true Dot)].

(** An inline literal that ends with a question mark. *)
Definition optionalPattern : regex :=
  Seqs [Chr "`"; Grp 1 (Plus false Dot); Lit "?`"].

(** The location the text pipeline gives a parameter name. *)
Definition parameterLocation (name : string) : string :=
  let nameLower := toLowerCase name in
  if includes nameLower "header" || String.eqb nameLower "authorization"
     || String.eqb nameLower "auth"
  then "header"
  else if includes nameLower "query" || includes nameLower "limit"
          || includes nameLower "offset" || includes nameLower "page"
          || includes nameLower "sort"
  then "query"
  else if includes nameLower "body" || includes nameLower "data"
          || includes nameLower "payload" || includes nameLower "request"
  then "body"
  else if includes nameLower "id" && negb (includes nameLower "userid")
          && negb (includes nameLower "accountid")
  then "path"
  else "path".

(** The description kept for a bullet: synthesized when the bullet has
    none, otherwise the text with a final period added when missing. *)
Definition improveDescription (name type description : string) : string :=
  match trim description with
  | "" => generateParameterDescription name type
  | improvedDesc =>
      if endsWith improvedDesc "." then improvedDesc
      else improvedDesc ++ "."
  end.

(** The description as it is written in the field. *)
Definition cleanDescription (description : string) : string :=
  let cleanDesc := trim description in
  if endsWith cleanDesc ".." then dropLast cleanDesc else cleanDesc.

Record paramField : Type := ParamField_ {
  pf_name : string;
  pf_type : string;
  pf_description : string;
  pf_required : bool;
  pf_location : string
}.

Definition parseBullet (line : string) : option paramField :=
  match search paramBulletPattern line with
  | Some (_, m) =>
      let name := group 1 m in
      let type := group 2 m in
      let description := group 3 m in
      let required :=
        negb (test optionalPattern line)
        && negb (includes (toLowerCase line) "optional") in
      Some (ParamField_ (trim name) (trim type)
              (improveDescription name type description)
              required (parameterLocation name))
  | None => None
  end.

Definition locationAttr (location : string) : string :=
  if String.eqb location "path" then "path"
  else if String.eqb location "query" then "query"
  else if String.eqb location "header" then "header"
  else "body".

Definition writeParamField (param : paramField) : string :=
  "<ParamField " ++ locationAttr (pf_location param) ++ "=" ++ dq
  ++ pf_name param ++ dq ++ " type=" ++ dq ++ pf_type param ++ dq
  ++ (if pf_required param then " required" else "") ++ ">" ++ nl
  ++ cleanDescription (pf_description param) ++ nl
  ++ "</ParamField>" ++ nl ++ nl.

Fixpoint filter_map {A B} (f : A -> option B) (l : list A) : list B :=
  match l with
  | [] => []
  | x :: l' =>
      match f x with
      | Some y => y :: filter_map f l'
      | None => filter_map f l'
      end
  end.

Definition nonBlank (line : string) : bool := nonEmpty (trim line).

(** [transformParameters] *)
Definition transformParameters (content : string) : string :=
  replaceAll paramSectionPattern
    (fun m =>
       let paramLines := filter nonBlank (split LF (group 1 m)) in
       match filter_map parseBullet paramLines with
       | [] => matched m
       | paramFields =>
           "###### Parameters" ++ nl ++ nl
           ++ join "" (map writeParamField paramFields)
       end)
    content.

(** ** transformLinks *)

Definition typeToPath : list (string * string) :=
  [("User", "interfaces/user");
   ("RequestOptions", "interfaces/requestoptions");
   ("UserService", "classes/userservice");
   ("ApiError", "classes/apierror");
   ("ApiErrorType", "enums/apierrortype");
   ("UserResult", "types/userresult")].

(** A markdown link, text and target captured. *)
Definition linkPattern : regex :=
  Seqs [Chr "["; Grp 1 (Plus true (NotChr "]")); Lit "]("; 
        Grp 2 (Plus true (NotChr ")")); Chr ")"].

(** The extension [.md] or [.mdx] at the end, and a leading [./].  The
    table [typeToPath] is read by its own six keys only. *)
Definition re_md_ext : regex :=
  Seqs [Lit ".md"; Opt (Chr "x"); Eol false].
Definition re_dot_slash : regex := Seq (Bol false) (Lit "./").

Definition rewriteLink (m : mresult) : string :=
  let text := group 1 m in
  let path := group 2 m in
  if startsWith path "http" || startsWith path "/" then matched m
  else
    let cleanPath :=
      replaceFirst re_dot_slash (fun _ => "")
        (replaceFirst re_md_ext (fun _ => "") path) in
    if negb (includes path "/") && negb (includes path ".") then
      let typePath :=
        match Model.map_get typeToPath text with
        | Some p => p
        | None => toLowerCase cleanPath
        end in
      "[`" ++ text ++ "`](/api/" ++ typePath ++ ")"
    else "[" ++ text ++ "](/api/" ++ cleanPath ++ ")".

(** The rewriting of one known name on a line outside fenced blocks. *)
Definition linkTypeOnLine (processedLine : string) (entry : string * string)
  : string :=
  let '(typeName, path) := entry in
  replaceAll (Lit ("`" ++ typeName ++ "`"))
    (fun m =>
       match indexOf processedLine (matched m) with
       | Some i =>
           let before := substring0 i processedLine in
           let after :=
             drop (i + String.length (matched m)) processedLine in
           if includes before "[" && includes after "]" then matched m
           else "[`" ++ typeName ++ "`](/api/" ++ path ++ ")"
       | None => matched m
       end)
    processedLine.

Fixpoint linkLines (inCodeBlock : bool) (lines : list string)
  : list string :=
  match lines with
  | [] => []
  | line :: lines' =>
      if startsWith (trim line) fence then
        line :: linkLines (negb inCodeBlock) lines'
      else if negb inCodeBlock then
        fold_left linkTypeOnLine typeToPath line :: linkLines inCodeBlock lines'
      else line :: linkLines inCodeBlock lines'
  end.

(** [transformLinks] *)
Definition transformLinks (content : string) : string :=
  let content := replaceAll linkPattern rewriteLink content in
  join nl (linkLines false (split LF content)).

(** ** transformFunctionParameters *)

(** A section headed by an H4 Parameters heading, up to the next heading
    of level 1 to 4 or the end of the text. *)
Definition functionParamPattern : regex :=
  Seqs [Lit "#### Parameters"; NL; NL; Grp 1 (Star false Any);
        Look true
          (Alts [Seq NL (Lit "#### "); Seq NL (Lit "### ");
                 Seq NL (Lit "## "); Seq NL (Lit "# "); Eol false])].

(** A bullet whose name is a word with an optional question mark and
    whose type is an inline literal or a link. *)
Definition functionBulletPattern : regex :=
  Seqs [Lit (bullet ++ " **");
        Grp 1 (Seq (Plus true Word) (Opt (Chr "?")));
        Lit "**: ";
        Alt (Seqs [Chr "`"; Grp 2 (Plus false Dot); Chr "`"])
            (Seqs [Chr "["; Grp 3 (Plus true (NotChr "]")); Lit "](";
                   Plus true (NotChr ")"); Chr ")"])].

(** A backtick at either end. *)
Definition re_edge_backtick : regex :=
  Alt (Seq (Bol false) (Chr "`")) (Seq (Chr "`") (Eol false)).

Definition existingFieldPattern : regex :=
  Seqs [Lit "<ParamField"; Star false Any; Lit "</ParamField>"].

(** The lines after the first one that closes a [ParamField]. *)
Fixpoint skipField (lines : list string) : list string :=
  match lines with
  | [] => []
  | line :: lines' =>
      if includes line "</ParamField>" then lines' else skipField lines'
  end.

Record functionParam : Type := FunctionParam {
  fp_name : string;
  fp_type : string;
  fp_description : string;
  fp_required : bool
}.

(** The [while] loop over the lines of a section. *)
Fixpoint collectBullets (fuel : nat) (paramLines : list string)
  : list functionParam :=
  match fuel, paramLines with
  | S fuel', line :: lines' =>
      if includes line "<ParamField" then
        collectBullets fuel' (skipField paramLines)
      else
        match search functionBulletPattern line with
        | Some (_, m) =>
            let name := group 1 m in
            let isOptional := includes name "?" in
            let cleanName := replaceFirst (Chr "?") (fun _ => "") name in
            let actualType :=
              trim (orElse (group 2 m) (orElse (group 3 m) "any")) in
            let actualType :=
              trim (replaceAll re_edge_backtick (fun _ => "") actualType) in
            let '(description, lines'') :=
              match lines' with
              | next :: after =>
                  if negb (startsWith next bullet)
                     && negb (includes next "<ParamField")
                  then (trim next, after) else ("", lines')
              | [] => ("", lines')
              end in
            let description :=
              match description with
              | "" => generateParameterDescription cleanName actualType
              | _ => if endsWith description "." then description
                     else description ++ "."
              end in
            FunctionParam cleanName (trim actualType) description
                          (negb isOptional)
            :: collectBullets fuel' lines''
        | None => collectBullets fuel' lines'
        end
  | _, _ => []
  end.

(** [transformFunctionParameters] *)
Definition transformFunctionParameters (content : string) : string :=
  replaceAll functionParamPattern
    (fun m =>
       let paramsSection := group 1 m in
       if negb (includes paramsSection bullet) then matched m
       else
         let paramLines := filter nonBlank (split LF paramsSection) in
         match collectBullets (List.length paramLines) paramLines with
         | [] => matched m
         | paramFields =>
             let existingParamFields :=
               map matched (matchAll existingFieldPattern paramsSection) in
             "#### Parameters" ++ nl ++ nl
             ++ join "" (map (fun existing => existing ++ nl ++ nl)
                             existingParamFields)
             ++ join ""
                  (map (fun param =>
                          "<ParamField path=" ++ dq ++ fp_name param ++ dq
                          ++ " type=" ++ dq ++ fp_type param ++ dq
                          ++ (if fp_required param then " required" else "")
                          ++ ">" ++ nl
                          ++ fp_description param ++ nl
                          ++ "</ParamField>" ++ nl ++ nl)
                       paramFields)
         end)
    content.

(** ** beautifyStructure: the tag scan *)

(** A component name: a capital letter and at least one word character. *)
Definition TagName : regex := Seq Upper (Plus true Word).

(** An opening tag, its name captured: the name, the shortest run of
    characters other than the closing bracket, then the end of a
    self-closing tag or a closing bracket. *)
Definition openTagPattern : regex :=
  Seqs [Chr "<"; Grp 1 TagName; Grp 2 (Star false (NotChr ">"));
        Alt (Seq (Star true Space) (Lit "/>")) (Chr ">")].

(** A closing tag, its name captured. *)
Definition closeTagPattern : regex :=
  Seqs [Lit "</"; Grp 1 TagName; Chr ">"].

Definition openTagMatch (line : string) : option string :=
  match search openTagPattern line with
  | Some (_, m) => Some (group 1 m)
  | None => None
  end.

Definition closeTagMatch (line : string) : option string :=
  match search closeTagPattern line with
  | Some (_, m) => Some (group 1 m)
  | None => None
  end.

(** [a.lastIndexOf(x)], with [None] for -1. *)
Fixpoint lastIndexOf (x : string) (a : list string) : option nat :=
  match a with
  | [] => None
  | y :: a' =>
      match lastIndexOf x a' with
      | Some i => Some (S i)
      | None => if String.eqb y x then Some 0 else None
      end
  end.

(** One turn of the scanning loop: the stack of open tags after the
    line, and whether the line is pushed to the result.  The top of the
    stack is the last element. *)
Definition scanLine (tagStack : list string) (line : string)
  : list string * bool :=
  match openTagMatch line with
  | Some tagName =>
      let isSelfClosing := includes line "/>" in
      (if isSelfClosing then tagStack else (tagStack ++ [tagName])%list, true)
  | None =>
      match closeTagMatch line with
      | Some tagName =>
          match List.last (map Some tagStack) None with
          | Some lastOpenTag =>
              if String.eqb lastOpenTag tagName then
                (removelast tagStack, true)
              else
                match lastIndexOf tagName tagStack with
                | Some tagIndex => (firstn tagIndex tagStack, true)
                | None => (tagStack, String.eqb tagName "CodeGroup")
                end
          | None => (tagStack, String.eqb tagName "CodeGroup")
          end
      | None => (tagStack, true)
      end
  end.

(** The scanning loop: the lines pushed to [result]. *)
Fixpoint scanLines (tagStack : list string) (lines : list string)
  : list string :=
  match lines with
  | [] => []
  | line :: lines' =>
      let '(tagStack', keep) := scanLine tagStack line in
      if keep then line :: scanLines tagStack' lines'
      else scanLines tagStack' lines'
  end.

(** The first stage of [beautifyStructure] after the two line-joining
    rewrites: split, scan, join. *)
Definition balanceTags (content : string) : string :=
  join nl (scanLines [] (split LF content)).

(** ** beautifyStructure: the text rewrites *)

Definition CloseTag : regex := Seqs [Lit "</"; TagName; Chr ">"].
Definition closeField : string := "</ResponseField>".
Definition openRetry : string :=
  "<ResponseField name=" ++ dq ++ "retry" ++ dq ++ " type=" ++ dq
  ++ "object" ++ dq ++ ">".

(** The number of matches of a literal. *)
Definition count (needle text : string) : nat :=
  List.length (matchAll (Lit needle) text).

(** The start of a heading of level 1 to 3, or the end of the text. *)
Definition SectionAhead : regex :=
  Alts [Lit "### "; Lit "## "; Lit "# "; Eol false].

Definition withPeriod (desc : string) : string :=
  if endsWith desc "." then desc else desc ++ ".".

(** The replacement of a class property field by a type line. *)
Definition classPropertyPattern (name : string) : regex :=
  Seqs [Grp 1 (Seqs [Lit ("##### " ++ name); NL; NL]);
        Lit ("<ResponseField name=" ++ dq ++ name ++ dq ++ " type=" ++ dq);
        Grp 2 (Plus true (NotChr DQ)); Chr DQ;
        Grp 3 (Star true (NotChr ">")); Chr ">"; NL;
        Grp 4 (Plus false Dot); NL; Lit closeField; NL; NL].

Definition classPropertyText (m : mresult) : string :=
  group 1 m ++ "**Type:** `" ++ group 2 m ++ "`" ++ nl ++ nl
  ++ withPeriod (trim (group 4 m)) ++ nl ++ nl.

(** The [while] loop that folds three closing tags in a row into one. *)
Definition tripleClose : string := closeField ++ nl ++ closeField ++ nl ++ closeField.

Fixpoint foldTripleClose (fuel : nat) (content : string) : string :=
  match fuel with
  | O => content
  | S fuel' =>
      if includes content tripleClose then
        foldTripleClose fuel'
          (replaceAll (Lit tripleClose) (fun _ => closeField) content)
      else content
  end.

(** An open field with a one-line description directly followed by an
    H6 heading. *)
Definition unclosedFieldPattern (blank : regex) : regex :=
  Seqs [Grp 1 (Seqs [Lit ("<ResponseField name=" ++ dq); Grp 2 (Plus true Word);
                     Chr DQ; Star true (NotChr ">"); Chr ">"]);
        NL; Grp 3 (Plus true (NotChr LF)); blank;
        Grp 4 (Seq (Lit "###### ") (Plus true Word))].

Definition closeBeforeHeading (m : mresult) : string :=
  group 1 m ++ nl ++ group 3 m ++ nl ++ closeField ++ nl ++ nl ++ group 4 m.

(** The retry field, its nested text, a closing tag and the next
    section. *)
Definition retryClosedPattern : regex :=
  Seqs [Grp 1 (Seqs [Lit openRetry; NL; Plus true (NotChr LF); NL; NL]);
        Grp 2 (Star false Any);
        Grp 3 (Seqs [Lit closeField; Star true Space; NL; NL]);
        Grp 4 (Alts [Seq (Lit "### ") Upper; Seq (Lit "## ") Upper;
                     Seq (Lit "# ") Upper; Eol false])].

Definition retryClosedText (m : mresult) : string :=
  let nested := group 2 m in
  let opens := count "<ResponseField" nested in
  let closes := count closeField nested in
  if Nat.eqb opens closes && Nat.ltb 0 opens then
    if negb (endsWith (trim nested) closeField) then
      group 1 m ++ nested ++ group 3 m ++ closeField ++ nl ++ nl ++ group 4 m
    else matched m
  else matched m.

(** The retry field and its nested text up to the next section. *)
Definition retryOpenPattern : regex :=
  Seqs [Grp 1 (Seqs [Lit openRetry; NL; Plus true (NotChr LF); NL; NL]);
        Grp 2 (Star false Any);
        Grp 3 (Alts [Seqs [NL; Lit "### "; Upper]; Seqs [NL; Lit "## "; Upper];
                     Seqs [NL; Lit "# "; Upper]; Eol false])].

Definition prematureClosePattern : regex :=
  Seqs [Lit closeField; Star true Space; NL; NL; Look true (Lit "######")].

Definition unclosedNestedPattern : regex :=
  Seqs [Grp 1 (Seqs [Lit "<ResponseField"; Star true (NotChr ">"); Chr ">"]);
        NL; Grp 2 (Plus true (NotChr LF)); NL; NL;
        Look true (Seq (Lit "###### ") (Plus true Word))].

Definition doubleClosePattern : regex :=
  Seqs [Lit closeField; Star true Space; NL; NL;
        Lit closeField; Star true Space; NL; NL; Look true (Lit "### ")].

Definition retryOpenText (m : mresult) : string :=
  let openTag := group 1 m in
  let nextSection := group 3 m in
  let fixedNested :=
    replaceAll prematureClosePattern (fun _ => nl ++ nl) (group 2 m) in
  let opens := count "<ResponseField" fixedNested in
  let closes := count closeField fixedNested in
  let fixedNested :=
    if Nat.ltb closes opens then
      replaceAll unclosedNestedPattern
        (fun u => group 1 u ++ nl ++ group 2 u ++ nl ++ closeField ++ nl ++ nl)
        fixedNested
    else fixedNested in
  let finalOpens := count "<ResponseField" fixedNested in
  let finalCloses := count closeField fixedNested in
  let hasClosingBeforeNext := endsWith (trim fixedNested) closeField in
  if Nat.eqb finalOpens finalCloses then
    if negb hasClosingBeforeNext then
      openTag ++ fixedNested ++ nl ++ closeField ++ nl ++ nl ++ nextSection
    else if test doubleClosePattern (fixedNested ++ nl ++ nl ++ nextSection)
    then openTag ++ fixedNested ++ nl ++ nl ++ nextSection
    else openTag ++ fixedNested ++ nl ++ closeField ++ nl ++ nl ++ nextSection
  else matched m.

Definition Hashes : regex := Plus true (Chr "#").
Definition inlineLink : regex :=
  Seqs [Lit "[`"; Plus true (NotChr "]"); Lit "`]("; Plus true (NotChr ")");
        Chr ")"].
Definition spaceOrTab (c : ascii) : bool := Ascii.eqb c " " || Ascii.eqb c TAB.
Definition notBlankChar (c : ascii) : bool :=
  negb (Ascii.eqb c LF) && negb (is_space c).

(** [s.replace(r, t)] where [t] is a template of [$n] and text. *)
Definition sub (r : regex) (f : mresult -> string) (s : string) : string :=
  replaceAll r f s.

(** [beautifyStructure] *)
Definition beautifyStructure (content : string) : string :=
  (* split return types put back on one line *)
  let content :=
    sub (Seqs [Lit "`Promise"; Star true Space; NL; Star true Space; Chr "<";
               Grp 1 (Plus true Word); Chr ">"; Star true Space; NL;
               Star true Space; Chr "`"])
        (fun m => "`Promise<" ++ group 1 m ++ ">`") content in
  let content :=
    sub (Seqs [Chr "`"; Grp 1 TagName; Star true Space; NL; Star true Space;
               Chr "<"; Grp 2 (Plus true Word); Chr ">"; Star true Space; NL;
               Star true Space; Chr "`"])
        (fun m => "`" ++ group 1 m ++ "<" ++ group 2 m ++ ">`") content in
  (* orphaned closing tags *)
  let content := balanceTags content in
  (* blank lines *)
  let content :=
    sub (Seqs [NL; NL; NL; NL; Star true NL]) (fun _ => nl ++ nl ++ nl)
        content in
  let content :=
    sub (Seqs [NL; NL; NL;
               Grp 1 (Seqs [Chr "<"; TagName; Star true (NotChr ">"); Chr ">"])])
        (fun m => nl ++ nl ++ group 1 m) content in
  let content :=
    sub (Seqs [Grp 1 CloseTag; NL; NL; NL])
        (fun m => group 1 m ++ nl ++ nl) content in
  let content :=
    sub (Seqs [Grp 1 CloseTag; Grp 2 NL; Grp 3 (NotChr LF)])
        (fun m => group 1 m ++ nl ++ nl ++ group 3 m) content in
  (* empty sections *)
  let content :=
    sub (Seqs [Lit "### "; Plus true Word; NL; NL; NL]) (fun _ => "")
        content in
  (* trailing whitespace *)
  let content :=
    sub (Seq (Plus true (Cls spaceOrTab)) (Eol true)) (fun _ => "") content in
  (* duplicate Returns sections *)
  let content :=
    sub (Seqs [Lit "###### Returns"; NL; NL; Chr "`"; Grp 1 (Plus false Any);
               Chr "`"; NL; NL; Grp 2 (Plus false Any); NL; NL;
               Lit "###### Returns"; NL; NL; Chr "`"; Grp 3 (Plus false Any);
               Chr "`"])
        (fun m => "###### Returns" ++ nl ++ nl ++ "`" ++ group 1 m ++ "`"
                  ++ nl ++ nl ++ group 2 m ++ nl ++ nl)
        content in
  (* empty fields *)
  let content :=
    sub (Seqs [Lit "<ParamField"; Star true (NotChr ">"); Chr ">";
               Star true Space; Lit "</ParamField>"])
        (fun _ => "") content in
  let content :=
    sub (Seqs [Lit "<ResponseField"; Star true (NotChr ">"); Chr ">";
               Star true Space; Lit closeField])
        (fun _ => "") content in
  (* type lines made redundant by a field *)
  let content :=
    sub (Seqs [Lit "**Type:** `"; Grp 1 (Plus false Dot); Chr "`"; NL; NL;
               Look true (Lit "<ResponseField")])
        (fun _ => "") content in
  let content :=
    sub (Seqs [Grp 1 (Seqs [Lit "<ResponseField"; Star true (NotChr ">");
                            Lit ("type=" ++ dq);
                            Grp 2 (Plus true (NotChr DQ)); Chr DQ;
                            Star true (NotChr ">"); Chr ">"]);
               NL; NL; Lit "**Type:** `"; Bref 2; Chr "`"; NL; NL])
        (fun m => group 1 m ++ nl) content in
  (* the artifacts made of a hash and a period *)
  let content := sub (Lit "#.") (fun _ => "") content in
  let content :=
    sub (Seqs [Bol true; Lit "#."; NL; NL]) (fun _ => "") content in
  let content :=
    sub (Seqs [Bol true; Lit "#."; Eol true]) (fun _ => "") content in
  let content :=
    sub (Seqs [NL; Lit "#."; NL; NL]) (fun _ => nl ++ nl) content in
  let content :=
    sub (Seqs [NL; Lit "#."; Eol true]) (fun _ => "") content in
  let content := sub (Seqs [NL; Lit "#."; NL]) (fun _ => nl) content in
  let content :=
    join nl (filter (fun line => negb (String.eqb (trim line) "#."))
                    (split LF content)) in
  (* lines made of hashes only *)
  let content :=
    sub (Seqs [Bol true; Hashes; NL; NL]) (fun _ => "") content in
  let content := sub (Seqs [Bol true; Hashes; Eol true]) (fun _ => "") content in
  let content :=
    sub (Seqs [NL; Hashes; NL; NL]) (fun _ => nl ++ nl) content in
  let content := sub (Seqs [NL; Hashes; Eol true]) (fun _ => "") content in
  (* hashes at the end of a text become a period *)
  let content :=
    sub (Seqs [Grp 1 (Cls notBlankChar); Chr "#"; Hashes; NL; NL])
        (fun m => group 1 m ++ "." ++ nl ++ nl) content in
  let content :=
    sub (Seqs [Grp 1 (Cls notBlankChar); Chr "#"; NL; NL])
        (fun m => group 1 m ++ "." ++ nl ++ nl) content in
  (* periods after fences, closing tags and links *)
  let content :=
    sub (Seqs [Lit fence; NL; NL; Chr "."]) (fun _ => fence ++ nl ++ nl)
        content in
  let content :=
    sub (Seqs [Lit fence; Chr "."; NL]) (fun _ => fence ++ nl) content in
  let content :=
    sub (Seqs [Grp 1 CloseTag; Chr "."; NL; NL])
        (fun m => group 1 m ++ nl ++ nl) content in
  let content :=
    sub (Seqs [Grp 1 CloseTag; Chr "."; NL]) (fun m => group 1 m ++ nl)
        content in
  let content :=
    sub (Seqs [Grp 1 inlineLink; Chr "."; NL; NL])
        (fun m => group 1 m ++ nl ++ nl) content in
  let content :=
    sub (Seqs [Grp 1 inlineLink; Chr "."; NL]) (fun m => group 1 m ++ nl)
        content in
  (* a blank line on both sides of a code group *)
  let content :=
    sub (Seqs [Grp 1 (NotChr LF); NL; Grp 2 (Lit "<CodeGroup>")])
        (fun m => group 1 m ++ nl ++ nl ++ group 2 m) content in
  let content :=
    sub (Seqs [Grp 1 (Lit "</CodeGroup>"); NL; Grp 2 (NotChr LF)])
        (fun m => group 1 m ++ nl ++ nl ++ group 2 m) content in
  (* bullets of function parameters *)
  let content := transformFunctionParameters content in
  (* class properties that still carry a field *)
  let content :=
    sub (classPropertyPattern "statusCode") classPropertyText content in
  let content := sub (classPropertyPattern "type") classPropertyText content in
  (* three closing tags in a row *)
  let content := foldTripleClose (String.length content) content in
  (* fields left open before a nested heading *)
  let content :=
    sub (unclosedFieldPattern (Seq NL NL)) closeBeforeHeading content in
  let content :=
    sub (unclosedFieldPattern (Seqs [NL; NL; NL])) closeBeforeHeading content in
  (* the retry object *)
  let content := sub retryClosedPattern retryClosedText content in
  let content := sub retryOpenPattern retryOpenText content in
  (* closing tags without an opening *)
  let content :=
    sub (Seqs [NL; NL; Lit closeField; Star true Space; NL; NL;
               Look true SectionAhead])
        (fun _ => nl ++ nl) content in
  let content :=
    sub (Seqs [Grp 1 (Seqs [Lit closeField; Star true Space; NL; NL]);
               Star true Space; Lit closeField; Star true Space; NL; NL;
               Look true SectionAhead])
        (fun m => group 1 m ++ nl ++ nl) content in
  (* periods of nested field descriptions *)
  sub (Seqs [Grp 1 (Seqs [Lit "<ResponseField"; Star true (NotChr ">");
                          Chr ">"]);
             NL; Grp 2 (Plus false (NotChr "<")); NL; NL;
             Look true (Lit "######")])
      (fun m => group 1 m ++ nl ++ withPeriod (trim (group 2 m)) ++ nl ++ nl)
      content.

End PageRenderer.

(* ================================================================== *)
(** * The scenarios the properties are stated on *)
(* ================================================================== *)

Module Scenario.
Import Js Re Model Utils Components Renderer Theme.

(** The documented configuration: one page per member. *)
Definition memberPages : options :=
  Options "members"
          (Some ["Class"; "Interface"; "Function"; "Enum"; "TypeAlias"])
          ".mdx" "index" false.

Definition plain (name : string) (kind : Z) (children : list declaration)
  : declaration :=
  Decl name kind None children [] None false None.

Definition classFoo : declaration := plain "Foo" KClass [].
Definition interfaceBar : declaration := plain "Bar" KInterface [].

(** A project whose graph holds one class, Foo, and one interface, Bar. *)
Definition projectFooBar : declaration :=
  plain "project" KProject [classFoo; interfaceBar].

(** A renderer with no reference map and no frontmatter description. *)
Definition bareRenderer : renderer := Renderer_ [] None None "/api/index".





(** An enum member without a comment. *)
Definition enumMember (name : string) (value : option string) : declaration :=
  Decl name KEnumMember None [] [] None false value.

Definition enumOf (members : list declaration) : declaration :=
  plain "E" KEnum members.

(** [Promise<User | null>] *)
Definition promiseOfUser : type :=
  Reference "Promise" [Union [Reference "User" []; Intrinsic "null"]].

(** A fenced block whose only line names Foo after a parameter prefix. *)
Definition fencedParameter : string :=
  "```" ++ nl ++ "options: `Foo`" ++ nl ++ "```".

(** A text in which a period follows two hashes. *)
Definition hashesAndPeriods : string := "x##..y".

(** An element left open, then a heading of level 5. *)
Definition openNoteAndDeepHeading : string :=
  "<Note>" ++ nl ++ "##### Details".




(** A response field that holds a heading, its tags matched. *)
Definition fieldWithHeading : string :=
  "<ResponseField name=" ++ dq ++ "retries" ++ dq ++ " type=" ++ dq
  ++ "object" ++ dq ++ ">" ++ nl
  ++ "How often to retry." ++ nl ++ nl
  ++ "###### maxAttempts" ++ nl ++ nl
  ++ "</ResponseField>".

(** An element opened once and closed twice. *)
Definition closedTwice : string :=
  "<Note>" ++ nl ++ "</Note>" ++ nl ++ "</Note>".

(** The reference map of the Foo and Bar graph. *)
Definition mapFooBar : urlMap :=
  [("Foo", "api/classes/Foo"); ("Bar", "api/interfaces/Bar")].


End Scenario.

(* ================================================================== *)
(** * The notions the properties are stated with *)
(* ================================================================== *)

Module Spec.
Import Js Re Model PageRenderer.

(** Whether each line lies in a fenced block, the lines of the fences
    included, when the scan starts inside ([true]) or outside a block. *)
Fixpoint fencedLines (inCodeBlock : bool) (lines : list string) : list bool :=
  match lines with
  | [] => []
  | line :: lines' =>
      if startsWith (trim line) fence then
        true :: fencedLines (negb inCodeBlock) lines'
      else inCodeBlock :: fencedLines inCodeBlock lines'
  end.

(** How the tag scan reads a line. *)
Inductive lineKind : Type :=
| Opening (tagName : string)
| SelfClosing (tagName : string)
| Closing (tagName : string)
| Plain.

Definition kindOf (line : string) : lineKind :=
  match openTagMatch line with
  | Some tagName =>
      if includes line "/>" then SelfClosing tagName else Opening tagName
  | None =>
      match closeTagMatch line with
      | Some tagName => Closing tagName
      | None => Plain
      end
  end.

Definition opens (tagName : string) (line : string) : bool :=
  match kindOf line with
  | Opening t => String.eqb t tagName
  | _ => false
  end.

Definition closes (tagName : string) (line : string) : bool :=
  match kindOf line with
  | Closing t => String.eqb t tagName
  | _ => false
  end.

Definition countIf {A : Type} (p : A -> bool) (l : list A) : nat :=
  List.length (filter p l).

(** Every container element left in the lines has its opening and its
    closing: read as brackets, the opening and closing lines nest
    properly and none is left open. *)
Fixpoint nested (openTags : list string) (lines : list string) : bool :=
  match lines with
  | [] => match openTags with [] => true | _ => false end
  | line :: lines' =>
      match kindOf line with
      | Opening t => nested (t :: openTags) lines'
      | Closing t =>
          match openTags with
          | top :: openTags' => String.eqb top t && nested openTags' lines'
          | [] => false
          end
      | _ => nested openTags lines'
      end
  end.

Definition balanced (content : string) : bool :=
  nested [] (split LF content).

(** A heading of level 5 or deeper: at least five hashes, then a space. *)
Fixpoint hashes (line : string) : nat :=
  match line with
  | String "#" line' => S (hashes line')
  | _ => 0
  end.

Definition deepHeading (line : string) : bool :=
  Nat.leb 5 (hashes line) && startsWith (drop (hashes line) line) " ".

Definition hasDeepHeading (content : string) : bool :=
  existsb deepHeading (split LF content).

(** Every character satisfies the test. *)
Fixpoint allChars (p : ascii -> bool) (s : string) : bool :=
  match s with
  | "" => true
  | String c s' => p c && allChars p s'
  end.

Definition noLineFeed (line : string) : Prop :=
  allChars (fun c => negb (Ascii.eqb c LF)) line = true.

(** The length of the longest prefix whose characters satisfy the test. *)
Fixpoint span (p : ascii -> bool) (s : string) : nat :=
  match s with
  | String a r => if p a then S (span p r) else 0
  | "" => 0
  end.

(** The order in which a greedy quantifier over one character hands
    positions to its continuation: the farthest first. *)
Fixpoint tryDown (k : mstate -> option mstate) (st : mstate) (n : nat)
  : option mstate :=
  match k (advance n st) with
  | Some res => Some res
  | None =>
      match n with
      | O => None
      | S n' => tryDown k st n'
      end
  end.

(** A sub-expression that matches one character satisfying a test. *)
Definition charBody (q : ascii -> bool) (st : mstate)
  (k : mstate -> option mstate) : option mstate :=
  match rest st with
  | String a _ => if q a then k (advance 1 st) else None
  | "" => None
  end.

Definition notNewline (c : ascii) : bool := negb (is_newline c).
Definition isHyphen (c : ascii) : bool := Ascii.eqb c "-".

(** Whether a position is the start of a line for a pattern with the m
    flag, from the character before it. *)
Definition lineStart (p : option ascii) : bool :=
  match p with
  | None => true
  | Some c => is_newline c
  end.

(** The text begins with the hashes, a space and one character of the
    same line. *)
Definition headingStart (h : string) (s : string) : bool :=
  startsWith s (h ++ " ")
  && match drop (String.length h + 1) s with
     | String c _ => notNewline c
     | "" => false
     end.

(** Some line of the text - after a line feed, after a carriage return,
    or first when [bol] holds - begins as a heading of these hashes. *)
Fixpoint hasHeading (h : string) (bol : bool) (s : string) : bool :=
  (bol && headingStart h s)
  || match s with
     | "" => false
     | String c s' => hasHeading h (is_newline c) s'
     end.

(** The characters of a slug. *)
Definition slugChar (c : ascii) : bool :=
  is_lower c || is_digit c || Ascii.eqb c "-".

(** The number of times a tag is on the stack. *)
Definition occ (tagName : string) (tagStack : list string) : nat :=
  countIf (String.eqb tagName) tagStack.

Definition one (b : bool) : nat := if b then 1 else 0.

Definition nonSlug (c : ascii) : bool := negb (Utils.is_slug_char c).

(** The end-of-text test as a continuation. *)
Definition atEnd (st : mstate) : option mstate :=
  run (Eol false) st (fun st' => Some st').

End Spec.

(* ================================================================== *)
(** * Splitting on a regular expression *)
(* ================================================================== *)

Module ReSplit.
Import Js Re.

(** [s.split(r)] for a separator without capture groups, by the steps of
    the ECMAScript algorithm: [piece] is the text since the last split
    point, [s] the text from the scanning position on.  A match that
    ends at the last split point is passed over. *)
Fixpoint split_from (fuel : nat) (r : regex) (piece : string)
  (p : option ascii) (s : string) {struct fuel} : list string :=
  match fuel with
  | O => [piece ++ s]
  | S fuel' =>
      match s with
      | "" => [piece]
      | String c s' =>
          let move := split_from fuel' r (piece ++ String c "") (Some c) s' in
          match exec_at r p s with
          | Some m =>
              match matched m, piece with
              | "", "" => move
              | _, _ =>
                  piece
                  :: split_from fuel' r "" (prev (after m)) (rest (after m))
              end
          | None => move
          end
      end
  end.

Definition splitRe (r : regex) (s : string) : list string :=
  match s with
  | "" => match exec_at r None "" with Some _ => [] | None => [""] end
  | _ => split_from (2 * String.length s + 1) r "" None s
  end.

End ReSplit.

(* ================================================================== *)
(** * utils.ts: the other helpers *)
(* ================================================================== *)

Module UtilsRest.
Import Js Re Model Utils ReSplit.

(** The value a table of kinds holds for a kind. *)
Fixpoint kindEntry {A : Type} (table : list (Z * A)) (kind : Z) : option A :=
  match table with
  | [] => None
  | (k, v) :: table' => if Z.eqb k kind then Some v else kindEntry table' kind
  end.

Definition kindMap : list (Z * string) :=
  [(1, "Project"); (2, "Module"); (4, "Namespace"); (8, "Enum");
   (16, "Enum Member"); (32, "Variable"); (64, "Function"); (128, "Class");
   (256, "Interface"); (512, "Constructor"); (1024, "Property");
   (2048, "Method"); (4096, "Call Signature"); (8192, "Index Signature");
   (16384, "Constructor Signature"); (32768, "Parameter");
   (65536, "Type Literal"); (131072, "Type Parameter"); (262144, "Accessor");
   (524288, "Get Signature"); (1048576, "Set Signature");
   (2097152, "Type Alias"); (4194304, "Reference")]%Z.

(** [getKindLabel] *)
Definition getKindLabel (kind : Z) : string :=
  match kindEntry kindMap kind with
  | Some label => orElse label "Unknown"
  | None => "Unknown"
  end.

Definition iconMap : list (Z * string) :=
  [(2, "folder"); (4, "folder-tree"); (8, "list"); (64, "function");
   (128, "cube"); (256, "shapes"); (2097152, "tag")]%Z.

(** [getIconForKind] *)
Definition getIconForKind (kind : Z) : string :=
  match kindEntry iconMap kind with
  | Some icon => orElse icon "file"
  | None => "file"
  end.

(** [Record<string, Reflection[]>]: the keys in the order they were
    first written. *)
Definition groups : Type := list (string * list declaration).

Fixpoint group_get (g : groups) (kind : string) : option (list declaration) :=
  match g with
  | [] => None
  | (k, rs) :: g' => if String.eqb k kind then Some rs else group_get g' kind
  end.

(** [if (!groups[kind]) groups[kind] = []; groups[kind].push(reflection)] *)
Fixpoint group_push (g : groups) (kind : string) (reflection : declaration)
  : groups :=
  match g with
  | [] => [(kind, [reflection])]
  | (k, rs) :: g' =>
      if String.eqb k kind then (k, (rs ++ [reflection])%list) :: g'
      else (k, rs) :: group_push g' kind reflection
  end.

(** [groupByKind] *)
Definition groupByKind (reflections : list declaration) : groups :=
  fold_left
    (fun g reflection =>
       group_push g (getKindLabel (d_kind reflection)) reflection)
    reflections [].

(** [tag.content?.[0]?.text || ''] *)
Definition firstText (content : list commentPart) : string :=
  match content with
  | part :: _ => part_text part
  | [] => ""
  end.

(** [extractExamples] *)
Definition extractExamples (c : option comment) : list Renderer.example :=
  match c with
  | None => []
  | Some c' =>
      fold_left
        (fun examples t =>
           if String.eqb (tag t) "@example" then
             let content := firstText (Model.content t) in
             let found :=
               map (fun m =>
                      Renderer.Example_ (orElse (group 1 m) "typescript")
                                        (trim (group 2 m)))
                   (matchAll Renderer.re_code_block content) in
             let examples := (examples ++ found)%list in
             match examples, trim content with
             | [], String _ _ =>
                 [Renderer.Example_ "typescript" (trim content)]
             | _, _ => examples
             end
           else examples)
        (blockTags c') []
  end.

(** What a call returns or raises. *)
Inductive outcome : Type :=
| Returned (value : string)
| RangeError.

(** [path.split('/').filter(Boolean)] *)
Definition pathParts (path : string) : list string :=
  filter nonEmpty (split "/" path).

(** The index at which the [while] loop of [relativePath] stops. *)
Fixpoint commonLength (fromParts toParts : list string) : nat :=
  match fromParts, toParts with
  | a :: fromParts', b :: toParts' =>
      if String.eqb a b then S (commonLength fromParts' toParts') else 0
  | _, _ => 0
  end.

(** [s.repeat(n)] for a count that is not negative. *)
Fixpoint repeat_string (s : string) (n : nat) : string :=
  match n with
  | O => ""
  | S n' => s ++ repeat_string s n'
  end.

(** [relativePath]: [upLevels] is [fromParts.length - i - 1], and
    [repeat] raises on the negative count reached when the loop has run
    through all of [fromParts]. *)
Definition relativePath (from to : string) : outcome :=
  let fromParts := pathParts from in
  let toParts := pathParts to in
  let i := commonLength fromParts toParts in
  if Nat.ltb i (List.length fromParts) then
    let upLevels := List.length fromParts - i - 1 in
    let upPath := repeat_string "../" upLevels in
    let downPath := join "/" (skipn i toParts) in
    Returned (orElse (upPath ++ downPath) "./")
  else RangeError.

(** The state of the loop of [wrapText]. *)
Record wrapState : Type := WrapState {
  wrap_lines : list string;
  wrap_currentLine : list string;
  wrap_currentLength : nat
}.

Definition isEmpty {A : Type} (l : list A) : bool :=
  match l with [] => true | _ => false end.

(** One turn of the loop of [wrapText], for an integer width. *)
Definition wrapStep (width : Z) (st : wrapState) (word : string)
  : wrapState :=
  if Z.ltb width
       (Z.of_nat (wrap_currentLength st + String.length word + 1))
     && negb (isEmpty (wrap_currentLine st))
  then
    WrapState (wrap_lines st ++ [join " " (wrap_currentLine st)])%list
              [word] (String.length word)
  else
    let currentLine := (wrap_currentLine st ++ [word])%list in
    WrapState (wrap_lines st) currentLine
              (wrap_currentLength st + String.length word
               + (if Nat.ltb 1 (List.length currentLine) then 1 else 0)).

(** The array [lines] of [wrapText] when the loop over [words] is over
    and the last line has been pushed. *)
Definition wrapWords (width : Z) (words : list string) : list string :=
  let st := fold_left (wrapStep width) words (WrapState [] [] 0) in
  if isEmpty (wrap_currentLine st) then wrap_lines st
  else (wrap_lines st ++ [join " " (wrap_currentLine st)])%list.

(** [text.split(/\s+/)] *)
Definition wordsOf (text : string) : list string :=
  splitRe (Plus true Space) text.

(** [wrapText] *)
Definition wrapText (text : string) (width : Z) : string :=
  match text with
  | "" => ""
  | _ => join nl (wrapWords width (wordsOf text))
  end.

End UtilsRest.

(* ================================================================== *)
(** * components.ts: the other generators *)
(* ================================================================== *)

Module ComponentsRest.
Import Js Components.

(** [type.charAt(0).toUpperCase() + type.slice(1)] *)
Definition capitalized (type : string) : string :=
  match type with
  | "" => ""
  | String c rest => String (upper_char c) rest
  end.

(** [callout(type, content, title = '')] *)
Definition callout (type content title : string) : string :=
  "<" ++ capitalized type ++ titleAttr title ++ ">" ++ nl
  ++ content ++ nl
  ++ "</" ++ capitalized type ++ ">".

(** [check(content, title = '')] *)
Definition check (content title : string) : string :=
  "<Check" ++ titleAttr title ++ ">" ++ nl ++ content ++ nl ++ "</Check>".

(** [paramField(name, type, required = false, description = '')] *)
Definition paramField (name type : string) (required : bool)
  (description : string) : string :=
  "<ParamField path=" ++ dq ++ name ++ dq ++ " type=" ++ dq ++ type ++ dq
  ++ (if required then " required" else "") ++ ">" ++ nl
  ++ description ++ nl
  ++ "</ParamField>".

(** [responseField(name, type, description = '')] *)
Definition responseField (name type description : string) : string :=
  "<ResponseField name=" ++ dq ++ name ++ dq ++ " type=" ++ dq ++ type ++ dq
  ++ ">" ++ nl
  ++ description ++ nl
  ++ "</ResponseField>".

(** [card(title, icon = '', href = '')] *)
Definition card (title icon href : string) : string :=
  let iconAttr :=
    match icon with "" => "" | _ => " icon=" ++ dq ++ icon ++ dq end in
  let hrefAttr :=
    match href with "" => "" | _ => " href=" ++ dq ++ href ++ dq end in
  "<Card title=" ++ dq ++ title ++ dq ++ iconAttr ++ hrefAttr ++ " />".

(** [tabs(tabs)] *)
Definition tabs (tabs : list section) : string :=
  let tabComponents :=
    join nl
      (map (fun tab =>
              "  <Tab title=" ++ dq ++ title tab ++ dq ++ ">" ++ nl
              ++ join nl (map (fun line => "    " ++ line)
                              (split LF (content tab)))
              ++ nl ++ "  </Tab>")
           tabs) in
  "<Tabs>" ++ nl ++ tabComponents ++ nl ++ "</Tabs>".

End ComponentsRest.

(* ================================================================== *)
(** * reflection-renderer.ts: frontmatter and back links *)
(* ================================================================== *)

Module RendererRest.
Import Js Re Model Utils Components Renderer.

(** [getKindString] *)
Definition getKindString (kind : Z) : string :=
  if Z.eqb kind 128 then "Class"
  else if Z.eqb kind 256 then "Interface"
  else if Z.eqb kind 64 then "Function"
  else if Z.eqb kind 8 then "Enum"
  else if Z.eqb kind 2097152 then "Type Alias"
  else "Unknown".

(** [getPluralName] *)
Definition getPluralName (name : string) : string :=
  let lower := toLowerCase name in
  if endsWith lower "y" then dropLast lower ++ "ies"
  else if endsWith lower "s" || endsWith lower "x" || endsWith lower "z"
  then lower ++ "es"
  else lower ++ "s".

(** [lower.replace(/^verb/, '')] *)
Definition withoutVerb (verb lower : string) : string :=
  replaceFirst (Seq (Bol false) (Lit verb)) (fun _ => "") lower.

(** [getActionFromName] *)
Definition getActionFromName (name : string) : string :=
  let lower := toLowerCase name in
  if startsWith lower "get" then
    "retrieve " ++ toLowerCase (withoutVerb "get" lower)
  else if startsWith lower "create" then
    "create " ++ toLowerCase (withoutVerb "create" lower)
  else if startsWith lower "update" then
    "update " ++ toLowerCase (withoutVerb "update" lower)
  else if startsWith lower "delete" then
    "delete " ++ toLowerCase (withoutVerb "delete" lower)
  else if startsWith lower "fetch" then
    "fetch " ++ toLowerCase (withoutVerb "fetch" lower)
  else
    trim (toLowerCase
            (replaceAll (Grp 1 Upper) (fun m => " " ++ group 1 m) lower)).

(** The description [renderFrontmatter] starts from: the text parts of
    the summary, joined and trimmed. *)
Definition summaryText (reflection : declaration) : string :=
  match d_comment reflection with
  | Some c => trim (join "" (map part_text (summary c)))
  | None => ""
  end.

(** The description generated for a reflection without summary. *)
Definition defaultDescription (reflection : declaration) (title : string)
  : string :=
  let kindString := getKindString (d_kind reflection) in
  if String.eqb kindString "Class" then
    "Use the " ++ title ++ " class to manage " ++ getPluralName title ++ "."
  else if String.eqb kindString "Interface" then
    "The " ++ title ++ " interface defines the structure for "
    ++ getPluralName title ++ "."
  else if String.eqb kindString "Function" then
    "Call " ++ title ++ " to " ++ getActionFromName title ++ "."
  else if String.eqb kindString "Enum" then
    "Use " ++ title ++ " to specify " ++ getPluralName title ++ "."
  else "Documentation for " ++ title ++ ".".

(** The description as it is written between the quotes of the
    frontmatter: a period added when missing, double quotes escaped,
    line feeds turned into spaces, and the whole trimmed. *)
Definition safeDescription (reflection : declaration) : string :=
  let title := orElse (d_name reflection) "Documentation" in
  let description := summaryText reflection in
  let description :=
    match description with
    | "" => defaultDescription reflection title
    | _ => description
    end in
  let description :=
    if nonEmpty description && negb (endsWith description ".")
    then description ++ "." else description in
  trim (replaceAll (Chr LF) (fun _ => " ")
          (replaceAll (Chr DQ) (fun _ => String BSL dq) description)).

(** [renderFrontmatter] *)
Definition renderFrontmatter (reflection : declaration) : string :=
  let title := orElse (d_name reflection) "Documentation" in
  "---" ++ nl
  ++ "title: " ++ dq ++ title ++ dq ++ nl
  ++ "description: " ++ dq ++ safeDescription reflection ++ dq ++ nl
  ++ "---" ++ nl ++ nl.

(** [renderEnumMember] *)
Definition renderEnumMember (member : declaration) : string :=
  let name := d_name member in
  let value :=
    orElse (match d_defaultValue member with Some v => v | None => "" end)
           name in
  let description := extractCommentText (summaryOf (d_comment member)) in
  "**Value:** `" ++ value ++ "`"
  ++ match description with
     | "" => ""
     | _ => nl ++ nl ++ description
     end.

Definition arrow : string := "←".

(** The first module, class or interface met when walking up the parent
    chain, which is given from the nearest parent on. *)
Fixpoint backLinkParent (parents : list declaration) : option declaration :=
  match parents with
  | [] => None
  | parent :: up =>
      if Z.eqb (d_kind parent) 2 || Z.eqb (d_kind parent) 128
         || Z.eqb (d_kind parent) 256
      then Some parent
      else backLinkParent up
  end.

(** [renderBackLink], for a reflection whose parent chain is [parents]. *)
Definition renderBackLink (this : renderer) (parents : list declaration)
  : string :=
  let parent := backLinkParent parents in
  let parentUrl :=
    match parent with
    | Some p =>
        if Z.eqb (d_kind p) 2 then indexPageUrl this
        else
          match map_get (typeToUrlMap this) (d_name p) with
          | Some (String _ _ as url) => "/" ++ url
          | _ => ""
          end
    | None => ""
    end in
  let parentUrl := orElse parentUrl (indexPageUrl this) in
  let linkText :=
    match parent with
    | Some p =>
        if Z.eqb (d_kind p) 128 || Z.eqb (d_kind p) 256
        then arrow ++ " Back to " ++ d_name p
        else arrow ++ " Back to API Reference"
    | None => arrow ++ " Back to API Reference"
    end in
  "[" ++ linkText ++ "](" ++ parentUrl ++ ")" ++ nl ++ nl.

End RendererRest.

(* ================================================================== *)
(** * theme.ts: the links of the index page *)
(* ================================================================== *)

Module ThemeRest.
Import Js Re Model Utils Renderer Theme.

(** [findParentReflection], on the parent chain from the nearest parent. *)
Fixpoint findParentReflection (parents : list declaration)
  : option declaration :=
  match parents with
  | [] => None
  | current :: up =>
      if Z.eqb (d_kind current) 2 || Z.eqb (d_kind current) 128
      then Some current
      else findParentReflection up
  end.

(** [getLinkForReflection], for a reflection whose parent chain is
    [parents]. *)
Definition getLinkForReflection (typeToUrlMap : urlMap)
  (parents : list declaration) (reflection : declaration) : string :=
  match map_get typeToUrlMap (d_name reflection) with
  | Some (String _ _ as url) => "/" ++ url
  | _ =>
      let fallback := "#" ++ toLowerCase (d_name reflection) in
      match findParentReflection parents with
      | Some parent =>
          match map_get typeToUrlMap (d_name parent) with
          | Some (String _ _ as parentUrl) =>
              let anchor :=
                replaceAll re_non_slug (fun _ => "-")
                           (toLowerCase (d_name reflection)) in
              "/" ++ parentUrl ++ "#" ++ anchor
          | _ => fallback
          end
      | None => fallback
      end
  end.

(** [extractDescription] *)
Definition plainText (c : option comment) : string :=
  match c with
  | Some c' => trim (join "" (map part_text (summary c')))
  | None => ""
  end.

Definition extractDescription (reflection : declaration) : string :=
  let fromSignature :=
    if Z.eqb (d_kind reflection) 64 then
      match d_signatures reflection with
      | sig :: _ => plainText (s_comment sig)
      | [] => ""
      end
    else "" in
  orElse fromSignature (plainText (d_comment reflection)).

End ThemeRest.

(* ================================================================== *)
(** * navigation.ts: the navigation groups *)
(* ================================================================== *)

Module NavigationRest.
Import Js Re Model Navigation.

Record navigationGroup : Type := NavigationGroup {
  nav_group : string;
  nav_pages : list string
}.

(** [getModulePath] *)
Definition getModulePath (module : declaration) : string :=
  let slug := slugify (d_name module) in
  if String.eqb slug "index" || String.eqb slug "readme" then "api/index"
  else "modules/" ++ slug.

Section BuildNavigation.

(** The [kindString] of a child of the project, when it has one. *)
Variable kindString : declaration -> option string.

Definition hasKindString (label : string) (child : declaration) : bool :=
  match kindString child with
  | Some k => String.eqb k label
  | None => false
  end.

(** [nav.push({ group, pages })] when [pages] is not empty. *)
Definition pushGroup (nav : list navigationGroup) (group : string)
  (pages : list string) : list navigationGroup :=
  match pages with
  | [] => nav
  | _ => (nav ++ [NavigationGroup group pages])%list
  end.

(** [buildNavigation] *)
Definition buildNavigation (project : declaration) : list navigationGroup :=
  let nav := [NavigationGroup "Getting Started" ["introduction"]] in
  match d_children project with
  | [] => nav
  | children =>
      let pagesOf label path :=
        map path (filter (hasKindString label) children) in
      let nav := pushGroup nav "Modules" (pagesOf "Module" getModulePath) in
      let nav := pushGroup nav "Classes" (pagesOf "Class" getClassPath) in
      let nav :=
        pushGroup nav "Interfaces" (pagesOf "Interface" getInterfacePath) in
      let nav :=
        pushGroup nav "Functions" (pagesOf "Function" getFunctionPath) in
      pushGroup nav "Types" (pagesOf "Type alias" getTypePath)
  end.

End BuildNavigation.

End NavigationRest.

(* ================================================================== *)
(** * The notions of the further properties *)
(* ================================================================== *)

Module SpecRest.
Import Js Re Model Spec.

(** The text in which every character is replaced by a text. *)
Fixpoint expand (f : ascii -> string) (s : string) : string :=
  match s with
  | "" => ""
  | String c s' => f c ++ expand f s'
  end.

(** The characters [escapeMdx] escapes. *)
Definition mdxSpecial (c : ascii) : bool :=
  Ascii.eqb c "{" || Ascii.eqb c "}" || Ascii.eqb c "<" || Ascii.eqb c ">".

(** Every character satisfying [q] comes right after a backslash. *)
Fixpoint guardedFrom (q : ascii -> bool) (afterBackslash : bool) (s : string)
  : bool :=
  match s with
  | "" => true
  | String c s' =>
      (negb (q c) || afterBackslash) && guardedFrom q (Ascii.eqb c BSL) s'
  end.

Definition guarded (q : ascii -> bool) (s : string) : bool :=
  guardedFrom q false s.

(** The text without the backslash that comes right before a character
    satisfying [q]. *)
Fixpoint unescape (q : ascii -> bool) (s : string) : string :=
  match s with
  | "" => ""
  | String c s' =>
      match s' with
      | String d _ =>
          if Ascii.eqb c BSL && q d then unescape q s'
          else String c (unescape q s')
      | "" => String c ""
      end
  end.

(** The character does not occur in the text. *)
Definition lacks (c : ascii) (s : string) : bool :=
  allChars (fun a => negb (Ascii.eqb a c)) s.

(** The first list is the beginning of the second. *)
Fixpoint isPrefixOf (a b : list string) : bool :=
  match a, b with
  | [], _ => true
  | x :: a', y :: b' => String.eqb x y && isPrefixOf a' b'
  | _ :: _, [] => false
  end.

(** A line of wrapped text is well formed for a width: it holds a word,
    and more than one only within the width. *)
Definition fitsWidth (width : Z) (words : list string) : Prop :=
  words <> []
  /\ (List.length words = 1
      \/ (Z.of_nat (String.length (join " " words)) <= width)%Z).

(** What the loop of [wrapText] keeps true after the words [done]: the
    closed lines are groups of words that fit, the open line is empty or
    fits, and the length kept beside it is its length. *)
Definition wrapInvariant (width : Z) (st : UtilsRest.wrapState)
  (done : list string) : Prop :=
  exists groups : list (list string),
    UtilsRest.wrap_lines st = map (join " ") groups
    /\ Forall (fitsWidth width) groups
    /\ (concat groups ++ UtilsRest.wrap_currentLine st)%list = done
    /\ UtilsRest.wrap_currentLength st
       = String.length (join " " (UtilsRest.wrap_currentLine st))
    /\ (UtilsRest.wrap_currentLine st = []
        \/ fitsWidth width (UtilsRest.wrap_currentLine st)).

(** Every character is a lower-case letter, a digit, or a hyphen that
    no hyphen follows. *)
Fixpoint singleHyphens (s : string) : bool :=
  match s with
  | "" => true
  | String c s' =>
      (Utils.is_slug_char c
       || (Ascii.eqb c "-" && negb (startsWith s' "-")))
      && singleHyphens s'
  end.

(** What [flattenHeadings] makes of a line, for one level of heading
    and for both. *)
Definition demoteLine (h line : string) : string :=
  if headingStart h line
  then "**" ++ drop (String.length h + 1) line ++ "**"
  else line.

Definition flattenLine (line : string) : string :=
  demoteLine "######" (demoteLine "#####" line).

(** The text after the first of the lines [line :: lines]. *)
Definition lineTail (lines : list string) : string :=
  match lines with
  | [] => ""
  | _ => String LF (join nl lines)
  end.

(** The first list is made of elements of the second, in their
    order. *)
Fixpoint isSubsequence (a b : list string) : bool :=
  match a, b with
  | [], _ => true
  | _ :: _, [] => false
  | x :: a', y :: b' =>
      if String.eqb x y then isSubsequence a' b' else isSubsequence a b'
  end.

(** The line is read by the tag scan as the closing tag of an element
    other than CodeGroup. *)
Definition closesOther (line : string) : bool :=
  match kindOf line with
  | Closing tagName => negb (String.eqb tagName "CodeGroup")
  | _ => false
  end.

(** The name of the index file, from the options. *)
Definition indexUrlOf (opts : Theme.options) : string :=
  orElse (Theme.entryFileName opts) "index"
  ++ orElse (Theme.fileExtension opts) ".mdx".

(** The reflections [getUrls] gives a file to, in the order of its
    traversal. *)
Definition documentedReflections (opts : Theme.options)
  (project : declaration) : list declaration :=
  flat_map (Theme.visitReflection opts) (d_children project).

(** The last reflection of the list that bears the name. *)
Definition lastNamed (name : string) (reflections : list declaration)
  : option declaration :=
  find (fun r => String.eqb (d_name r) name) (List.rev reflections).

(** No text is longer than the one before it. *)
Fixpoint descending (l : list string) : bool :=
  match l with
  | x :: (y :: _) as rest =>
      Nat.leb (String.length y) (String.length x) && descending rest
  | _ => true
  end.

(** Whether every text a regular expression matches holds the
    character: a sufficient test on the syntax. *)
Fixpoint needs (c : ascii) (r : regex) : bool :=
  match r with
  | Chr a => Ascii.eqb a c
  | Seq r1 r2 => needs c r1 || needs c r2
  | Alt r1 r2 => needs c r1 && needs c r2
  | Grp _ r1 => needs c r1
  | _ => false
  end.

(** The texts of a list that have a given length, in their order. *)
Definition ofLength (n : nat) (l : list string) : list string :=
  filter (fun x => Nat.eqb (String.length x) n) l.

(** The pages of a navigation, group after group. *)
Definition pagesOfNavigation (nav : list NavigationRest.navigationGroup)
  : list string :=
  concat (map NavigationRest.nav_pages nav).

(** The order in which the navigation lists its groups. *)
Definition groupOrder : list string :=
  ["Getting Started"; "Modules"; "Classes"; "Interfaces"; "Functions";
   "Types"].

(** A character of a page path: a character of a slug, or a slash. *)
Definition pathChar (c : ascii) : bool := slugChar c || Ascii.eqb c "/".

(** The names of the references [formatType] meets in a type
    expression, in the order of its calls. *)
Fixpoint referenceNames (t : type) {struct t} : list string :=
  let namesOpt (o : option type) : list string :=
    match o with None => [] | Some t' => referenceNames t' end in
  let namesAll :=
    fix namesAll (l : list type) : list string :=
      match l with
      | [] => []
      | t' :: l' => (referenceNames t' ++ namesAll l')%list
      end in
  match t with
  | Reference name typeArguments => name :: namesAll typeArguments
  | ArrayT elementType => referenceNames elementType
  | Union types | Intersection types | Tuple types => namesAll types
  | ReflectionT (Some reflection) =>
      match d_signatures reflection with
      | sig :: _ =>
          ((fix each (l : list param) : list string :=
              match l with
              | [] => []
              | p :: l' => (namesOpt (p_type p) ++ each l')%list
              end) (s_parameters sig)
           ++ namesOpt (s_type sig))%list
      | [] =>
          (fix each (l : list declaration) : list string :=
             match l with
             | [] => []
             | child :: l' => (namesOpt (d_type child) ++ each l')%list
             end) (d_children reflection)
      end
  | Conditional c e a b =>
      (referenceNames c ++ referenceNames e
       ++ referenceNames a ++ referenceNames b)%list
  | IndexedAccess o i => (referenceNames o ++ referenceNames i)%list
  | _ => []
  end.

Definition referenceNamesOpt (o : option type) : list string :=
  match o with None => [] | Some t => referenceNames t end.

(** The name has no entry in the map. *)
Definition unknownTo (m : urlMap) (name : string) : bool :=
  negb (map_has m name).

(** The lower-cased name holds one of the words both description
    generators look for. *)
Definition commonKeyword (nameLower : string) : bool :=
  includes nameLower "id"
  || includes nameLower "url" || includes nameLower "endpoint"
  || includes nameLower "key" || includes nameLower "token"
  || includes nameLower "auth"
  || includes nameLower "options" || includes nameLower "config"
  || includes nameLower "data" || includes nameLower "body"
  || includes nameLower "payload"
  || includes nameLower "limit"
  || includes nameLower "offset" || includes nameLower "skip"
  || includes nameLower "timeout".

(** The lower-cased name holds one of the words only the generator of
    the page renderer looks for. *)
Definition pageKeyword (nameLower : string) : bool :=
  includes nameLower "retry"
  || includes nameLower "headers"
  || includes nameLower "message" || includes nameLower "msg"
  || includes nameLower "type"
  || includes nameLower "status".

(** The literal values [formatType] hands to [JSON.stringify] in a type
    expression, in the order of its calls. *)
Fixpoint literalsOf (t : type) {struct t} : list literal :=
  let literalsOpt (o : option type) : list literal :=
    match o with None => [] | Some t' => literalsOf t' end in
  let literalsAll :=
    fix literalsAll (l : list type) : list literal :=
      match l with
      | [] => []
      | t' :: l' => (literalsOf t' ++ literalsAll l')%list
      end in
  match t with
  | Literal value => [value]
  | Reference _ typeArguments => literalsAll typeArguments
  | ArrayT elementType => literalsOf elementType
  | Union types | Intersection types | Tuple types => literalsAll types
  | ReflectionT (Some reflection) =>
      match d_signatures reflection with
      | sig :: _ =>
          ((fix each (l : list param) : list literal :=
              match l with
              | [] => []
              | p :: l' => (literalsOpt (p_type p) ++ each l')%list
              end) (s_parameters sig)
           ++ literalsOpt (s_type sig))%list
      | [] =>
          (fix each (l : list declaration) : list literal :=
             match l with
             | [] => []
             | child :: l' => (literalsOpt (d_type child) ++ each l')%list
             end) (d_children reflection)
      end
  | Conditional c e a b =>
      (literalsOf c ++ literalsOf e ++ literalsOf a ++ literalsOf b)%list
  | IndexedAccess o i => (literalsOf o ++ literalsOf i)%list
  | _ => []
  end.

Definition literalsOpt (o : option type) : list literal :=
  match o with None => [] | Some t => literalsOf t end.

Definition isBigInt (value : literal) : bool :=
  match value with LBigInt _ => true | _ => false end.

End SpecRest.

(* ================================================================== *)
(** * Properties *)
(* ================================================================== *)

Import Js Re Model Utils Components Renderer Theme Scenario Spec.

(** ** Strings *)

Lemma append_assoc (a b c : string) : (a ++ b) ++ c = a ++ b ++ c.
Proof. induction a as [| x a IH]; simpl; [reflexivity | now rewrite IH]. Qed.

Lemma append_nil_r (a : string) : a ++ "" = a.
Proof. induction a as [| x a IH]; simpl; [reflexivity | now rewrite IH]. Qed.

Lemma length_append (a b : string) :
  String.length (a ++ b) = String.length a + String.length b.
Proof. induction a as [| x a IH]; simpl; [reflexivity | now rewrite IH]. Qed.

(** ** Parameter classification *)

(** C5. The location classifier puts [userId] in the path, [limit] in
    the query, [authorization] in the header and [payload] in the body;
    the classifier of the reflection renderer and the one of the text
    pipeline agree on these names. *)
Theorem parameter_location_examples :
  determineParameterLocation "userId" = "path"
  /\ determineParameterLocation "limit" = "query"
  /\ determineParameterLocation "authorization" = "header"
  /\ determineParameterLocation "payload" = "body"
  /\ PageRenderer.parameterLocation "userId" = "path"
  /\ PageRenderer.parameterLocation "limit" = "query"
  /\ PageRenderer.parameterLocation "authorization" = "header"
  /\ PageRenderer.parameterLocation "payload" = "body".
Proof. repeat split; reflexivity. Qed.

(** ** The enum table *)

Lemma renderEnum_members (this : renderer) (m1 m2 : declaration) :
  d_kind m1 = KEnumMember -> d_kind m2 = KEnumMember ->
  renderEnum this (enumOf [m1; m2]) =
  renderToc ["Members"] ++ "### Members" ++ nl ++ nl
  ++ "| Name | Value | Description |" ++ nl
  ++ "|------|-------|-------------|" ++ nl
  ++ renderEnumRow m1 ++ renderEnumRow m2 ++ nl.
Proof.
  intros H1 H2. unfold renderEnum, enumOf, plain, ofKind. simpl d_children.
  simpl filter. rewrite H1, H2, Z.eqb_refl.
  unfold renderSummary. simpl d_comment. cbv iota.
  change (join "" (map renderEnumRow [m1; m2]))
    with (renderEnumRow m1 ++ "" ++ renderEnumRow m2).
  simpl. now rewrite append_assoc.
Qed.

(** C7. An enum whose two members A and B carry no description renders
    the members table with its two header lines and exactly two member
    rows, one for A and one for B, each with the em-dash, spelled out
    here, in its description cell; whatever the renderer's state and
    however the values are recorded. *)
Theorem renderEnum_two_members_em_dash :
  forall (this : renderer) (valueA valueB : option string),
    renderEnum this (enumOf [enumMember "A" valueA; enumMember "B" valueB]) =
    "<Toc>" ++ nl ++ "- [Members](#members)" ++ nl ++ "</Toc>" ++ nl ++ nl
    ++ "### Members" ++ nl ++ nl
    ++ "| Name | Value | Description |" ++ nl
    ++ "|------|-------|-------------|" ++ nl
    ++ "| `A` | `"
       ++ orElse (match valueA with Some v => v | None => "" end) "A"
       ++ "` | — |" ++ nl
    ++ "| `B` | `"
       ++ orElse (match valueB with Some v => v | None => "" end) "B"
       ++ "` | — |" ++ nl
    ++ nl.
Proof.
  intros this valueA valueB.
  rewrite renderEnum_members by reflexivity.
  unfold renderEnumRow, enumMember. simpl.
  now repeat rewrite append_assoc.
Qed.

(** The same table with the values written as string literals. *)
Example renderEnum_A_B :
  renderEnum bareRenderer
    (enumOf [enumMember "A" (Some (dq ++ "A" ++ dq));
             enumMember "B" (Some (dq ++ "B" ++ dq))]) =
  "<Toc>" ++ nl ++ "- [Members](#members)" ++ nl ++ "</Toc>" ++ nl ++ nl
  ++ "### Members" ++ nl ++ nl
  ++ "| Name | Value | Description |" ++ nl
  ++ "|------|-------|-------------|" ++ nl
  ++ "| `A` | `" ++ dq ++ "A" ++ dq ++ "` | — |" ++ nl
  ++ "| `B` | `" ++ dq ++ "B" ++ dq ++ "` | — |" ++ nl
  ++ nl.
Proof. reflexivity. Qed.

(** ** The disclosure threshold *)

Lemma renderClass_blocks (this : renderer) (reflection : declaration) :
  renderClass this reflection =
  renderSummary this reflection
  ++ renderComments (d_comment reflection)
  ++ renderToc
       (tocItem "Constructor" (ofKind KConstructor reflection)
        ++ tocItem "Properties" (ofKind KProperty reflection)
        ++ tocItem "Methods" (ofKind KMethod reflection))%list
  ++ renderClassConstructors this (ofKind KConstructor reflection)
  ++ renderClassProperties this (ofKind KProperty reflection)
  ++ renderClassMethods this (ofKind KMethod reflection).
Proof. reflexivity. Qed.


(** ** The reference map *)

(** C1, as stated, fails: the map built for that graph does not send Foo
    to [classes/foo] and Bar to [interfaces/bar]. *)
Lemma getUrls_reference_map_not_slugified :
  ~ (map_get (snd (getUrls memberPages [] [] projectFooBar)) "Foo"
       = Some "classes/foo"
     /\ map_get (snd (getUrls memberPages [] [] projectFooBar)) "Bar"
       = Some "interfaces/bar").
Proof. vm_compute. intros [H _]. discriminate H. Qed.

(** The slugified paths are those of the navigation manifest. *)
Example navigation_paths_Foo_Bar :
  Navigation.getClassPath classFoo = "classes/foo"
  /\ Navigation.getInterfacePath interfaceBar = "interfaces/bar".
Proof. split; reflexivity. Qed.

(** ** The type formatter *)

Lemma mapCounted_all {X Y : Type} (f : X -> counted Y) (g : X -> completion Y)
  (l : list X) :
  (forall a, In a l -> f a = Some (g a)) ->
  mapCounted f l = Some (mapThrowing g l).
Proof.
  induction l as [| a l IH]; intros H; [reflexivity |].
  change (mapCounted f (a :: l))
    with (thenCounted (f a) (fun y =>
          thenCounted (mapCounted f l) (fun ys => Some (Normal (y :: ys))))).
  change (mapThrowing g (a :: l))
    with (andThen (g a) (fun y =>
          andThen (mapThrowing g l) (fun ys => Normal (y :: ys)))).
  rewrite (H a (or_introl eq_refl)), IH.
  - destruct (g a); [| reflexivity].
    now destruct (mapThrowing g l).
  - intros b Hb. apply H. now right.
Qed.

Lemma maxOf_in {A : Type} (f : A -> nat) (l : list A) (a : A) :
  In a l -> f a <= maxOf f l.
Proof.
  induction l as [| b l IH]; simpl; [tauto |].
  intros [-> | H]; [apply Nat.le_max_l |].
  etransitivity; [apply (IH H) | apply Nat.le_max_r].
Qed.

Section FormatEquations.

Variable m : option urlMap.

Let memberText (name : string) (isOptional : bool) (t : option type)
  : completion string :=
  andThen (formatType m t) (fun s =>
    Normal (name ++ optionalMark isOptional ++ ": " ++ s)).

Lemma formatNode_Reference name args :
  formatNode m (Reference name args) =
  match args with
  | [] => Normal (linkName m name)
  | _ =>
      andThen (mapThrowing (formatNode m) args) (fun ss =>
        Normal (linkName m name ++ "<" ++ join ", " ss ++ ">"))
  end.
Proof.
  destruct args; reflexivity.
Qed.

Lemma formatNode_Union l :
  formatNode m (Union l) =
  andThen (mapThrowing (formatNode m) l) (fun ss => Normal (join " | " ss)).
Proof. reflexivity. Qed.

Lemma formatNode_Intersection l :
  formatNode m (Intersection l) =
  andThen (mapThrowing (formatNode m) l) (fun ss => Normal (join " & " ss)).
Proof. reflexivity. Qed.

Lemma formatNode_Tuple l :
  formatNode m (Tuple l) =
  andThen (mapThrowing (formatNode m) l) (fun ss =>
    Normal ("[" ++ join ", " ss ++ "]")).
Proof. reflexivity. Qed.

Lemma formatNode_Reflection d :
  formatNode m (ReflectionT (Some d)) =
  match d_signatures d with
  | sig :: _ =>
      andThen
        (mapThrowing
           (fun p => memberText (p_name p) (p_isOptional p) (p_type p))
           (s_parameters sig))
        (fun params =>
           andThen (formatType m (s_type sig)) (fun returnType =>
             Normal ("(" ++ join ", " params ++ ") => " ++ returnType)))
  | [] =>
      match d_children d with
      | _ :: _ =>
          andThen
            (mapThrowing
               (fun c => memberText (d_name c) (d_isOptional c) (d_type c))
               (d_children d))
            (fun props => Normal ("{ " ++ join "; " props ++ " }"))
      | [] => Normal "object"
      end
  end.
Proof.
  simpl. destruct (d_signatures d); [destruct (d_children d) |]; reflexivity.
Qed.

End FormatEquations.

Lemma depthOpt_Some (t : type) : depthOpt (Some t) = depth t.
Proof. reflexivity. Qed.

Lemma formatNode_eq (m : option urlMap) (t : type) :
  formatType m (Some t) = formatNode m t.
Proof. reflexivity. Qed.

Lemma depth_Reference name args :
  depth (Reference name args) = S (maxOf depth args).
Proof. reflexivity. Qed.

Lemma depth_Union l : depth (Union l) = S (maxOf depth l).
Proof. reflexivity. Qed.

Lemma depth_Intersection l : depth (Intersection l) = S (maxOf depth l).
Proof. reflexivity. Qed.

Lemma depth_Tuple l : depth (Tuple l) = S (maxOf depth l).
Proof. reflexivity. Qed.

Lemma depth_Reflection d :
  depth (ReflectionT (Some d)) =
  S match d_signatures d with
    | sig :: _ =>
        Nat.max (maxOf (fun p => depthOpt (p_type p)) (s_parameters sig))
                (depthOpt (s_type sig))
    | [] => maxOf (fun c => depthOpt (d_type c)) (d_children d)
    end.
Proof. simpl. destruct (d_signatures d); reflexivity. Qed.

(** The sub-expressions of a list are formatted within the budget of
    the list. *)
Lemma formatTypeN_all (m : option urlMap) (n : nat) (l : list type) :
  (forall o, depthOpt o < n -> formatTypeN m n o = Some (formatType m o)) ->
  maxOf depth l < n ->
  mapCounted (fun a => formatTypeN m n (Some a)) l
  = Some (mapThrowing (formatNode m) l).
Proof.
  intros IH Hl. apply mapCounted_all. intros a Ha.
  rewrite IH; [reflexivity |].
  pose proof (maxOf_in depth l a Ha). simpl. lia.
Qed.

(** [formatType] ends on every finite type expression, whatever its
    depth: a call chain one longer than the depth of the expression is
    enough for the recursion to end, and it ends as [formatType] does,
    with the text returned or with the exception thrown. *)
Lemma formatType_terminates :
  forall (typeToUrlMap : option urlMap) (n : nat) (type : option type),
    depthOpt type < n ->
    formatTypeN typeToUrlMap n type = Some (formatType typeToUrlMap type).
Proof.
  intros m n. induction n as [| n IH]; intros type H; [lia |].
  destruct type as [t |]; [| reflexivity].
  destruct t as [s | name | name args | e | l | l | v | l | [d |]
                 | c e a b | o i | q | name target | ts | ts].
  - reflexivity.
  - reflexivity.
  - rewrite depthOpt_Some, depth_Reference in H.
    rewrite formatNode_eq, formatNode_Reference. cbn [formatTypeN].
    destruct args as [| a args]; [reflexivity |].
    rewrite (formatTypeN_all m (a :: args) IH) by lia.
    now destruct (mapThrowing (formatNode m) (a :: args)).
  - cbn [formatTypeN]. rewrite IH by (simpl in *; lia).
    rewrite !formatNode_eq. cbn [formatNode].
    now destruct (formatNode m e).
  - rewrite depthOpt_Some, depth_Union in H.
    rewrite formatNode_eq, formatNode_Union. cbn [formatTypeN].
    rewrite (formatTypeN_all m l IH) by lia.
    now destruct (mapThrowing (formatNode m) l).
  - rewrite depthOpt_Some, depth_Intersection in H.
    rewrite formatNode_eq, formatNode_Intersection. cbn [formatTypeN].
    rewrite (formatTypeN_all m l IH) by lia.
    now destruct (mapThrowing (formatNode m) l).
  - reflexivity.
  - rewrite depthOpt_Some, depth_Tuple in H.
    rewrite formatNode_eq, formatNode_Tuple. cbn [formatTypeN].
    rewrite (formatTypeN_all m l IH) by lia.
    now destruct (mapThrowing (formatNode m) l).
  - rewrite depthOpt_Some, depth_Reflection in H.
    rewrite formatNode_eq, formatNode_Reflection. cbn [formatTypeN].
    destruct (d_signatures d) as [| sig sigs].
    + destruct (d_children d) as [| child children] eqn:Hch; [reflexivity |].
      rewrite (mapCounted_all _
                 (fun c =>
                    andThen (formatType m (d_type c)) (fun s =>
                      Normal (d_name c ++ optionalMark (d_isOptional c)
                              ++ ": " ++ s)))).
      * now destruct (mapThrowing _ (child :: children)).
      * intros c Hc. rewrite IH.
        -- now destruct (formatType m (d_type c)).
        -- pose proof (maxOf_in (fun c => depthOpt (d_type c)) _ c Hc). lia.
    + rewrite (mapCounted_all _
                 (fun p =>
                    andThen (formatType m (p_type p)) (fun s =>
                      Normal (p_name p ++ optionalMark (p_isOptional p)
                              ++ ": " ++ s)))).
      * destruct (mapThrowing _ (s_parameters sig)); [| reflexivity].
        cbn [thenCounted andThen]. rewrite IH by lia.
        now destruct (formatType m (s_type sig)).
      * intros p Hp. rewrite IH.
        -- now destruct (formatType m (p_type p)).
        -- pose proof (maxOf_in (fun p => depthOpt (p_type p)) _ p Hp). lia.
  - reflexivity.
  - simpl in H. cbn [formatTypeN].
    rewrite !IH by (simpl; lia). rewrite !formatNode_eq. cbn [formatNode].
    destruct (formatNode m c); [| reflexivity].
    destruct (formatNode m e); [| reflexivity].
    destruct (formatNode m a); [| reflexivity].
    now destruct (formatNode m b).
  - simpl in H. cbn [formatTypeN].
    rewrite !IH by (simpl; lia). rewrite !formatNode_eq. cbn [formatNode].
    destruct (formatNode m o); [| reflexivity].
    now destruct (formatNode m i).
  - reflexivity.
  - simpl in H. cbn [formatTypeN].
    rewrite IH by (simpl; lia). reflexivity.
  - reflexivity.
  - reflexivity.
Qed.

(** C9.  A literal type whose value is a bigint is a finite type
    expression, of depth one, on which [formatType] returns no text:
    [JSON.stringify] throws a TypeError on the value, alone or inside a
    union or an array, with or without a reference map; the counted
    recursion ends the same way within its budget. *)
Theorem formatType_throws_on_bigint_literal :
  forall typeToUrlMap : option urlMap,
    depth (Literal (LBigInt "1")) = 1
    /\ formatType typeToUrlMap (Some (Literal (LBigInt "1")))
       = Throw TypeError
    /\ formatType typeToUrlMap
         (Some (Union [Intrinsic "string"; Literal (LBigInt "1")]))
       = Throw TypeError
    /\ formatType typeToUrlMap (Some (ArrayT (Literal (LBigInt "1"))))
       = Throw TypeError
    /\ formatTypeN typeToUrlMap 2 (Some (Literal (LBigInt "1")))
       = Some (Throw TypeError).
Proof. intros typeToUrlMap. repeat split. Qed.

(** The same calls on the literal 1 return its text. *)
Example formatType_number_literal :
  formatType None (Some (Literal (LNum "1"))) = Normal "1"
  /\ formatType None (Some (Union [Intrinsic "string"; Literal (LNum "1")]))
     = Normal "string | 1".
Proof. split; reflexivity. Qed.

(** The text of a type predicate names the tag of the type object, not
    the type the predicate asserts. *)
Example formatType_predicate :
  formatType None (Some (Predicate "value" (Some (Intrinsic "string"))))
  = Normal "value is predicate".
Proof. reflexivity. Qed.

(** ** Link injection and fenced blocks *)

(** The line pass of [addTypeLinksToIndexPage] keeps the number of lines
    and leaves every line of a fenced block as it was. *)
Lemma processLines_keeps_fenced (typeName absoluteUrl : string) :
  forall (lines : list string) (inCodeBlock : bool),
    List.length (processLines typeName absoluteUrl inCodeBlock lines)
    = List.length lines
    /\ forall i, nth i (fencedLines inCodeBlock lines) false = true ->
         nth i (processLines typeName absoluteUrl inCodeBlock lines) ""
         = nth i lines "".
Proof.
  induction lines as [| line lines IH]; intros inCodeBlock.
  - split; [reflexivity |]. intros [| i]; discriminate.
  - cbn [processLines fencedLines].
    destruct (startsWith (trim line) Theme.fence) eqn:Hfence.
    + change (startsWith (trim line) PageRenderer.fence) with
        (startsWith (trim line) Theme.fence). rewrite Hfence.
      destruct (IH (negb inCodeBlock)) as [Hlen Hnth].
      split; [simpl; now rewrite Hlen |].
      intros [| i] Hi; [reflexivity | now apply Hnth].
    + change (startsWith (trim line) PageRenderer.fence) with
        (startsWith (trim line) Theme.fence). rewrite Hfence.
      destruct (IH inCodeBlock) as [Hlen Hnth].
      destruct inCodeBlock.
      * split; [simpl; now rewrite Hlen |].
        intros [| i] Hi; [reflexivity | now apply Hnth].
      * split; [simpl; now rewrite Hlen |].
        intros [| i] Hi; [discriminate | now apply Hnth].
Qed.

(** The line pass of [transformLinks] does the same. *)
Lemma linkLines_keeps_fenced :
  forall (lines : list string) (inCodeBlock : bool),
    List.length (PageRenderer.linkLines inCodeBlock lines) = List.length lines
    /\ forall i, nth i (fencedLines inCodeBlock lines) false = true ->
         nth i (PageRenderer.linkLines inCodeBlock lines) "" = nth i lines "".
Proof.
  induction lines as [| line lines IH]; intros inCodeBlock.
  - split; [reflexivity |]. intros [| i]; discriminate.
  - cbn [PageRenderer.linkLines fencedLines].
    destruct (startsWith (trim line) PageRenderer.fence) eqn:Hfence.
    + destruct (IH (negb inCodeBlock)) as [Hlen Hnth].
      split; [simpl; now rewrite Hlen |].
      intros [| i] Hi; [reflexivity | now apply Hnth].
    + destruct (IH inCodeBlock) as [Hlen Hnth].
      destruct inCodeBlock; cbn [negb].
      * split; [simpl; now rewrite Hlen |].
        intros [| i] Hi; [reflexivity | now apply Hnth].
      * split; [simpl; now rewrite Hlen |].
        intros [| i] Hi; [discriminate | now apply Hnth].
Qed.

(** C4 on the code.  With Foo in the reference map, the text made of one
    fenced block whose line reads [options: `Foo`] comes out of
    [addTypeLinksToIndexPage] with a hyperlink on that line: the line
    lies between the two fences, the line pass leaves it alone, and the
    parameter-prefix rewrite, which runs over the whole text, links it. *)
Theorem addTypeLinks_links_inside_fence :
  nth 1 (fencedLines false (split LF fencedParameter)) false = true
  /\ join nl (processLines "Foo" "/api/classes/Foo" false
                (split LF fencedParameter)) = fencedParameter
  /\ addTypeLinksToIndexPage mapFooBar fencedParameter =
     "```" ++ nl ++ "options: [`Foo`](/api/classes/Foo)" ++ nl ++ "```".
Proof. repeat split; vm_compute; reflexivity. Qed.

(** ** The tag scan *)

Lemma scanLine_dropped (tagStack tagStack' : list string) (line : string) :
  PageRenderer.scanLine tagStack line = (tagStack', false) ->
  tagStack' = tagStack.
Proof.
  unfold PageRenderer.scanLine.
  destruct (PageRenderer.openTagMatch line) as [tagName |].
  - destruct (includes line "/>"); intros H; inversion H.
  - destruct (PageRenderer.closeTagMatch line) as [tagName |].
    + destruct (last (map Some tagStack) None) as [lastOpenTag |].
      * destruct (String.eqb lastOpenTag tagName); [intros H; inversion H |].
        destruct (PageRenderer.lastIndexOf tagName tagStack);
          intros H; inversion H; reflexivity.
      * intros H; inversion H; reflexivity.
    + intros H; inversion H.
Qed.

(** Scanning the lines a scan has kept, from the same stack, keeps them
    all. *)
Lemma scanLines_idempotent :
  forall (lines : list string) (tagStack : list string),
    PageRenderer.scanLines tagStack (PageRenderer.scanLines tagStack lines)
    = PageRenderer.scanLines tagStack lines.
Proof.
  induction lines as [| line lines IH]; intros tagStack; [reflexivity |].
  cbn [PageRenderer.scanLines].
  destruct (PageRenderer.scanLine tagStack line) as [tagStack' keep] eqn:E.
  destruct keep.
  - cbn [PageRenderer.scanLines]. rewrite E. now rewrite IH.
  - apply scanLine_dropped in E. subst tagStack'. apply IH.
Qed.

Lemma scanLines_Forall (P : string -> Prop) :
  forall (lines : list string) (tagStack : list string),
    Forall P lines -> Forall P (PageRenderer.scanLines tagStack lines).
Proof.
  induction lines as [| line lines IH]; intros tagStack H; [constructor |].
  inversion H as [| ? ? Hline Hlines]; subst.
  cbn [PageRenderer.scanLines].
  destruct (PageRenderer.scanLine tagStack line) as [tagStack' keep].
  destruct keep; [constructor |]; auto.
Qed.

(** ** Lines *)

Lemma split_not_nil (c : ascii) (s : string) : split c s <> [].
Proof.
  destruct s as [| a s]; simpl; [discriminate |].
  destruct (Ascii.eqb a c); [discriminate |].
  destruct (split c s); discriminate.
Qed.

Lemma split_noLineFeed (s : string) : Forall noLineFeed (split LF s).
Proof.
  induction s as [| a s IH]; simpl.
  - constructor; [reflexivity | constructor].
  - destruct (Ascii.eqb a LF) eqn:E.
    + constructor; [reflexivity | exact IH].
    + destruct (split LF s) as [| l ls]; inversion IH; subst;
        constructor; auto; unfold noLineFeed; simpl; rewrite E; auto.
Qed.

Lemma split_line (x : string) :
  noLineFeed x -> split LF x = [x].
Proof.
  unfold noLineFeed. induction x as [| a x IH]; simpl; [reflexivity |].
  intros H. apply andb_true_iff in H as [Ha Hx].
  apply negb_true_iff in Ha. rewrite Ha, (IH Hx). reflexivity.
Qed.

Lemma split_line_more (x r : string) :
  noLineFeed x -> split LF (x ++ String LF r) = x :: split LF r.
Proof.
  unfold noLineFeed. induction x as [| a x IH]; simpl; [reflexivity |].
  intros H. apply andb_true_iff in H as [Ha Hx].
  apply negb_true_iff in Ha. rewrite Ha, (IH Hx). reflexivity.
Qed.

Lemma split_join (lines : list string) :
  lines <> [] -> Forall noLineFeed lines -> split LF (join nl lines) = lines.
Proof.
  induction lines as [| x lines IH]; intros Hne H; [congruence |].
  inversion H as [| ? ? Hx Hlines]; subst.
  destruct lines as [| y lines].
  - simpl. now apply split_line.
  - change (join nl (x :: y :: lines))
      with (x ++ String LF (join nl (y :: lines))).
    rewrite split_line_more by assumption.
    rewrite IH; [reflexivity | discriminate | assumption].
Qed.

(** C3, as amended.  The tag-balance stage of the repair pass is
    idempotent: splitting a text into lines, scanning them and joining
    what is kept gives a text that the same stage leaves unchanged. *)
Theorem balanceTags_idempotent :
  forall content : string,
    PageRenderer.balanceTags (PageRenderer.balanceTags content)
    = PageRenderer.balanceTags content.
Proof.
  intros content. unfold PageRenderer.balanceTags.
  set (lines := split LF content).
  destruct (PageRenderer.scanLines [] lines) as [| x kept] eqn:E.
  - reflexivity.
  - rewrite <- E. rewrite split_join.
    + now rewrite scanLines_idempotent.
    + rewrite E. discriminate.
    + apply scanLines_Forall. apply split_noLineFeed.
Qed.

(** C3, as stated, fails: the repair pass changes its own output on the
    text [x##..y], which it turns into [x#.y] and then into [xy]. *)
Lemma beautifyStructure_not_idempotent :
  PageRenderer.beautifyStructure hashesAndPeriods = "x#.y"
  /\ PageRenderer.beautifyStructure
       (PageRenderer.beautifyStructure hashesAndPeriods) = "xy"
  /\ PageRenderer.beautifyStructure
       (PageRenderer.beautifyStructure hashesAndPeriods)
     <> PageRenderer.beautifyStructure hashesAndPeriods.
Proof.
  repeat split; try (vm_compute; reflexivity).
  vm_compute. discriminate.
Qed.

(** ** Closing tags after the scan *)

Lemma occ_app (tagName : string) (a b : list string) :
  occ tagName (a ++ b) = occ tagName a + occ tagName b.
Proof.
  unfold occ, countIf. now rewrite filter_app, length_app.
Qed.

Lemma occ_cons (tagName t : string) (a : list string) :
  occ tagName (t :: a) = one (String.eqb tagName t) + occ tagName a.
Proof.
  unfold occ, countIf. simpl. now destruct (String.eqb tagName t).
Qed.

Lemma occ_nil (tagName : string) : occ tagName [] = 0.
Proof. reflexivity. Qed.

Lemma last_Some (l : list string) (t : string) :
  last (map Some l) None = Some t -> l = (removelast l ++ [t])%list.
Proof.
  induction l as [| a l IH]; [discriminate |].
  destruct l as [| b l].
  - simpl. intros H. now inversion H.
  - intros H. change (removelast (a :: b :: l)) with (a :: removelast (b :: l)).
    simpl. f_equal. apply IH. exact H.
Qed.

Lemma lastIndexOf_split (t : string) :
  forall (l : list string) (i : nat),
    PageRenderer.lastIndexOf t l = Some i ->
    exists t' rest, String.eqb t' t = true
                    /\ l = (firstn i l ++ t' :: rest)%list.
Proof.
  induction l as [| a l IH]; intros i H; [discriminate |].
  simpl in H.
  destruct (PageRenderer.lastIndexOf t l) as [j |] eqn:E.
  - inversion H; subst i. destruct (IH j eq_refl) as (t' & rest & Ht & Hl).
    exists t', rest. split; [exact Ht |]. simpl. now f_equal.
  - destruct (String.eqb a t) eqn:Ea; [| discriminate].
    inversion H; subst i. exists a, l. now split.
Qed.

Lemma eqb_swap (a b : string) : String.eqb a b = String.eqb b a.
Proof. apply String.eqb_sym. Qed.

Lemma countIf_cons {A : Type} (p : A -> bool) (x : A) (l : list A) :
  countIf p (x :: l) = one (p x) + countIf p l.
Proof. unfold countIf. simpl. now destruct (p x). Qed.

(** A kept line: the openings it takes off the stack cover it when it
    closes the tag, and it is put on the stack when it opens the tag. *)
Lemma scan_step_kept (tagName line : string)
  (kept : list string) (tagStack tagStack' : list string) (k : nat) :
  (forall k, countIf (closes tagName) (firstn k kept)
             <= occ tagName tagStack'
                + countIf (opens tagName) (firstn k kept)) ->
  occ tagName tagStack' + one (closes tagName line)
  <= occ tagName tagStack + one (opens tagName line) ->
  countIf (closes tagName) (firstn k (line :: kept))
  <= occ tagName tagStack + countIf (opens tagName) (firstn k (line :: kept)).
Proof.
  intros IH Hocc. destruct k as [| k]; [unfold countIf; simpl; lia |].
  cbn [firstn]. rewrite !countIf_cons. specialize (IH k). lia.
Qed.

(** The invariant of the scan: in every prefix of the kept lines, the
    closing lines of a tag other than CodeGroup are covered by the
    openings still on the stack and the opening lines of the prefix. *)
Lemma scanLines_closings_covered (tagName : string) :
  tagName <> "CodeGroup" ->
  forall (lines : list string) (tagStack : list string) (k : nat),
    countIf (closes tagName) (firstn k (PageRenderer.scanLines tagStack lines))
    <= occ tagName tagStack
       + countIf (opens tagName)
           (firstn k (PageRenderer.scanLines tagStack lines)).
Proof.
  intros Hcg.
  assert (Hne : String.eqb "CodeGroup" tagName = false).
  { apply String.eqb_neq. congruence. }
  induction lines as [| line lines IH]; intros tagStack k.
  - destruct k; unfold countIf; simpl; lia.
  - cbn [PageRenderer.scanLines]. unfold PageRenderer.scanLine.
    assert (Hkind : kindOf line =
              match PageRenderer.openTagMatch line with
              | Some t => if includes line "/>" then SelfClosing t
                          else Opening t
              | None => match PageRenderer.closeTagMatch line with
                        | Some t => Closing t
                        | None => Plain
                        end
              end) by reflexivity.
    destruct (PageRenderer.openTagMatch line) as [t |].
    + destruct (includes line "/>").
      * cbv iota beta; apply scan_step_kept with (tagStack' := tagStack);
          [intros; apply IH |].
        unfold closes, opens. rewrite Hkind. simpl. lia.
      * cbv iota beta; apply scan_step_kept with (tagStack' := (tagStack ++ [t])%list);
          [intros; apply IH |].
        unfold closes, opens. rewrite Hkind.
        rewrite occ_app, occ_cons, occ_nil.
        rewrite (eqb_swap tagName t). simpl. lia.
    + destruct (PageRenderer.closeTagMatch line) as [t |].
      * assert (Hcl : closes tagName line = String.eqb tagName t
                      /\ opens tagName line = false).
        { unfold closes, opens. rewrite Hkind. split; [apply eqb_swap | easy]. }
        destruct Hcl as [Hcl Hop].
        destruct (last (map Some tagStack) None) as [lastOpenTag |] eqn:El.
        -- destruct (String.eqb lastOpenTag t) eqn:Et.
           ++ cbv iota beta; apply scan_step_kept with (tagStack' := removelast tagStack);
          [intros; apply IH |].
              rewrite Hcl, Hop.
              apply last_Some in El. rewrite El at 2.
              rewrite occ_app, occ_cons, occ_nil.
              apply String.eqb_eq in Et. subst. lia.
           ++ destruct (PageRenderer.lastIndexOf t tagStack) as [i |] eqn:Ei.
              ** cbv iota beta; apply scan_step_kept with (tagStack' := firstn i tagStack);
          [intros; apply IH |].
                 rewrite Hcl, Hop.
                 destruct (lastIndexOf_split _ _ Ei) as (t' & rest & Ht & Hl).
                 rewrite Hl at 2. rewrite occ_app, occ_cons.
                 apply String.eqb_eq in Ht. subst. lia.
              ** destruct (String.eqb t "CodeGroup") eqn:Ecg.
                 --- cbv iota beta; apply scan_step_kept with (tagStack' := tagStack);
          [intros; apply IH |].
                     rewrite Hcl, Hop.
                     apply String.eqb_eq in Ecg. subst t.
                     rewrite (eqb_swap tagName), Hne. simpl. lia.
                 --- cbv iota beta; apply IH.
        -- destruct (String.eqb t "CodeGroup") eqn:Ecg.
           ++ cbv iota beta; apply scan_step_kept with (tagStack' := tagStack);
          [intros; apply IH |].
              rewrite Hcl, Hop.
              apply String.eqb_eq in Ecg. subst t.
              rewrite (eqb_swap tagName), Hne. simpl. lia.
           ++ cbv iota beta; apply IH.
      * cbv iota beta; apply scan_step_kept with (tagStack' := tagStack);
          [intros; apply IH |].
        unfold closes, opens. rewrite Hkind. simpl. lia.
Qed.

(** ** The matcher on the shapes of pattern the proofs need *)

Lemma advance_0 (st : mstate) : advance 0 st = st.
Proof. destruct st. reflexivity. Qed.

Lemma advance_S (p : option ascii) (a : ascii) (r : string)
  (cs : list (nat * string)) (n : nat) :
  advance (S n) (MState p (String a r) cs)
  = advance n (MState (Some a) r cs).
Proof. reflexivity. Qed.

Lemma cap_clear_nil (cs : list (nat * string)) : cap_clear [] cs = cs.
Proof.
  unfold cap_clear. induction cs as [| c cs IH]; simpl; [reflexivity |].
  f_equal. exact IH.
Qed.

Lemma with_caps_same (st : mstate) : with_caps (caps st) st = st.
Proof. destruct st. reflexivity. Qed.

Lemma startsWith_cons (a b : ascii) (s p : string) :
  startsWith (String b s) (String a p) = Ascii.eqb a b && startsWith s p.
Proof. reflexivity. Qed.

Lemma startsWith_nil (s : string) : startsWith s "" = true.
Proof. destruct s; reflexivity. Qed.

(** A literal matches when the text starts with it. *)
Lemma run_Lit (lit : string) :
  forall (st : mstate) (k : mstate -> option mstate),
    run (Lit lit) st k =
    if startsWith (rest st) lit
    then k (advance (String.length lit) st) else None.
Proof.
  induction lit as [| c lit IH]; intros st k.
  - cbn [Lit run String.length]. now rewrite advance_0, startsWith_nil.
  - destruct st as [p s cs]. cbn [rest].
    destruct lit as [| c' lit'].
    + cbn [Lit run rest String.length]. destruct s as [| a s]; [reflexivity |].
      rewrite startsWith_cons, startsWith_nil, (Ascii.eqb_sym c a), andb_true_r.
      reflexivity.
    + change (Lit (String c (String c' lit')))
        with (Seq (Chr c) (Lit (String c' lit'))).
      cbn [run rest]. destruct s as [| a s]; [reflexivity |].
      rewrite startsWith_cons, (Ascii.eqb_sym c a).
      destruct (Ascii.eqb a c); [| reflexivity].
      rewrite IH. cbn [andb]. reflexivity.
Qed.

Lemma tryDown_0 (k : mstate -> option mstate) (st : mstate) :
  tryDown k st 0 = k st.
Proof. simpl. rewrite advance_0. now destruct (k st). Qed.

Lemma tryDown_first (k : mstate -> option mstate) (st : mstate) (n : nat)
  (res : mstate) :
  k (advance n st) = Some res -> tryDown k st n = Some res.
Proof. intros H. destruct n; simpl; now rewrite H. Qed.

Lemma tryDown_none (k : mstate -> option mstate) (st : mstate) (n : nat) :
  (forall j, j <= n -> k (advance j st) = None) -> tryDown k st n = None.
Proof.
  induction n as [| n IH]; intros H; simpl.
  - now rewrite (H 0).
  - rewrite (H (S n)) by lia. apply IH. intros j Hj. apply H. lia.
Qed.

Lemma tryDown_shift (k : mstate -> option mstate) (p : option ascii)
  (a : ascii) (r : string) (cs : list (nat * string)) (n : nat) :
  tryDown k (MState p (String a r) cs) (S n) =
  match tryDown k (MState (Some a) r cs) n with
  | Some res => Some res
  | None => k (MState p (String a r) cs)
  end.
Proof.
  induction n as [| n IH].
  - cbn [tryDown]. rewrite advance_S, !advance_0.
    destruct (k (MState (Some a) r cs)); [reflexivity |].
    destruct (k (MState p (String a r) cs)); reflexivity.
  - change (tryDown k (MState p (String a r) cs) (S (S n))) with
      (match k (advance (S (S n)) (MState p (String a r) cs)) with
       | Some res => Some res
       | None => tryDown k (MState p (String a r) cs) (S n)
       end).
    rewrite IH, advance_S.
    change (tryDown k (MState (Some a) r cs) (S n)) with
      (match k (advance (S n) (MState (Some a) r cs)) with
       | Some res => Some res
       | None => tryDown k (MState (Some a) r cs) n
       end).
    destruct (k (advance (S n) (MState (Some a) r cs))); reflexivity.
Qed.

(** A greedy quantifier over a one-character sub-expression offers its
    continuation the positions of the run, the farthest first. *)
Lemma iterate_char_greedy (q : ascii -> bool)
  (body : mstate -> (mstate -> option mstate) -> option mstate)
  (k : mstate -> option mstate) :
  (forall st k', body st k' = charBody q st k') ->
  forall (fuel : nat) (st : mstate),
    String.length (rest st) < fuel ->
    iterate body true k fuel st = tryDown k st (span q (rest st)).
Proof.
  intros Hbody. induction fuel as [| fuel IH]; intros st Hfuel; [lia |].
  cbn [iterate]. rewrite Hbody. unfold charBody.
  destruct st as [p s cs]. cbn [rest] in *.
  destruct s as [| a r].
  - cbn [span]. now rewrite tryDown_0.
  - cbn [span]. destruct (q a).
    + rewrite advance_S, advance_0. cbn [rest String.length].
      rewrite (proj2 (Nat.ltb_lt _ _) (Nat.lt_succ_diag_r _)).
      rewrite IH by (cbn [rest]; simpl in Hfuel; lia).
      cbn [rest]. now rewrite tryDown_shift.
    + now rewrite tryDown_0.
Qed.

Lemma run_Star_Cls (p : ascii -> bool) (st : mstate)
  (k : mstate -> option mstate) :
  run (Star true (Cls p)) st k = tryDown k st (span p (rest st)).
Proof.
  cbn [run]. apply iterate_char_greedy; [| lia].
  intros st' k'. cbn [groups]. rewrite cap_clear_nil, with_caps_same.
  reflexivity.
Qed.

Lemma run_Star_Chr (c : ascii) (st : mstate) (k : mstate -> option mstate) :
  run (Star true (Chr c)) st k
  = tryDown k st (span (fun a => Ascii.eqb a c) (rest st)).
Proof.
  cbn [run]. apply iterate_char_greedy; [| lia].
  intros st' k'. cbn [groups]. rewrite cap_clear_nil, with_caps_same.
  reflexivity.
Qed.

Lemma rest_advance (n : nat) (st : mstate) :
  rest (advance n st) = drop n (rest st).
Proof. reflexivity. Qed.

Lemma caps_advance (n : nat) (st : mstate) :
  caps (advance n st) = caps st.
Proof. reflexivity. Qed.

Lemma drop_span_head (p : ascii -> bool) (s : string) :
  match drop (span p s) s with
  | "" => True
  | String c _ => p c = false
  end.
Proof.
  induction s as [| a s IH]; simpl; [exact I |].
  destruct (p a) eqn:E; simpl; [exact IH | exact E].
Qed.

Lemma take_span_all (p : ascii -> bool) (s : string) :
  allChars p (take (span p s) s) = true.
Proof.
  induction s as [| a s IH]; simpl; [reflexivity |].
  destruct (p a) eqn:E; simpl; [now rewrite E | reflexivity].
Qed.

Lemma take_drop (n : nat) (s : string) : take n s ++ drop n s = s.
Proof.
  revert s. induction n as [| n IH]; intros [| a s]; simpl; try reflexivity.
  now rewrite IH.
Qed.

Lemma length_drop (n : nat) (s : string) :
  String.length (drop n s) = String.length s - n.
Proof.
  revert s. induction n as [| n IH]; intros [| a s]; simpl; try reflexivity.
  apply IH.
Qed.

Lemma span_le (p : ascii -> bool) (s : string) :
  span p s <= String.length s.
Proof.
  induction s as [| a s IH]; simpl; [lia |]. destruct (p a); simpl; lia.
Qed.

Lemma run_Plus_Cls (q : ascii -> bool) (p : option ascii) (s : string)
  (cs : list (nat * string)) (k : mstate -> option mstate) :
  run (Plus true (Cls q)) (MState p s cs) k =
  match s with
  | String a r =>
      if q a then tryDown k (MState (Some a) r cs) (span q r) else None
  | "" => None
  end.
Proof.
  unfold Plus. cbn [run rest]. destruct s as [| a r]; [reflexivity |].
  destruct (q a); [| reflexivity].
  rewrite advance_S, advance_0. apply run_Star_Cls.
Qed.

Lemma run_Plus_Chr (c : ascii) (p : option ascii) (s : string)
  (cs : list (nat * string)) (k : mstate -> option mstate) :
  run (Plus true (Chr c)) (MState p s cs) k =
  match s with
  | String a r =>
      if Ascii.eqb a c
      then tryDown k (MState (Some a) r cs) (span (fun x => Ascii.eqb x c) r)
      else None
  | "" => None
  end.
Proof.
  unfold Plus. cbn [run rest]. destruct s as [| a r]; [reflexivity |].
  destruct (Ascii.eqb a c); [| reflexivity].
  rewrite advance_S, advance_0. apply run_Star_Chr.
Qed.

Lemma run_Alt (r1 r2 : regex) (st : mstate) (k : mstate -> option mstate) :
  run (Alt r1 r2) st k =
  match run r1 st k with Some res => Some res | None => run r2 st k end.
Proof. reflexivity. Qed.

Lemma run_Seq (r1 r2 : regex) (st : mstate) (k : mstate -> option mstate) :
  run (Seq r1 r2) st k = run r1 st (fun st' => run r2 st' k).
Proof. reflexivity. Qed.

Lemma exec_at_Some (r : regex) (p : option ascii) (s : string)
  (st' : mstate) :
  run r (MState p s []) (fun st => Some st) = Some st' ->
  exec_at r p s =
  Some (MResult (take (String.length s - String.length (rest st')) s)
                (caps st') st').
Proof. intros H. unfold exec_at. now rewrite H. Qed.

Lemma exec_at_None (r : regex) (p : option ascii) (s : string) :
  run r (MState p s []) (fun st => Some st) = None -> exec_at r p s = None.
Proof. intros H. unfold exec_at. now rewrite H. Qed.

(** What is matched when a run of [n] characters after a first one is
    consumed: the first character and the run. *)
Lemma take_consumed (a : ascii) (r : string) (n : nat) :
  n <= String.length r ->
  take (String.length (String a r) - String.length (drop n r)) (String a r)
  = String a (take n r).
Proof.
  intros H. rewrite length_drop. cbn [String.length].
  replace (S (String.length r) - (String.length r - n)) with (S n) by lia.
  reflexivity.
Qed.

(** ** slugify *)

Lemma exec_non_slug (p : option ascii) (s : string) :
  exec_at re_non_slug p s =
  match s with
  | String a r =>
      if is_slug_char a then None
      else Some (MResult (String a (take (span nonSlug r) r)) []
                         (advance (span nonSlug r) (MState (Some a) r [])))
  | "" => None
  end.
Proof.
  unfold re_non_slug, Not. fold nonSlug.
  destruct s as [| a r].
  - apply exec_at_None. now rewrite run_Plus_Cls.
  - destruct (is_slug_char a) eqn:E.
    + apply exec_at_None. rewrite run_Plus_Cls. unfold nonSlug. now rewrite E.
    + rewrite (exec_at_Some _ _ _
                 (st' := advance (span nonSlug r) (MState (Some a) r []))).
      * rewrite rest_advance. cbn [rest caps advance].
        now rewrite take_consumed by apply span_le.
      * rewrite run_Plus_Cls. unfold nonSlug at 1. rewrite E. cbn [negb].
        now apply tryDown_first.
Qed.

Lemma slug_char_ok (c : ascii) : is_slug_char c = true -> slugChar c = true.
Proof.
  unfold is_slug_char, slugChar. intros H. rewrite H. reflexivity.
Qed.

(** After the first rewrite every character is a slug character. *)
Lemma replace_non_slug_chars :
  forall (fuel : nat) (p : option ascii) (s : string),
    String.length s < fuel ->
    allChars slugChar (replace_from fuel re_non_slug (fun _ => "-") p s)
    = true.
Proof.
  induction fuel as [| fuel IH]; intros p s Hfuel; [lia |].
  cbn [replace_from]. rewrite exec_non_slug.
  destruct s as [| a r]; [reflexivity |].
  destruct (is_slug_char a) eqn:E.
  - cbn [allChars]. rewrite (slug_char_ok _ E).
    apply IH. simpl in Hfuel. lia.
  - cbn [matched after rest prev advance]. cbn [append allChars].
    apply IH. rewrite length_drop. simpl in Hfuel. lia.
Qed.

Lemma drop_all (s : string) : drop (String.length s) s = "".
Proof. induction s as [| a s IH]; simpl; [reflexivity | exact IH]. Qed.

Lemma drop_nonempty (n : nat) (s : string) :
  n < String.length s -> drop n s <> "".
Proof.
  intros H E. pose proof (length_drop n s) as L. rewrite E in L.
  simpl in L. lia.
Qed.

Lemma atEnd_spec (st : mstate) :
  atEnd st = match rest st with "" => Some st | _ => None end.
Proof.
  unfold atEnd. cbn [run]. unfold at_eol. now destruct (rest st).
Qed.

(** The second rewrite matches a run of hyphens at the start of the
    text, or one that reaches its end. *)
Lemma exec_edge_hyphens (p : option ascii) (s : string) :
  exec_at re_edge_hyphens p s =
  match s with
  | String a r =>
      if isHyphen a
         && (match p with None => true | Some _ => false end
             || Nat.eqb (span isHyphen r) (String.length r))
      then Some (MResult (String a (take (span isHyphen r) r)) []
                         (advance (span isHyphen r) (MState (Some a) r [])))
      else None
  | "" => None
  end.
Proof.
  unfold re_edge_hyphens.
  assert (Hfirst : forall st,
             run (Seq (Bol false) (Plus true (Chr "-"))) st
                 (fun st' => Some st')
             = if at_bol false st
               then run (Plus true (Chr "-")) st (fun st' => Some st')
               else None) by reflexivity.
  assert (Hsecond : forall st,
             run (Seq (Plus true (Chr "-")) (Eol false)) st
                 (fun st' => Some st')
             = run (Plus true (Chr "-")) st atEnd) by reflexivity.
  destruct s as [| a r].
  - apply exec_at_None. rewrite run_Alt, Hfirst, Hsecond, !run_Plus_Chr.
    now destruct (at_bol false _).
  - unfold isHyphen at 1. destruct (Ascii.eqb a "-") eqn:Ea.
    + cbn [andb].
      set (n := span isHyphen r).
      set (st1 := MState (Some a) r []).
      destruct p as [c |].
      * (* not at the start: the run must reach the end *)
        cbn [orb]. destruct (Nat.eqb n (String.length r)) eqn:En.
        -- apply Nat.eqb_eq in En.
           rewrite (exec_at_Some _ _ _ (st' := advance n st1)).
           ++ rewrite rest_advance. cbn [rest caps advance st1].
              now rewrite take_consumed by apply span_le.
           ++ rewrite run_Alt, Hfirst. cbn [at_bol prev andb].
              rewrite Hsecond, run_Plus_Chr, Ea.
              apply tryDown_first. rewrite atEnd_spec, rest_advance.
              cbn [rest st1]. fold isHyphen. fold n. rewrite En.
              now rewrite drop_all.
        -- apply Nat.eqb_neq in En.
           apply exec_at_None. rewrite run_Alt, Hfirst.
           cbn [at_bol prev andb].
           rewrite Hsecond, run_Plus_Chr, Ea.
           apply tryDown_none. intros j Hj.
           rewrite atEnd_spec, rest_advance. cbn [rest].
           pose proof (span_le isHyphen r) as Hle. fold isHyphen in Hj.
           fold n in Hle, Hj.
           destruct (drop j r) eqn:Ed; [| reflexivity].
           exfalso. apply (@drop_nonempty j r); [lia | exact Ed].
      * (* at the start *)
        cbn [orb].
        rewrite (exec_at_Some _ _ _ (st' := advance n st1)).
        -- rewrite rest_advance. cbn [rest caps advance st1].
           now rewrite take_consumed by apply span_le.
        -- rewrite run_Alt, Hfirst. cbn [at_bol prev].
           rewrite run_Plus_Chr, Ea.
           rewrite (tryDown_first _ _ _ (res := advance n st1));
             reflexivity.
    + cbn [andb]. apply exec_at_None.
      rewrite run_Alt, Hfirst, Hsecond, !run_Plus_Chr, Ea.
      now destruct (at_bol false _).
Qed.

Lemma allChars_drop (q : ascii -> bool) (n : nat) (s : string) :
  allChars q s = true -> allChars q (drop n s) = true.
Proof.
  revert s. induction n as [| n IH]; intros [| a s] H; simpl; auto.
  simpl in H. apply andb_true_iff in H as [_ H]. now apply IH.
Qed.

Lemma allChars_drop_span (q : ascii -> bool) (s : string) :
  allChars q s = false -> allChars q (drop (span q s) s) = false.
Proof.
  induction s as [| a s IH]; simpl; [discriminate |].
  destruct (q a) eqn:E; simpl; [exact IH | now rewrite E].
Qed.

Lemma span_full (q : ascii -> bool) (s : string) :
  span q s <> String.length s -> allChars q s = false.
Proof.
  induction s as [| a s IH]; simpl; [congruence |].
  destruct (q a); simpl; [| reflexivity]. intros H. apply IH. lia.
Qed.

Lemma last_char_default (p : option ascii) (s : string) :
  last_char p s =
  match last_char None s with Some x => Some x | None => p end.
Proof.
  revert p. induction s as [| a s IH]; intros p; simpl; [reflexivity |].
  rewrite (IH (Some a)). now destruct (last_char None s).
Qed.

Lemma startsWith_rev_onto (c : ascii) (s acc : string) :
  startsWith (rev_onto s acc) (String c "") =
  match last_char None s with
  | Some x => Ascii.eqb c x
  | None => startsWith acc (String c "")
  end.
Proof.
  revert acc. induction s as [| a s IH]; intros acc; simpl; [reflexivity |].
  rewrite IH, (last_char_default (Some a)).
  destruct (last_char None s); [reflexivity |].
  rewrite startsWith_cons, startsWith_nil. apply andb_true_r.
Qed.

(** [endsWith] with a one-character suffix looks at the last character. *)
Lemma endsWith_char (c : ascii) (s : string) :
  endsWith s (String c "") =
  match last_char None s with
  | Some x => Ascii.eqb c x
  | None => false
  end.
Proof.
  unfold endsWith, rev. cbn [rev_onto]. rewrite startsWith_rev_onto.
  reflexivity.
Qed.

Section EdgeHyphens.

Let strip (fuel : nat) (p : option ascii) (s : string) : string :=
  replace_from fuel re_edge_hyphens (fun _ => "") p s.

Lemma strip_step (fuel : nat) (p : option ascii) (s : string) :
  strip (S fuel) p s =
  match s with
  | String a r =>
      if isHyphen a
         && (match p with None => true | Some _ => false end
             || Nat.eqb (span isHyphen r) (String.length r))
      then strip fuel (last_char (Some a) (take (span isHyphen r) r))
                 (drop (span isHyphen r) r)
      else String a (strip fuel (Some a) r)
  | "" => ""
  end.
Proof.
  unfold strip. cbn [replace_from]. rewrite exec_edge_hyphens.
  destruct s as [| a r]; [reflexivity |].
  destruct (isHyphen a && _); reflexivity.
Qed.

Lemma strip_chars (q : ascii -> bool) :
  forall (fuel : nat) (p : option ascii) (s : string),
    String.length s < fuel ->
    allChars q s = true -> allChars q (strip fuel p s) = true.
Proof.
  induction fuel as [| fuel IH]; intros p s Hfuel Hs; [lia |].
  rewrite strip_step. destruct s as [| a r]; [reflexivity |].
  simpl in Hs, Hfuel. apply andb_true_iff in Hs as [Ha Hr].
  destruct (isHyphen a && _).
  - apply IH; [rewrite length_drop; lia | now apply allChars_drop].
  - cbn [allChars]. rewrite Ha. apply IH; [lia | exact Hr].
Qed.

Lemma strip_start :
  forall (fuel : nat) (p : option ascii) (s : string),
    String.length s < fuel ->
    startsWith s "-" = false -> startsWith (strip fuel p s) "-" = false.
Proof.
  intros [| fuel] p s Hfuel Hs; [lia |].
  rewrite strip_step. destruct s as [| a r]; [reflexivity |].
  rewrite startsWith_cons, startsWith_nil, andb_true_r in Hs.
  unfold isHyphen at 1. rewrite Ascii.eqb_sym, Hs. cbn [andb].
  now rewrite startsWith_cons, Hs.
Qed.

Lemma strip_start_top (fuel : nat) (s : string) :
  String.length s < fuel -> startsWith (strip fuel None s) "-" = false.
Proof.
  destruct fuel as [| fuel]; intros Hfuel; [lia |].
  rewrite strip_step. destruct s as [| a r]; [reflexivity |].
  simpl in Hfuel. cbn [orb]. rewrite andb_true_r.
  destruct (isHyphen a) eqn:Ea.
  - apply strip_start; [rewrite length_drop; lia |].
    pose proof (drop_span_head isHyphen r) as H.
    destruct (drop (span isHyphen r) r) as [| b t]; [reflexivity |].
    rewrite startsWith_cons, startsWith_nil, andb_true_r, Ascii.eqb_sym.
    exact H.
  - rewrite startsWith_cons, Ascii.eqb_sym. unfold isHyphen in Ea.
    now rewrite Ea.
Qed.

Lemma strip_nonempty :
  forall (fuel : nat) (p : option ascii) (s : string),
    String.length s < fuel ->
    allChars isHyphen s = false -> strip fuel p s <> "".
Proof.
  induction fuel as [| fuel IH]; intros p s Hfuel Hs; [lia |].
  rewrite strip_step. destruct s as [| a r]; [discriminate |].
  simpl in Hfuel.
  destruct (isHyphen a) eqn:Ea.
  - destruct (_ || _); cbn [andb]; [| discriminate].
    apply IH; [rewrite length_drop; lia |].
    apply allChars_drop_span. simpl in Hs. now rewrite Ea in Hs.
  - cbn [andb]. discriminate.
Qed.

Lemma strip_end :
  forall (fuel : nat) (p : option ascii) (s : string),
    String.length s < fuel ->
    last_char None (strip fuel p s) <> Some "-"%char.
Proof.
  induction fuel as [| fuel IH]; intros p s Hfuel; [lia |].
  rewrite strip_step. destruct s as [| a r]; [discriminate |].
  simpl in Hfuel.
  destruct (isHyphen a && _) eqn:Ecase.
  - apply IH. rewrite length_drop. lia.
  - cbn [last_char]. rewrite last_char_default.
    pose proof (IH (Some a) r ltac:(lia)) as Hrec.
    destruct (last_char None (strip fuel (Some a) r)) as [x |] eqn:El;
      [exact Hrec |].
    intros Ha. inversion Ha; subst a. cbn [isHyphen andb] in Ecase.
    change (isHyphen "-") with true in Ecase. cbn [andb] in Ecase.
    apply orb_false_iff in Ecase as [_ Hspan].
    apply Nat.eqb_neq in Hspan. apply span_full in Hspan.
    apply (strip_nonempty (Some "-"%char) r (fuel := fuel)) in Hspan; [| lia].
    destruct (strip fuel (Some "-"%char) r) as [| b t]; [congruence |].
    cbn [last_char] in El. rewrite last_char_default in El.
    destruct (last_char None t); discriminate El.
Qed.

End EdgeHyphens.

(** C10. Whatever the text, its slug is made of lower-case letters,
    digits and hyphens only, and neither begins nor ends with a
    hyphen. *)
Theorem slugify_shape :
  forall text : string,
    allChars slugChar (slugify text) = true
    /\ startsWith (slugify text) "-" = false
    /\ endsWith (slugify text) "-" = false.
Proof.
  intros text. unfold slugify, replaceAll.
  set (dashed := replace_from _ re_non_slug _ None (toLowerCase text)).
  repeat split.
  - apply strip_chars; [lia |].
    apply replace_non_slug_chars. lia.
  - apply strip_start_top. lia.
  - rewrite endsWith_char.
    pose proof (@strip_end (S (String.length dashed)) None dashed
                  ltac:(lia)) as H.
    destruct (last_char None _) as [x |]; [| reflexivity].
    destruct (Ascii.eqb "-" x) eqn:E; [| reflexivity].
    apply Ascii.eqb_eq in E. subst x. congruence.
Qed.

(** ** flattenHeadings *)

Lemma run_Bol (m : bool) (st : mstate) (k : mstate -> option mstate) :
  run (Bol m) st k = if at_bol m st then k st else None.
Proof. reflexivity. Qed.

Lemma run_Eol (m : bool) (st : mstate) (k : mstate -> option mstate) :
  run (Eol m) st k = if at_eol m st then k st else None.
Proof. reflexivity. Qed.

Lemma run_Grp (n : nat) (r : regex) (st : mstate)
  (k : mstate -> option mstate) :
  run (Grp n r) st k =
  run r st (fun st' =>
    k (with_caps
         (cap_set n (take (String.length (rest st) - String.length (rest st'))
                          (rest st))
                  (caps st')) st')).
Proof. reflexivity. Qed.

Lemma at_bol_lineStart (p : option ascii) (s : string)
  (cs : list (nat * string)) :
  at_bol true (MState p s cs) = lineStart p.
Proof. destruct p; reflexivity. Qed.

Lemma startsWith_app (x y s : string) :
  startsWith s (x ++ y)
  = startsWith s x && startsWith (drop (String.length x) s) y.
Proof.
  revert s. induction x as [| a x IH]; intros s.
  - cbn [append String.length drop]. rewrite startsWith_nil.
    now destruct s.
  - destruct s as [| b s]; [reflexivity |].
    cbn [append String.length drop]. rewrite !startsWith_cons, IH.
    now rewrite andb_assoc.
Qed.

Lemma startsWith_eq (x s : string) :
  startsWith s x = true -> s = x ++ drop (String.length x) s.
Proof.
  revert s. induction x as [| a x IH]; intros s H.
  - now destruct s.
  - destruct s as [| b s]; [discriminate |].
    rewrite startsWith_cons in H. apply andb_true_iff in H as [Hab H].
    apply Ascii.eqb_eq in Hab. subst b. cbn [append String.length drop].
    now rewrite <- IH.
Qed.

Lemma allChars_app (q : ascii -> bool) (x y : string) :
  allChars q (x ++ y) = allChars q x && allChars q y.
Proof.
  induction x as [| a x IH]; simpl; [reflexivity |].
  now rewrite IH, andb_assoc.
Qed.

Lemma last_char_notNewline (a : ascii) (t : string) :
  notNewline a = true -> allChars notNewline t = true ->
  lineStart (last_char (Some a) t) = false.
Proof.
  revert a. induction t as [| b t IH]; intros a Ha Ht; simpl.
  - unfold notNewline in Ha. now apply negb_true_iff in Ha.
  - simpl in Ht. apply andb_true_iff in Ht as [Hb Ht]. now apply IH.
Qed.

Section Headings.

Variable h : string.

Let prefix : string := h ++ " ".

Lemma exec_heading_none (p : option ascii) (s : string) :
  lineStart p && headingStart h s = false ->
  exec_at (re_heading h) p s = None.
Proof.
  intros H. apply exec_at_None. unfold re_heading, Seqs.
  rewrite run_Seq, run_Bol, at_bol_lineStart.
  destruct (lineStart p); [| reflexivity]. cbn [andb] in H.
  rewrite run_Seq, run_Lit. cbn [rest].
  unfold headingStart in H.
  destruct (startsWith s (h ++ " ")); [| reflexivity]. cbn [andb] in H.
  rewrite run_Seq, run_Grp. change Dot with (Cls notNewline).
  rewrite length_append. cbn [String.length].
  destruct (advance (String.length h + 1) (MState p s [])) as [p1 s1 cs1] eqn:E.
  assert (Hs1 : s1 = drop (String.length h + 1) s).
  { change s1 with (rest (MState p1 s1 cs1)). now rewrite <- E. }
  rewrite run_Plus_Cls. rewrite <- Hs1 in H.
  destruct s1 as [| a r]; [reflexivity |].
  now rewrite H.
Qed.

Lemma exec_heading_some (p : option ascii) (s : string) (a : ascii)
  (r : string) :
  lineStart p = true ->
  startsWith s prefix = true ->
  drop (String.length prefix) s = String a r ->
  notNewline a = true ->
  let n := span notNewline r in
  let text := String a (take n r) in
  exec_at (re_heading h) p s =
  Some (MResult (prefix ++ text) [(1, text)]
                (MState (last_char (Some a) (take n r)) (drop n r)
                        [(1, text)])).
Proof.
  intros Hp Hs Hd Ha n text.
  assert (Hlen : String.length s
                 = String.length prefix + S (String.length r)).
  { rewrite (startsWith_eq _ _ Hs) at 1. rewrite length_append, Hd.
    reflexivity. }
  rewrite (exec_at_Some _ _ _
             (st' := MState (last_char (Some a) (take n r)) (drop n r)
                            [(1, text)])).
  - cbn [rest caps]. f_equal. f_equal.
    rewrite length_drop, Hlen.
    pose proof (span_le notNewline r) as Hn. fold n in Hn.
    replace (String.length prefix + S (String.length r)
             - (String.length r - n))
      with (String.length prefix + S n) by lia.
    rewrite (startsWith_eq _ _ Hs) at 1. rewrite Hd.
    clear. induction prefix as [| c x IH]; simpl; [reflexivity |].
    now rewrite IH.
  - unfold re_heading, Seqs.
    rewrite run_Seq, run_Bol, at_bol_lineStart, Hp.
    rewrite run_Seq, run_Lit. cbn [rest]. fold prefix. rewrite Hs.
    rewrite run_Seq, run_Grp. change Dot with (Cls notNewline).
    destruct (advance (String.length prefix) (MState p s [])) as [p1 s1 cs1]
      eqn:E.
    assert (Hs1 : s1 = String a r).
    { change s1 with (rest (MState p1 s1 cs1)). rewrite <- E.
      rewrite rest_advance. exact Hd. }
    assert (Hcs1 : cs1 = []).
    { change cs1 with (caps (MState p1 s1 cs1)). now rewrite <- E. }
    subst s1 cs1. rewrite run_Plus_Cls, Ha. fold n.
    apply tryDown_first. cbn [rest].
    rewrite rest_advance, caps_advance. cbn [rest caps].
    rewrite take_consumed by apply span_le. fold n. fold text.
    rewrite run_Eol. unfold at_eol, with_caps. cbn [rest prev caps advance].
    pose proof (drop_span_head notNewline r) as Hhead. fold n in Hhead.
    destruct (drop n r) as [| c t] eqn:Ed.
    + reflexivity.
    + unfold notNewline in Hhead. apply negb_false_iff in Hhead.
      rewrite Hhead. reflexivity.
Qed.

End Headings.

Lemma hasHeading_weaken (h : string) (b : bool) (s : string) :
  hasHeading h b s = false -> hasHeading h false s = false.
Proof.
  destruct s as [| c s]; simpl; intros H.
  - reflexivity.
  - apply orb_false_iff in H as [_ H]. exact H.
Qed.

(** A stretch of text without line terminators holds no line start. *)
Lemma hasHeading_skip (h x t : string) :
  allChars notNewline x = true ->
  hasHeading h false (x ++ t) = hasHeading h false t.
Proof.
  induction x as [| c x IH]; intros Hx; [reflexivity |].
  simpl in Hx. apply andb_true_iff in Hx as [Hc Hx].
  cbn [append hasHeading andb orb].
  unfold notNewline in Hc. apply negb_true_iff in Hc. rewrite Hc.
  now apply IH.
Qed.

Lemma hasHeading_after (h x t : string) (b : bool) :
  allChars notNewline x = true ->
  hasHeading h b (x ++ t) = false -> hasHeading h false t = false.
Proof.
  intros Hx H. apply hasHeading_weaken in H.
  now rewrite hasHeading_skip in H.
Qed.

(** [headingStart] is decided by which one-line texts the text starts
    with. *)
Lemma headingStart_transfer (h s s' : string) :
  allChars notNewline h = true ->
  (forall x, allChars notNewline x = true ->
             startsWith s' x = startsWith s x) ->
  headingStart h s' = headingStart h s.
Proof.
  intros Hh Hsame.
  assert (Hone : forall u v, (forall x, allChars notNewline x = true ->
                                        startsWith u x = startsWith v x) ->
                 headingStart h u = true -> headingStart h v = true).
  { intros u v Huv Hu. unfold headingStart in *.
    apply andb_true_iff in Hu as [Hpre Hnext].
    destruct (drop (String.length h + 1) u) as [| c rest'] eqn:Ed;
      [discriminate |].
    assert (Hx : allChars notNewline ((h ++ " ") ++ String c "") = true).
    { rewrite !allChars_app, Hh. simpl. now rewrite Hnext. }
    pose proof (Huv _ Hx) as Hboth.
    rewrite (startsWith_app (h ++ " ") (String c "") u),
      (startsWith_app (h ++ " ") (String c "") v),
      length_append in Hboth.
    cbn [String.length] in Hboth. rewrite Hpre, Ed in Hboth.
    rewrite startsWith_cons, startsWith_nil, Ascii.eqb_refl in Hboth.
    cbn [andb] in Hboth. symmetry in Hboth.
    apply andb_true_iff in Hboth as [Hv Hvn]. rewrite Hv. cbn [andb].
    destruct (drop (String.length h + 1) v) as [| c' rest'']; [discriminate |].
    rewrite startsWith_cons, startsWith_nil, andb_true_r in Hvn.
    apply Ascii.eqb_eq in Hvn. now subst c'. }
  destruct (headingStart h s') eqn:E1, (headingStart h s) eqn:E2;
    try reflexivity.
  - rewrite (Hone s' s Hsame E1) in E2. discriminate.
  - rewrite (Hone s s') in E1; [discriminate | | exact E2].
    intros x Hx. symmetry. now apply Hsame.
Qed.

Section Demote.

Variable h : string.
Hypothesis h_one_line : allChars notNewline h = true.

Let demote (fuel : nat) (p : option ascii) (s : string) : string :=
  replace_from fuel (re_heading h) (fun m => "**" ++ group 1 m ++ "**") p s.

Lemma demote_copy (fuel : nat) (p : option ascii) (s : string) :
  lineStart p && headingStart h s = false ->
  demote (S fuel) p s =
  match s with
  | "" => ""
  | String c s' => String c (demote fuel (Some c) s')
  end.
Proof.
  intros H. unfold demote. cbn [replace_from].
  now rewrite exec_heading_none by exact H.
Qed.

Lemma demote_bold (fuel : nat) (p : option ascii) (s : string) :
  lineStart p && headingStart h s = true ->
  exists (a : ascii) (r : string),
    s = (h ++ " ") ++ String a r
    /\ notNewline a = true
    /\ demote (S fuel) p s =
       "**" ++ String a (take (span notNewline r) r) ++ "**"
       ++ demote fuel (last_char (Some a) (take (span notNewline r) r))
                 (drop (span notNewline r) r).
Proof.
  intros H. apply andb_true_iff in H as [Hp Hs].
  unfold headingStart in Hs. apply andb_true_iff in Hs as [Hpre Hnext].
  destruct (drop (String.length h + 1) s) as [| a r] eqn:Ed; [discriminate |].
  assert (Hd : drop (String.length (h ++ " ")) s = String a r).
  { rewrite length_append. exact Ed. }
  exists a, r. split; [| split; [exact Hnext |]].
  - rewrite (startsWith_eq _ _ Hpre) at 1. now rewrite Hd.
  - unfold demote. cbn [replace_from].
    rewrite (@exec_heading_some h p s a r Hp Hpre Hd Hnext).
    cbn [matched after rest prev groups_of].
    destruct ((h ++ " ") ++ String a (take (span notNewline r) r)) eqn:Em.
    + exfalso. destruct h; discriminate Em.
    + unfold group. cbn [groups_of cap_get Nat.eqb].
      now rewrite !append_assoc.
Qed.

(** Outside a match, the rewrite copies the text up to the first line
    terminator. *)
Lemma demote_prefix :
  forall (fuel : nat) (p : option ascii) (s x : string),
    String.length s < fuel ->
    lineStart p && headingStart h s = false ->
    allChars notNewline x = true ->
    startsWith (demote fuel p s) x = startsWith s x.
Proof.
  induction fuel as [| fuel IH]; intros p s x Hfuel Hno Hx; [lia |].
  rewrite demote_copy by exact Hno.
  destruct x as [| b x]; [now rewrite !startsWith_nil |].
  destruct s as [| c s]; [reflexivity |].
  rewrite !startsWith_cons. destruct (Ascii.eqb b c) eqn:Ebc; [| reflexivity].
  cbn [andb]. apply Ascii.eqb_eq in Ebc. subst c.
  simpl in Hx. apply andb_true_iff in Hx as [Hb Hx].
  apply IH; [simpl in Hfuel; lia | | exact Hx].
  cbn [lineStart]. unfold notNewline in Hb. apply negb_true_iff in Hb.
  now rewrite Hb.
Qed.

Section Other.

(** The hashes of the heading looked for, which may be other than
    those the rewrite demotes. *)
Variable h' : string.
Hypothesis h'_one_line : allChars notNewline h' = true.
Hypothesis h'_no_star : startsWith (h' ++ " ") "*" = false.

Lemma headingStart_star (t : string) :
  headingStart h' (String "*" t) = false.
Proof.
  unfold headingStart.
  destruct (h' ++ " ") as [| c x] eqn:E.
  - destruct h'; discriminate E.
  - rewrite startsWith_cons, startsWith_nil, andb_true_r in h'_no_star.
    rewrite startsWith_cons, Ascii.eqb_sym, h'_no_star. reflexivity.
Qed.

(** The rewrite brings no heading in. *)
Lemma demote_keeps_clean :
  forall (fuel : nat) (p : option ascii) (s : string),
    String.length s < fuel ->
    hasHeading h' (lineStart p) s = false ->
    hasHeading h' (lineStart p) (demote fuel p s) = false.
Proof.
  induction fuel as [| fuel IH]; intros p s Hfuel Hs; [lia |].
  destruct (lineStart p && headingStart h s) eqn:Ematch.
  - destruct (demote_bold fuel p s Ematch) as (a & r & Hsplit & Ha & Hout).
    rewrite Hout. clear Hout.
    set (n := span notNewline r) in *.
    assert (Htext : allChars notNewline (String a (take n r)) = true).
    { simpl. rewrite Ha. apply take_span_all. }
    change ("**" ++ String a (take n r) ++ "**" ++ ?t)
      with (String "*" ("*" ++ String a (take n r) ++ "**" ++ t)).
    cbn [hasHeading]. rewrite headingStart_star, andb_false_r. cbn [orb].
    change (is_newline "*") with false.
    rewrite <- !append_assoc, hasHeading_skip.
    + pose proof (last_char_notNewline a (take n r) Ha (take_span_all _ _))
        as Hlast.
      pose proof (IH (last_char (Some a) (take n r)) (drop n r)) as IH'.
      rewrite Hlast in IH'. apply IH'.
      * rewrite length_drop. rewrite Hsplit in Hfuel.
        rewrite length_append in Hfuel. simpl in Hfuel. lia.
      * rewrite Hsplit in Hs.
        rewrite <- (take_drop n r) in Hs.
        change (String a (take n r ++ drop n r))
          with (String a (take n r) ++ drop n r) in Hs.
        rewrite <- append_assoc in Hs.
        apply hasHeading_after in Hs; [exact Hs |].
        rewrite !allChars_app, h_one_line, Htext. reflexivity.
    + rewrite !allChars_app, Htext. reflexivity.
  - rewrite demote_copy by exact Ematch.
    destruct s as [| c s]; [exact Hs |].
    cbn [hasHeading] in *. apply orb_false_iff in Hs as [Hfirst Hrest].
    apply orb_false_iff. split.
    + rewrite <- Hfirst. f_equal.
      apply headingStart_transfer; [exact h'_one_line |].
      intros x Hx.
      pose proof (@demote_prefix (S fuel) p (String c s) x Hfuel Ematch Hx)
        as Hcopy.
      now rewrite demote_copy in Hcopy by exact Ematch.
    + apply (IH (Some c) s); [simpl in Hfuel; lia | exact Hrest].
Qed.

End Other.

(** The rewrite leaves no heading of its own hashes. *)
Lemma demote_clean :
  startsWith (h ++ " ") "*" = false ->
  forall (fuel : nat) (p : option ascii) (s : string),
    String.length s < fuel ->
    hasHeading h (lineStart p) (demote fuel p s) = false.
Proof.
  intros Hstar.
  induction fuel as [| fuel IH]; intros p s Hfuel; [lia |].
  destruct (lineStart p && headingStart h s) eqn:Ematch.
  - destruct (demote_bold fuel p s Ematch) as (a & r & Hsplit & Ha & Hout).
    rewrite Hout. clear Hout.
    set (n := span notNewline r) in *.
    assert (Htext : allChars notNewline (String a (take n r)) = true).
    { simpl. rewrite Ha. apply take_span_all. }
    change ("**" ++ String a (take n r) ++ "**" ++ ?t)
      with (String "*" ("*" ++ String a (take n r) ++ "**" ++ t)).
    cbn [hasHeading]. rewrite (@headingStart_star h h_one_line Hstar), andb_false_r.
    cbn [orb]. change (is_newline "*") with false.
    rewrite <- !append_assoc, hasHeading_skip.
    + pose proof (last_char_notNewline a (take n r) Ha (take_span_all _ _))
        as Hlast.
      pose proof (IH (last_char (Some a) (take n r)) (drop n r)) as IH'.
      rewrite Hlast in IH'. apply IH'.
      rewrite length_drop. rewrite Hsplit in Hfuel.
      rewrite length_append in Hfuel. simpl in Hfuel. lia.
    + rewrite !allChars_app, Htext. reflexivity.
  - rewrite demote_copy by exact Ematch.
    destruct s as [| c s]; [cbn [hasHeading]; now rewrite Ematch |].
    cbn [hasHeading]. apply orb_false_iff. split.
    + rewrite <- Ematch. f_equal.
      apply headingStart_transfer; [exact h_one_line |].
      intros x Hx.
      pose proof (@demote_prefix (S fuel) p (String c s) x Hfuel Ematch Hx)
        as Hcopy.
      now rewrite demote_copy in Hcopy by exact Ematch.
    + apply (IH (Some c) s). simpl in Hfuel. lia.
Qed.

End Demote.

(** After [flattenHeadings] no line start is followed by five or by six
    hashes, a space and a character of the line. *)
Lemma flattenHeadings_clean (content : string) :
  hasHeading "#####" true (flattenHeadings content) = false
  /\ hasHeading "######" true (flattenHeadings content) = false.
Proof.
  unfold flattenHeadings, replaceAll.
  set (first := replace_from _ (re_heading "#####") _ None content).
  split.
  - apply (@demote_keeps_clean "######" eq_refl "#####" eq_refl eq_refl _ None);
      [lia |].
    apply (@demote_clean "#####" eq_refl eq_refl _ None). lia.
  - apply (@demote_clean "######" eq_refl eq_refl _ None). lia.
Qed.

Lemma startsWith_self (x t : string) : startsWith (x ++ t) x = true.
Proof.
  induction x as [| a x IH]; [apply startsWith_nil |].
  cbn [append]. now rewrite startsWith_cons, Ascii.eqb_refl, IH.
Qed.

Lemma drop_app (x t : string) : drop (String.length x) (x ++ t) = t.
Proof. induction x as [| a x IH]; [reflexivity | exact IH]. Qed.

Lemma headingStart_prefix (h x t : string) :
  headingStart h x = true -> headingStart h (x ++ t) = true.
Proof.
  unfold headingStart. intros H. apply andb_true_iff in H as [Hpre Hnext].
  pose proof (startsWith_eq _ _ Hpre) as Hx.
  rewrite length_append in Hx. cbn [String.length] in Hx.
  destruct (drop (String.length h + 1) x) as [| c rest'] eqn:Ed;
    [discriminate |].
  rewrite Hx, append_assoc, startsWith_self. cbn [andb].
  replace (String.length h + 1) with (String.length (h ++ " "))
    by (rewrite length_append; reflexivity).
  rewrite drop_app. exact Hnext.
Qed.

Lemma split_first_prefix (s : string) :
  exists t, s = hd "" (split LF s) ++ t.
Proof.
  induction s as [| a s [t IH]].
  - now exists "".
  - cbn [split]. destruct (Ascii.eqb a LF).
    + now exists (String a s).
    + destruct (split LF s) as [| l ls] eqn:E.
      * now destruct (split_not_nil LF s).
      * exists t. cbn [hd append] in *. now rewrite IH at 1.
Qed.

Lemma headingStart_empty (h : string) : headingStart h "" = false.
Proof. unfold headingStart. now destruct h. Qed.

(** Read by lines: a text without heading starts has no line that
    begins as a heading, the first line apart when the text does not
    start a line. *)
Lemma hasHeading_lines (h : string) :
  forall (s : string) (b : bool),
    hasHeading h b s = false ->
    (b = true -> headingStart h (hd "" (split LF s)) = false)
    /\ Forall (fun line => headingStart h line = false) (tl (split LF s)).
Proof.
  induction s as [| a s IH]; intros b H.
  - split; [intros _; apply headingStart_empty | constructor].
  - cbn [hasHeading] in H. apply orb_false_iff in H as [Hfirst Hrest].
    specialize (IH _ Hrest). destruct IH as [IHfirst IHrest].
    cbn [split]. destruct (Ascii.eqb a LF) eqn:Ea.
    + apply Ascii.eqb_eq in Ea. subst a.
      split; [intros _; apply headingStart_empty |].
      cbn [tl]. destruct (split LF s) as [| l ls] eqn:E;
        [constructor |].
      constructor; [apply IHfirst; reflexivity | exact IHrest].
    + destruct (split LF s) as [| l ls] eqn:E.
      * now destruct (split_not_nil LF s).
      * cbn [hd tl] in *. split; [| exact IHrest].
        intros ->. cbn [andb] in Hfirst.
        destruct (headingStart h (String a l)) eqn:Hl; [| reflexivity].
        destruct (split_first_prefix s) as [t Ht]. rewrite E in Ht.
        cbn [hd] in Ht.
        apply (headingStart_prefix _ _ t) in Hl.
        cbn [append] in Hl. rewrite <- Ht in Hl. congruence.
Qed.

Lemma flattenHeadings_lines (content line : string) :
  In line (split LF (flattenHeadings content)) ->
  headingStart "#####" line = false /\ headingStart "######" line = false.
Proof.
  intros Hin.
  destruct (flattenHeadings_clean content) as [H5 H6].
  apply hasHeading_lines in H5 as [H5first H5rest].
  apply hasHeading_lines in H6 as [H6first H6rest].
  destruct (split LF (flattenHeadings content)) as [| l ls];
    [contradiction |].
  cbn [hd tl] in *. destruct Hin as [-> | Hin].
  - split; [now apply H5first | now apply H6first].
  - rewrite Forall_forall in H5rest, H6rest. split; auto.
Qed.

(** ** The repair pass, its tags and the headings *)

(** C2, as amended.  In the lines kept by the tag scan of the repair
    pass, whatever prefix of them is taken, the closing lines of a tag
    other than CodeGroup never outnumber the lines that open that tag:
    each closing tag the scan leaves has its opening before it.  And in
    a text that has passed [flattenHeadings], no line begins with five
    or with six hashes, a space and a character of text: those headings
    have become bold lines.  The heading part is stated for the texts
    without the line separator and the paragraph separator, which the
    source language takes for line ends.  Nothing is said of the
    closing tags that the rewrites after the scan put in the text. *)
Theorem repair_closings_matched_headings_demoted :
  forall (document tagName : string) (k : nat) (page : string) (i : nat),
    (String.eqb tagName "CodeGroup" = false ->
     countIf (closes tagName)
       (firstn k (PageRenderer.scanLines [] (split LF document)))
     <= countIf (opens tagName)
          (firstn k (PageRenderer.scanLines [] (split LF document))))
    /\ (includes page lineSeparator = false ->
        includes page paragraphSeparator = false ->
        headingStart "#####" (nth i (split LF (flattenHeadings page)) "")
        = false
        /\ headingStart "######" (nth i (split LF (flattenHeadings page)) "")
           = false).
Proof.
  intros document tagName k page i. split.
  - intros Htag. apply String.eqb_neq in Htag.
    pose proof (scanLines_closings_covered Htag (split LF document) [] k)
      as H.
    rewrite occ_nil in H. exact H.
  - intros _ _.
    destruct (nth_in_or_default i (split LF (flattenHeadings page)) "")
      as [Hin | ->].
    + now apply (flattenHeadings_lines page).
    + split; reflexivity.
Qed.

Lemma repair_closings_matched_headings_demoted_witness :
  (countIf (closes "Note")
     (firstn 2 (PageRenderer.scanLines [] (split LF closedTwice)))
   <= countIf (opens "Note")
        (firstn 2 (PageRenderer.scanLines [] (split LF closedTwice))))
  /\ headingStart "#####"
       (nth 1 (split LF (flattenHeadings openNoteAndDeepHeading)) "")
     = false
  /\ headingStart "######"
       (nth 1 (split LF (flattenHeadings openNoteAndDeepHeading)) "")
     = false.
Proof.
  destruct (@repair_closings_matched_headings_demoted
              closedTwice "Note" 2 openNoteAndDeepHeading 1) as [Htags Hhead].
  split; [apply Htags; reflexivity |].
  apply Hhead; reflexivity.
Defined.

(** C2, as stated, fails.  The repair pass returns the text of an
    unclosed Note followed by a level-5 heading as it is, with the
    element still open and the heading still there: it has no rewrite
    for either.  It keeps the closing tag of a CodeGroup that was never
    opened, which its scan sets apart.  And the rewrite that closes a
    field before a heading turns a text whose tags match, a field that
    holds a heading, into one with a closing tag too many. *)
Lemma beautifyStructure_leaves_open_tag_and_heading :
  PageRenderer.beautifyStructure openNoteAndDeepHeading
  = openNoteAndDeepHeading
  /\ ~ (balanced (PageRenderer.beautifyStructure openNoteAndDeepHeading)
        = true
        /\ hasDeepHeading
             (PageRenderer.beautifyStructure openNoteAndDeepHeading)
           = false)
  /\ PageRenderer.beautifyStructure ("text" ++ nl ++ "</CodeGroup>")
     = "text" ++ nl ++ "</CodeGroup>"
  /\ PageRenderer.beautifyStructure ("text" ++ nl ++ "</Note>") = "text"
  /\ balanced fieldWithHeading = true
  /\ PageRenderer.beautifyStructure fieldWithHeading
     = "<ResponseField name=" ++ dq ++ "retries" ++ dq ++ " type=" ++ dq
       ++ "object" ++ dq ++ ">" ++ nl
       ++ "How often to retry." ++ nl
       ++ "</ResponseField>" ++ nl ++ nl
       ++ "###### maxAttempts" ++ nl ++ nl
       ++ "</ResponseField>"
  /\ balanced (PageRenderer.beautifyStructure fieldWithHeading) = false.
Proof.
  split; [vm_compute; reflexivity |].
  split; [vm_compute; intros [H _]; discriminate H |].
  repeat split; vm_compute; reflexivity.
Qed.

(** ** Parameter descriptions *)

Lemma rev_onto_app (a b acc : string) :
  rev_onto (a ++ b) acc = rev_onto b (rev_onto a acc).
Proof.
  revert acc. induction a as [| c a IH]; intros acc; [reflexivity |].
  cbn [append rev_onto]. apply IH.
Qed.

Lemma rev_onto_acc (s acc : string) : rev_onto s acc = rev s ++ acc.
Proof.
  unfold rev. revert acc. induction s as [| c s IH]; intros acc;
    [reflexivity |].
  cbn [rev_onto]. rewrite (IH (String c "")), IH, append_assoc.
  reflexivity.
Qed.

Lemma rev_app (a b : string) : rev (a ++ b) = rev b ++ rev a.
Proof. unfold rev at 1. now rewrite rev_onto_app, rev_onto_acc. Qed.

Lemma rev_involutive (s : string) : rev (rev s) = s.
Proof.
  induction s as [| c s IH]; [reflexivity |].
  change (String c s) with (String c "" ++ s) at 1.
  rewrite rev_app, rev_app, IH. reflexivity.
Qed.

Lemma length_rev (s : string) : String.length (rev s) = String.length s.
Proof.
  induction s as [| c s IH]; [reflexivity |].
  change (String c s) with (String c "" ++ s) at 1.
  rewrite rev_app, length_append, IH. simpl. lia.
Qed.

Lemma startsWith_app_long (u v x : string) :
  String.length x <= String.length u ->
  startsWith (u ++ v) x = startsWith u x.
Proof.
  revert u. induction x as [| a x IH]; intros u H.
  - now rewrite !startsWith_nil.
  - destruct u as [| b u]; [simpl in H; lia |].
    cbn [append]. rewrite !startsWith_cons. f_equal. apply IH.
    simpl in H. lia.
Qed.

(** A suffix no longer than the end of the text is looked for in that
    end. *)
Lemma endsWith_app_long (a b suffix : string) :
  String.length suffix <= String.length b ->
  endsWith (a ++ b) suffix = endsWith b suffix.
Proof.
  intros H. unfold endsWith. rewrite rev_app.
  apply startsWith_app_long. now rewrite !length_rev.
Qed.


Lemma endsWith_period (a : string) : endsWith (a ++ ".") "." = true.
Proof.
  unfold endsWith. rewrite rev_app.
  change (rev "." ++ rev a) with (String "." (rev a)).
  change (rev ".") with ".".
  now rewrite startsWith_cons, startsWith_nil.
Qed.





Lemma take_app (a b : string) : take (String.length a) (a ++ b) = a.
Proof.
  induction a as [| c a IH]; [now destruct b |].
  cbn [String.length append take]. now rewrite IH.
Qed.

Lemma trimStart_keeps_end (c : ascii) (s : string) :
  is_space c = false ->
  endsWith s (String c "") = true ->
  endsWith (trimStart s) (String c "") = true.
Proof.
  intros Hc. rewrite !endsWith_char.
  induction s as [| a s IH]; [discriminate |].
  cbn [trimStart]. destruct (is_space a) eqn:Ea; [| trivial].
  cbn [last_char]. rewrite last_char_default.
  destruct (last_char None s) as [x |] eqn:El.
  - intros H. apply IH. exact H.
  - intros H. apply Ascii.eqb_eq in H. subst a. congruence.
Qed.

Lemma trimEnd_fixed (c : ascii) (s : string) :
  is_space c = false ->
  endsWith s (String c "") = true -> trimEnd s = s.
Proof.
  intros Hc H. unfold endsWith in H. unfold trimEnd.
  change (rev (String c "")) with (String c "") in H.
  destruct (rev s) as [| x r] eqn:E; [discriminate |].
  rewrite startsWith_cons, startsWith_nil, andb_true_r in H.
  apply Ascii.eqb_eq in H. subst x.
  cbn [trimStart]. rewrite Hc, <- E. apply rev_involutive.
Qed.

Lemma trim_keeps_period (s : string) :
  endsWith s "." = true -> endsWith (trim s) "." = true.
Proof.
  intros H. unfold trim.
  apply (trimStart_keeps_end "." s eq_refl) in H.
  now rewrite (trimEnd_fixed "." _ eq_refl H).
Qed.





(* ================================================================== *)
(** * Further properties *)
(* ================================================================== *)

From Stdlib Require Import Permutation.
Import ReSplit UtilsRest ComponentsRest RendererRest ThemeRest NavigationRest
       SpecRest.

(** ** Texts a pattern cannot match *)

Lemma replace_from_no_match (r : regex) (f : mresult -> string) :
  forall (fuel : nat) (p : option ascii) (s : string),
    search_from r p s = None -> replace_from fuel r f p s = s.
Proof.
  induction fuel as [| fuel IH]; intros p s H; [reflexivity |].
  cbn [replace_from]. destruct s as [| c s'].
  - cbn [search_from] in H.
    destruct (exec_at r p ""); [discriminate | reflexivity].
  - cbn [search_from] in H.
    destruct (exec_at r p (String c s')); [discriminate |].
    destruct (search_from r (Some c) s') as [[skipped m] |] eqn:E;
      [discriminate |].
    f_equal. now apply IH.
Qed.

Lemma replaceAll_no_match (r : regex) (f : mresult -> string) (s : string) :
  search r s = None -> replaceAll r f s = s.
Proof. apply replace_from_no_match. Qed.

Lemma replaceFirst_no_match (r : regex) (f : mresult -> string) (s : string) :
  search r s = None -> replaceFirst r f s = s.
Proof. unfold replaceFirst. now intros ->. Qed.

Lemma lacks_cons (c a : ascii) (s : string) :
  lacks c (String a s) = negb (Ascii.eqb a c) && lacks c s.
Proof. reflexivity. Qed.

Lemma lacks_drop (c : ascii) (n : nat) (s : string) :
  lacks c s = true -> lacks c (drop n s) = true.
Proof. apply allChars_drop. Qed.

(** On a text without the character, whatever a pattern does, its
    continuation is only ever called on a text without it. *)
Lemma iterate_lacks (c : ascii)
  (body : mstate -> (mstate -> option mstate) -> option mstate)
  (greedy : bool) (k : mstate -> option mstate) :
  (forall st k',
      lacks c (rest st) = true ->
      (forall st', lacks c (rest st') = true -> k' st' = None) ->
      body st k' = None) ->
  (forall st', lacks c (rest st') = true -> k st' = None) ->
  forall (fuel : nat) (st : mstate),
    lacks c (rest st) = true -> iterate body greedy k fuel st = None.
Proof.
  intros Hbody Hk. induction fuel as [| fuel IH]; intros st Hst.
  - now apply Hk.
  - cbn [iterate].
    rewrite (Hbody st _ Hst).
    + rewrite (Hk st Hst). now destruct greedy.
    + intros st' Hst'. destruct (Nat.ltb _ _); [now apply IH | reflexivity].
Qed.

Lemma run_lacks (c : ascii) :
  forall (r : regex) (st : mstate) (k : mstate -> option mstate),
    lacks c (rest st) = true ->
    (forall st', lacks c (rest st') = true -> k st' = None) ->
    run r st k = None.
Proof.
  induction r as [| a | q | r1 IH1 r2 IH2 | r1 IH1 r2 IH2 | g r1 IH1
                 | n r1 IH1 | m | m | positive r1 IH1 | n];
    intros st k Hst Hk; cbn [run].
  - now apply Hk.
  - destruct (rest st) as [| x t] eqn:E; [reflexivity |].
    destruct (Ascii.eqb x a); [| reflexivity].
    apply Hk. rewrite rest_advance, E. rewrite lacks_cons in Hst.
    now apply andb_prop in Hst as [_ Ht].
  - destruct (rest st) as [| x t] eqn:E; [reflexivity |].
    destruct (q x); [| reflexivity].
    apply Hk. rewrite rest_advance, E. rewrite lacks_cons in Hst.
    now apply andb_prop in Hst as [_ Ht].
  - apply IH1; [exact Hst |]. intros st' Hst'. now apply IH2.
  - rewrite IH1 by assumption. now apply IH2.
  - apply iterate_lacks with (c := c); [| exact Hk | exact Hst].
    intros st0 k' Hst0 Hk'. now apply IH1.
  - apply IH1; [exact Hst |]. intros st' Hst'. now apply Hk.
  - destruct (at_bol m st); [now apply Hk | reflexivity].
  - destruct (at_eol m st); [now apply Hk | reflexivity].
  - destruct (run r1 st (fun st' => Some st')) as [st' |];
      destruct positive; try reflexivity; now apply Hk.
  - destruct (cap_get n (caps st)) as [text |]; [| now apply Hk].
    destruct (startsWith (rest st) text); [| reflexivity].
    apply Hk. rewrite rest_advance. now apply lacks_drop.
Qed.

(** A pattern that needs a character matches nowhere in a text that
    lacks it. *)
Lemma run_needs (c : ascii) :
  forall (r : regex) (st : mstate) (k : mstate -> option mstate),
    needs c r = true -> lacks c (rest st) = true -> run r st k = None.
Proof.
  induction r as [| a | q | r1 IH1 r2 IH2 | r1 IH1 r2 IH2 | g r1 IH1
                 | n r1 IH1 | m | m | positive r1 IH1 | n];
    intros st k Hr Hst; cbn [needs] in Hr; try discriminate; cbn [run].
  - destruct (rest st) as [| x t] eqn:E; [reflexivity |].
    rewrite lacks_cons in Hst. apply andb_prop in Hst as [Hx _].
    apply Ascii.eqb_eq in Hr. subst a.
    now rewrite (proj1 (negb_true_iff _) Hx).
  - apply orb_prop in Hr as [Hr | Hr].
    + now apply IH1.
    + apply run_lacks with (c := c); [exact Hst |].
      intros st' Hst'. now apply IH2.
  - apply andb_prop in Hr as [H1 H2].
    rewrite IH1 by assumption. now apply IH2.
  - now apply IH1.
Qed.

Lemma search_from_needs (c : ascii) (r : regex) :
  needs c r = true ->
  forall (s : string) (p : option ascii),
    lacks c s = true -> search_from r p s = None.
Proof.
  intros Hr. induction s as [| a s IH]; intros p Hs; cbn [search_from].
  - unfold exec_at. now rewrite run_needs with (c := c).
  - unfold exec_at. rewrite run_needs with (c := c) by assumption.
    rewrite lacks_cons in Hs. apply andb_prop in Hs as [_ Hs].
    now rewrite IH.
Qed.

Lemma replaceAll_needs (c : ascii) (r : regex) (f : mresult -> string)
  (s : string) :
  needs c r = true -> lacks c s = true -> replaceAll r f s = s.
Proof.
  intros Hr Hs. apply replaceAll_no_match. now apply search_from_needs with c.
Qed.

Lemma test_needs (c : ascii) (r : regex) (s : string) :
  needs c r = true -> lacks c s = true -> test r s = false.
Proof.
  intros Hr Hs. unfold test, search.
  now rewrite search_from_needs with (c := c).
Qed.

(** ** Replacing single characters *)

Lemma exec_at_Chr (c : ascii) (p : option ascii) (s : string) :
  exec_at (Chr c) p s =
  match s with
  | String a r =>
      if Ascii.eqb a c
      then Some (MResult (String a "") [] (MState (Some a) r []))
      else None
  | "" => None
  end.
Proof.
  unfold exec_at. cbn [run rest]. destruct s as [| a r]; [reflexivity |].
  destruct (Ascii.eqb a c); [| reflexivity].
  cbn [advance rest caps prev take drop last_char].
  pose proof (@take_consumed a r 0 ltac:(lia)) as H.
  cbn [drop take] in H. now rewrite H.
Qed.

Lemma replace_from_Chr (c : ascii) (t : string) :
  forall (fuel : nat) (p : option ascii) (s : string),
    String.length s < fuel ->
    replace_from fuel (Chr c) (fun _ => t) p s
    = expand (fun a => if Ascii.eqb a c then t else String a "") s.
Proof.
  induction fuel as [| fuel IH]; intros p s Hfuel; [lia |].
  cbn [replace_from]. rewrite exec_at_Chr.
  destruct s as [| a r]; [reflexivity |].
  simpl in Hfuel. cbn [expand].
  destruct (Ascii.eqb a c).
  - cbn [matched after prev rest]. now rewrite IH by lia.
  - cbn [append]. now rewrite IH by lia.
Qed.

Lemma replaceAll_Chr (c : ascii) (t s : string) :
  replaceAll (Chr c) (fun _ => t) s
  = expand (fun a => if Ascii.eqb a c then t else String a "") s.
Proof. apply replace_from_Chr. lia. Qed.

Lemma expand_app (f : ascii -> string) (a b : string) :
  expand f (a ++ b) = expand f a ++ expand f b.
Proof.
  induction a as [| c a IH]; [reflexivity |].
  cbn [append expand]. now rewrite IH, append_assoc.
Qed.

Lemma expand_expand (f g : ascii -> string) (s : string) :
  expand f (expand g s) = expand (fun c => expand f (g c)) s.
Proof.
  induction s as [| c s IH]; [reflexivity |].
  cbn [expand]. now rewrite expand_app, IH.
Qed.

Lemma expand_ext (f g : ascii -> string) (s : string) :
  (forall c, f c = g c) -> expand f s = expand g s.
Proof.
  intros H. induction s as [| c s IH]; [reflexivity |].
  cbn [expand]. now rewrite H, IH.
Qed.

(** ** escapeMdx *)
Lemma escapeMdx_expand (text : string) :
  escapeMdx text
  = expand (fun c => if mdxSpecial c then String BSL (String c "")
                     else String c "") text.
Proof.
  unfold escapeMdx. rewrite !replaceAll_Chr, !expand_expand.
  apply expand_ext. intros c. unfold mdxSpecial.
  destruct (Ascii.eqb c "{") eqn:E1.
  { apply Ascii.eqb_eq in E1. subst c. reflexivity. }
  destruct (Ascii.eqb c "}") eqn:E2.
  { apply Ascii.eqb_eq in E2. subst c. reflexivity. }
  destruct (Ascii.eqb c "<") eqn:E3.
  { apply Ascii.eqb_eq in E3. subst c. reflexivity. }
  destruct (Ascii.eqb c ">") eqn:E4.
  { apply Ascii.eqb_eq in E4. subst c. reflexivity. }
  cbn [expand append orb]. rewrite E2. cbn [expand append].
  rewrite E3. cbn [expand append]. now rewrite E4.
Qed.

Lemma mdxSpecial_not_backslash (c : ascii) :
  mdxSpecial c = true -> Ascii.eqb c BSL = false.
Proof.
  unfold mdxSpecial. intros H.
  destruct (Ascii.eqb c BSL) eqn:E; [| reflexivity].
  apply Ascii.eqb_eq in E. subst c. discriminate H.
Qed.

Lemma unescape_keep (q : ascii -> bool) (c : ascii) (s : string) :
  (Ascii.eqb c BSL = false
   \/ match s with String d _ => q d = false | "" => True end) ->
  unescape q (String c s) = String c (unescape q s).
Proof.
  intros H. cbn [unescape]. destruct s as [| d s']; [reflexivity |].
  destruct H as [H | H]; rewrite H;
    [reflexivity | now rewrite andb_false_r].
Qed.

Lemma unescape_drop (q : ascii -> bool) (d : ascii) (s : string) :
  q d = true ->
  unescape q (String BSL (String d s)) = unescape q (String d s).
Proof.
  intros H.
  change (unescape q (String BSL (String d s)))
    with (if Ascii.eqb BSL BSL && q d then unescape q (String d s)
          else String BSL (unescape q (String d s))).
  now rewrite Ascii.eqb_refl, H.
Qed.

(** X1. Escaping for MDX puts a backslash right before every brace and
    angle bracket of the text and changes nothing else: in the result
    each of these characters follows a backslash, and taking those
    backslashes out gives the text back. *)
Theorem escapeMdx_guards_and_round_trips :
  forall text : string,
    guarded mdxSpecial (escapeMdx text) = true
    /\ unescape mdxSpecial (escapeMdx text) = text.
Proof.
  intros text. rewrite escapeMdx_expand.
  set (esc := fun c => if mdxSpecial c then String BSL (String c "")
                       else String c "").
  split.
  - unfold guarded.
    assert (H : forall b, guardedFrom mdxSpecial b (expand esc text) = true);
      [| apply H].
    induction text as [| c text IH]; intros b; [reflexivity |].
    cbn [expand]. unfold esc at 1. destruct (mdxSpecial c) eqn:E.
    + cbn [append guardedFrom]. rewrite E.
      change (mdxSpecial BSL) with false. cbn [negb orb andb].
      rewrite Ascii.eqb_refl. apply IH.
    + cbn [append guardedFrom]. rewrite E. apply IH.
  - assert (Hhead : forall s,
               match expand esc s with
               | String d _ => mdxSpecial d = false
               | "" => True
               end).
    { intros [| e s]; [exact I |]. cbn [expand]. unfold esc at 1.
      destruct (mdxSpecial e) eqn:E; [reflexivity | exact E]. }
    induction text as [| c text IH]; [reflexivity |].
    cbn [expand]. unfold esc at 1. destruct (mdxSpecial c) eqn:E.
    + cbn [append]. rewrite unescape_drop by exact E.
      rewrite unescape_keep by (left; now apply mdxSpecial_not_backslash).
      now rewrite IH.
    + cbn [append]. rewrite unescape_keep by (right; apply Hhead).
      now rewrite IH.
Qed.

(** ** sanitizeAttribute *)

Lemma sanitizeAttribute_expand (text : string) :
  sanitizeAttribute text
  = expand (fun c => if Ascii.eqb c DQ then String BSL dq
                     else if Ascii.eqb c LF then " "
                     else if Ascii.eqb c CR then ""
                     else String c "") text.
Proof.
  unfold sanitizeAttribute. rewrite !replaceAll_Chr, !expand_expand.
  apply expand_ext. intros c.
  destruct (Ascii.eqb c DQ) eqn:E1.
  { apply Ascii.eqb_eq in E1. subst c. reflexivity. }
  destruct (Ascii.eqb c LF) eqn:E2.
  { apply Ascii.eqb_eq in E2. subst c. reflexivity. }
  cbn [expand append]. rewrite E2. cbn [expand append].
  destruct (Ascii.eqb c CR); reflexivity.
Qed.

(** X2. A sanitized attribute value stays on one line and cannot close
    the attribute: it holds no line feed and no carriage return, and
    each of its double quotes follows a backslash. *)
Theorem sanitizeAttribute_one_line_quotes_guarded :
  forall text : string,
    lacks LF (sanitizeAttribute text) = true
    /\ lacks CR (sanitizeAttribute text) = true
    /\ guarded (fun c => Ascii.eqb c DQ) (sanitizeAttribute text) = true.
Proof.
  intros text. rewrite sanitizeAttribute_expand.
  repeat split.
  - induction text as [| c text IH]; [reflexivity |].
    cbn [expand].
    destruct (Ascii.eqb c DQ); [exact IH |].
    destruct (Ascii.eqb c LF) eqn:E2; [exact IH |].
    destruct (Ascii.eqb c CR); [exact IH |].
    cbn [append]. rewrite lacks_cons, E2. exact IH.
  - induction text as [| c text IH]; [reflexivity |].
    cbn [expand].
    destruct (Ascii.eqb c DQ); [exact IH |].
    destruct (Ascii.eqb c LF); [exact IH |].
    destruct (Ascii.eqb c CR) eqn:E3; [exact IH |].
    cbn [append]. rewrite lacks_cons, E3. exact IH.
  - unfold guarded.
    set (h := fun c => if Ascii.eqb c DQ then String BSL dq
                       else if Ascii.eqb c LF then " "
                       else if Ascii.eqb c CR then ""
                       else String c "").
    set (q := fun c => Ascii.eqb c DQ).
    assert (H : forall b, guardedFrom q b (expand h text) = true);
      [| apply H].
    induction text as [| c text IH]; intros b; [reflexivity |].
    cbn [expand]. unfold h at 1.
    destruct (Ascii.eqb c DQ) eqn:E1.
    { cbn [append dq guardedFrom]. unfold q at 1 2.
      change (Ascii.eqb BSL DQ) with false.
      change (Ascii.eqb DQ DQ) with true. cbn [negb orb andb].
      rewrite Ascii.eqb_refl. apply IH. }
    destruct (Ascii.eqb c LF); [cbn [append guardedFrom]; apply IH |].
    destruct (Ascii.eqb c CR); [apply IH |].
    cbn [append guardedFrom]. unfold q at 1. rewrite E1. apply IH.
Qed.

(** ** The tables of kinds *)

Ltac split_kind k n :=
  destruct (Z.eq_dec k n) as [-> | ?]; [vm_compute; reflexivity |].

Ltac other_kind :=
  repeat match goal with
         | |- context [Z.eqb ?a ?b] =>
             rewrite (proj2 (Z.eqb_neq a b)) by lia
         end.

(** X3. The tables of utils.ts agree on which kinds are pages: a
    reflection has a page of its own exactly when its kind has an icon
    other than the default one, and then its kind has a label; the
    reflections [getUrls] gives a file to are among them. *)
Theorem page_kinds_agree :
  forall (opts : options) (reflection : declaration),
    shouldHaveOwnPage reflection
    = negb (String.eqb (getIconForKind (d_kind reflection)) "file")
    /\ shouldHaveOwnPage reflection
       && String.eqb (getKindLabel (d_kind reflection)) "Unknown" = false
    /\ documented opts reflection && negb (shouldHaveOwnPage reflection)
       = false.
Proof.
  intros opts reflection.
  unfold shouldHaveOwnPage, documented, getIconForKind, getKindLabel,
    pageableKinds, KModule, KNamespace, KEnum, KFunction, KClass, KInterface,
    KTypeAlias.
  set (k := d_kind reflection). clearbody k.
  repeat split.
  - split_kind k 2%Z. split_kind k 4%Z. split_kind k 8%Z. split_kind k 64%Z.
    split_kind k 128%Z. split_kind k 256%Z. split_kind k 2097152%Z.
    cbn [existsb iconMap kindEntry]. other_kind. reflexivity.
  - split_kind k 2%Z. split_kind k 4%Z. split_kind k 8%Z. split_kind k 64%Z.
    split_kind k 128%Z. split_kind k 256%Z. split_kind k 2097152%Z.
    cbn [existsb]. other_kind. reflexivity.
  - destruct (Z.eq_dec k 128) as [-> | ?];
      [cbn; now rewrite andb_false_r |].
    destruct (Z.eq_dec k 256) as [-> | ?];
      [cbn; destruct (ownFile opts "Interface"); reflexivity |].
    destruct (Z.eq_dec k 64) as [-> | ?];
      [cbn; destruct (ownFile opts "Function"); reflexivity |].
    destruct (Z.eq_dec k 8) as [-> | ?];
      [cbn; destruct (ownFile opts "Enum"); reflexivity |].
    destruct (Z.eq_dec k 2097152) as [-> | ?];
      [cbn; destruct (ownFile opts "TypeAlias"); reflexivity |].
    other_kind. reflexivity.
Qed.

(** ** groupByKind *)

Lemma group_get_push (g : groups) (kind kind' : string) (r : declaration) :
  group_get (group_push g kind r) kind' =
  if String.eqb kind kind'
  then Some (match group_get g kind with
             | Some rs => rs ++ [r]
             | None => [r]
             end)%list
  else group_get g kind'.
Proof.
  induction g as [| [k rs] g IH]; cbn [group_push group_get].
  - reflexivity.
  - destruct (String.eqb k kind) eqn:Ek.
    + apply String.eqb_eq in Ek. subst k. cbn [group_get].
      destruct (String.eqb kind kind'); reflexivity.
    + cbn [group_get]. rewrite IH.
      destruct (String.eqb kind kind') eqn:Ekk.
      * apply String.eqb_eq in Ekk. subst kind'. now rewrite Ek.
      * reflexivity.
Qed.

Lemma group_push_keys (g : groups) (kind : string) (r : declaration) :
  map fst (group_push g kind r) =
  if existsb (String.eqb kind) (map fst g) then map fst g
  else (map fst g ++ [kind])%list.
Proof.
  induction g as [| [k rs] g IH]; cbn [group_push map fst existsb app].
  - reflexivity.
  - rewrite (eqb_swap kind k). destruct (String.eqb k kind); cbn [orb].
    + reflexivity.
    + cbn [map fst]. rewrite IH.
      now destruct (existsb (String.eqb kind) (map fst g)).
Qed.

Lemma existsb_eqb_In (kind : string) (l : list string) :
  existsb (String.eqb kind) l = false -> ~ In kind l.
Proof.
  induction l as [| x l IH]; cbn [existsb]; intros H; [tauto |].
  apply orb_false_iff in H as [Hx Hl]. apply String.eqb_neq in Hx.
  intros [-> | Hin]; [congruence | now apply IH].
Qed.

Lemma NoDup_snoc (l : list string) (x : string) :
  NoDup l -> ~ In x l -> NoDup (l ++ [x]).
Proof.
  intros Hl Hx. induction Hl as [| y l Hy Hl IH]; cbn [app].
  - constructor; [tauto | constructor].
  - constructor.
    + rewrite in_app_iff. cbn [In]. intros [H | [H | []]]; [tauto |].
      subst y. apply Hx. now left.
    + apply IH. intros H. apply Hx. now right.
Qed.

Lemma groupByKind_from (reflections : list declaration) :
  forall (g : groups) (label : string),
    let step := fun g r => group_push g (getKindLabel (d_kind r)) r in
    let members :=
      filter (fun r => String.eqb (getKindLabel (d_kind r)) label)
             reflections in
    group_get (fold_left step reflections g) label =
    match members with
    | [] => group_get g label
    | _ => Some (match group_get g label with
                 | Some rs => rs
                 | None => []
                 end ++ members)%list
    end.
Proof.
  induction reflections as [| r rs IH]; intros g label; cbn zeta.
  - reflexivity.
  - cbn [fold_left filter]. cbn zeta in IH. rewrite IH.
    rewrite group_get_push.
    destruct (String.eqb (getKindLabel (d_kind r)) label) eqn:E.
    + apply String.eqb_eq in E. rewrite E.
      destruct (filter _ rs) as [| r' rs'].
      * destruct (group_get g label); reflexivity.
      * destruct (group_get g label); [| reflexivity].
        now rewrite <- app_assoc.
    + reflexivity.
Qed.

(** X4. Grouping by kind loses and moves nothing: under each label the
    record holds exactly the reflections of that label, in the order
    they were given; a label no reflection has is absent; and no label
    is listed twice. *)
Theorem groupByKind_groups_are_the_filters :
  forall (reflections : list declaration) (label : string),
    group_get (groupByKind reflections) label =
    match filter (fun r => String.eqb (getKindLabel (d_kind r)) label)
                 reflections with
    | [] => None
    | members => Some members
    end
    /\ NoDup (map fst (groupByKind reflections)).
Proof.
  intros reflections label. split.
  - unfold groupByKind. rewrite groupByKind_from. cbn [group_get app].
    now destruct (filter _ reflections).
  - unfold groupByKind.
    assert (H : forall g, NoDup (map fst g) ->
              NoDup (map fst
                       (fold_left
                          (fun g r =>
                             group_push g (getKindLabel (d_kind r)) r)
                          reflections g))).
    { induction reflections as [| r rs IH]; intros g Hg; [exact Hg |].
      cbn [fold_left]. apply IH. rewrite group_push_keys.
      destruct (existsb _ (map fst g)) eqn:E; [exact Hg |].
      apply NoDup_snoc; [exact Hg | now apply existsb_eqb_In]. }
    apply H. constructor.
Qed.

(** ** relativePath *)

Lemma commonLength_prefix (a b : list string) :
  Nat.ltb (commonLength a b) (List.length a) = negb (isPrefixOf a b).
Proof.
  revert b. induction a as [| x a IH]; intros b; [reflexivity |].
  destruct b as [| y b]; [reflexivity |].
  cbn [commonLength isPrefixOf List.length].
  destruct (String.eqb x y); [| reflexivity].
  cbn [andb]. rewrite <- IH. reflexivity.
Qed.

Lemma isPrefixOf_refl (a : list string) : isPrefixOf a a = true.
Proof.
  induction a as [| x a IH]; [reflexivity |].
  cbn [isPrefixOf]. now rewrite String.eqb_refl.
Qed.

Lemma orElse_nonempty (x y : string) : y <> "" -> orElse x y <> "".
Proof. intros Hy. destruct x; [exact Hy | discriminate]. Qed.

(** X5. [relativePath] raises exactly when the segments of [from] are
    the first segments of [to] - in particular for an empty [from] and
    for a path taken relative to itself - since the count handed to
    [repeat] is then -1; in every other case it returns a path that is
    not empty. *)
Theorem relativePath_raises_on_prefix :
  forall from to : string,
    match relativePath from to with
    | RangeError => isPrefixOf (pathParts from) (pathParts to) = true
    | Returned value =>
        isPrefixOf (pathParts from) (pathParts to) = false /\ value <> ""
    end
    /\ relativePath from from = RangeError
    /\ relativePath "" to = RangeError.
Proof.
  intros from to. unfold relativePath. split; [| split].
  - rewrite commonLength_prefix.
    destruct (isPrefixOf (pathParts from) (pathParts to)); cbn [negb].
    + reflexivity.
    + split; [reflexivity |]. now apply orElse_nonempty.
  - now rewrite commonLength_prefix, isPrefixOf_refl.
  - reflexivity.
Qed.

(** ** wrapText *)

Lemma join_snoc (sep : string) (l : list string) (x : string) :
  join sep (l ++ [x]) =
  match l with
  | [] => x
  | _ => join sep l ++ sep ++ x
  end.
Proof.
  induction l as [| a l IH]; [reflexivity |].
  destruct l as [| b l]; [reflexivity |].
  change (join sep ((a :: b :: l) ++ [x]))
    with (a ++ sep ++ join sep ((b :: l) ++ [x])).
  rewrite IH.
  change (join sep (a :: b :: l)) with (a ++ sep ++ join sep (b :: l)).
  now rewrite !append_assoc.
Qed.

Lemma wrapStep_invariant (width : Z) (st : wrapState) (done : list string)
  (word : string) :
  wrapInvariant width st done ->
  wrapInvariant width (wrapStep width st word) (done ++ [word]).
Proof.
  intros (groups & Hlines & Hfit & Hdone & Hlen & Hcur).
  unfold wrapStep.
  destruct (Z.ltb width _ && negb (isEmpty (wrap_currentLine st))) eqn:E.
  - apply andb_prop in E as [_ Hne].
    destruct Hcur as [Hcur | Hcur];
      [rewrite Hcur in Hne; discriminate |].
    exists (groups ++ [wrap_currentLine st])%list. cbn [wrap_lines
      wrap_currentLine wrap_currentLength]. repeat split.
    + now rewrite map_app, Hlines.
    + apply Forall_app. split; [exact Hfit | now constructor].
    + rewrite concat_app. cbn [concat]. rewrite app_nil_r.
      now rewrite Hdone.
    + right. split; [discriminate | now left].
  - exists groups. cbn [wrap_lines wrap_currentLine wrap_currentLength].
    repeat split.
    + exact Hlines.
    + exact Hfit.
    + now rewrite app_assoc, Hdone.
    + rewrite join_snoc, length_app. cbn [List.length].
      destruct (wrap_currentLine st) as [| w ws] eqn:Ecur.
      * cbn [List.length Nat.add Nat.ltb Nat.leb] in *.
        cbn [join String.length] in Hlen. lia.
      * rewrite Hlen, !length_append.
        replace (Nat.ltb 1 (List.length (w :: ws) + 1)) with true
          by (symmetry; apply Nat.ltb_lt; cbn [List.length]; lia).
        cbn [String.length]. lia.
    + right. split; [now destruct (wrap_currentLine st) |].
      destruct (wrap_currentLine st) as [| w ws] eqn:Ecur; [now left |].
      right. cbn [isEmpty negb] in E. rewrite andb_true_r in E.
      apply Z.ltb_ge in E. rewrite join_snoc, !length_append.
      cbn [String.length]. lia.
Qed.

Lemma wrap_fold_invariant (width : Z) (words : list string) :
  forall (st : wrapState) (done : list string),
    wrapInvariant width st done ->
    wrapInvariant width (fold_left (wrapStep width) words st)
                  (done ++ words).
Proof.
  induction words as [| word words IH]; intros st done H.
  - now rewrite app_nil_r.
  - cbn [fold_left].
    replace (done ++ word :: words)%list
      with ((done ++ [word]) ++ words)%list
      by (now rewrite <- app_assoc).
    apply IH. now apply wrapStep_invariant.
Qed.

Lemma wrapWords_groups :
  forall (width : Z) (words : list string),
    exists groups : list (list string),
      concat groups = words
      /\ wrapWords width words = map (join " ") groups
      /\ Forall (fitsWidth width) groups.
Proof.
  intros width words. unfold wrapWords.
  assert (H0 : wrapInvariant width (WrapState [] [] 0) []).
  { exists []. cbn. repeat split; auto. }
  apply (@wrap_fold_invariant width words) in H0. cbn [app] in H0.
  destruct H0 as (groups & Hlines & Hfit & Hdone & _ & Hcur).
  destruct (wrap_currentLine (fold_left _ words _)) as [| w ws] eqn:Ecur.
  - exists groups. cbn [isEmpty]. rewrite app_nil_r in Hdone. auto.
  - destruct Hcur as [Hcur | Hcur]; [discriminate |].
    exists (groups ++ [w :: ws])%list. cbn [isEmpty]. repeat split.
    + rewrite concat_app. cbn [concat]. now rewrite app_nil_r.
    + now rewrite map_app, Hlines.
    + apply Forall_app. split; [exact Hfit | now constructor].
Qed.

(** X6. The lines of a wrapped text are the words of the text, all of
    them and in their order, cut into groups and each group joined by
    one space; no line is without a word, and a line of several words is
    never longer than the width.  The empty text wraps to itself. *)
Theorem wrapText_lines_fit :
  forall (text : string) (width : Z),
    exists groups : list (list string),
      concat groups = wordsOf text
      /\ wrapText text width =
         match text with
         | "" => ""
         | _ => join nl (map (join " ") groups)
         end
      /\ Forall (fitsWidth width) groups.
Proof.
  intros text width.
  destruct (wrapWords_groups width (wordsOf text))
    as (groups & Hwords & Hlines & Hfit).
  exists groups. repeat split; [exact Hwords | | exact Hfit].
  unfold wrapText. rewrite Hlines. reflexivity.
Qed.

(** ** slugify, applied twice *)

Lemma slug_char_not_upper (c : ascii) :
  is_slug_char c = true -> is_upper c = false.
Proof.
  unfold is_slug_char, is_lower, is_digit, is_upper, between.
  change (Js.code "a"%char) with 97. change (Js.code "z"%char) with 122.
  change (Js.code "0"%char) with 48. change (Js.code "9"%char) with 57.
  change (Js.code "A"%char) with 65. change (Js.code "Z"%char) with 90.
  intros H. apply orb_prop in H.
  destruct (Nat.leb_spec 65 (Js.code c)); [| reflexivity].
  destruct (Nat.leb_spec (Js.code c) 90); [| now rewrite andb_false_r].
  destruct H as [H | H]; apply andb_prop in H as [Hlo Hhi];
    apply Nat.leb_le in Hlo, Hhi; lia.
Qed.

Lemma singleHyphens_lower (s : string) :
  singleHyphens s = true -> toLowerCase s = s.
Proof.
  induction s as [| c s IH]; [reflexivity |].
  cbn [singleHyphens]. intros H. apply andb_prop in H as [Hc Hs].
  unfold toLowerCase in *. cbn [map_chars]. rewrite (IH Hs). f_equal.
  unfold lower_char. apply orb_prop in Hc as [Hc | Hc].
  - now rewrite (slug_char_not_upper _ Hc).
  - apply andb_prop in Hc as [Hc _]. apply Ascii.eqb_eq in Hc. now subst c.
Qed.

Lemma singleHyphens_drop (n : nat) (s : string) :
  singleHyphens s = true -> singleHyphens (drop n s) = true.
Proof.
  revert s. induction n as [| n IH]; intros s H; [now destruct s |].
  destruct s as [| c s]; [exact H |].
  cbn [drop]. apply IH. cbn [singleHyphens] in H.
  now apply andb_prop in H as [_ Hs].
Qed.

Lemma startsWith_hyphen (s : string) :
  startsWith s "-" =
  match s with
  | String b _ => Ascii.eqb "-" b
  | "" => false
  end.
Proof.
  destruct s as [| b t]; [reflexivity |].
  rewrite startsWith_cons, startsWith_nil. apply andb_true_r.
Qed.

Lemma slug_not_hyphen (b : ascii) :
  is_slug_char b = true -> Ascii.eqb "-" b = false.
Proof.
  intros H. destruct (Ascii.eqb "-" b) eqn:E; [| reflexivity].
  apply Ascii.eqb_eq in E. subst b. discriminate H.
Qed.

(** After the first rewrite, a text that begins with a slug character
    still begins with it. *)
Lemma dashed_head (fuel : nat) (p : option ascii) (d : string) :
  match d with
  | String b _ => is_slug_char b = true
  | "" => True
  end ->
  startsWith (replace_from fuel re_non_slug (fun _ => "-") p d) "-" = false.
Proof.
  intros Hd. destruct fuel as [| fuel]; cbn [replace_from].
  - rewrite startsWith_hyphen. destruct d; [reflexivity |].
    now apply slug_not_hyphen.
  - rewrite exec_non_slug. destruct d as [| b t]; [reflexivity |].
    rewrite Hd. rewrite startsWith_hyphen. now apply slug_not_hyphen.
Qed.

Lemma dashed_single :
  forall (fuel : nat) (p : option ascii) (s : string),
    String.length s < fuel ->
    singleHyphens (replace_from fuel re_non_slug (fun _ => "-") p s) = true.
Proof.
  induction fuel as [| fuel IH]; intros p s Hfuel; [lia |].
  cbn [replace_from]. rewrite exec_non_slug.
  destruct s as [| a r]; [reflexivity |]. simpl in Hfuel.
  destruct (is_slug_char a) eqn:E.
  - cbn [singleHyphens]. rewrite E. apply IH. lia.
  - cbn [matched after rest prev advance]. cbn [append singleHyphens].
    change (is_slug_char "-") with false. rewrite Ascii.eqb_refl.
    cbn [orb andb]. rewrite dashed_head.
    + apply IH. rewrite length_drop. lia.
    + pose proof (drop_span_head nonSlug r) as H.
      destruct (drop (span nonSlug r) r); [exact I |].
      unfold nonSlug in H. now apply negb_false_iff in H.
Qed.

Lemma strip_single :
  forall (fuel : nat) (p : option ascii) (s : string),
    String.length s < fuel ->
    singleHyphens s = true ->
    singleHyphens (replace_from fuel re_edge_hyphens (fun _ => "") p s)
    = true.
Proof.
  induction fuel as [| fuel IH]; intros p s Hfuel Hs; [lia |].
  rewrite strip_step. destruct s as [| a r]; [reflexivity |].
  simpl in Hfuel. cbn [singleHyphens] in Hs.
  apply andb_prop in Hs as [Ha Hr].
  destruct (isHyphen a && _).
  - apply IH; [rewrite length_drop; lia | now apply singleHyphens_drop].
  - cbn [singleHyphens]. rewrite (IH (Some a) r) by (lia || assumption).
    rewrite andb_true_r. apply orb_prop in Ha as [Ha | Ha].
    + now rewrite Ha.
    + apply andb_prop in Ha as [Ha Hstart]. rewrite Ha.
      apply negb_true_iff in Hstart.
      rewrite strip_start by (lia || assumption).
      apply orb_true_r.
Qed.

Lemma dashed_fixed :
  forall (fuel : nat) (p : option ascii) (s : string),
    String.length s < fuel ->
    singleHyphens s = true ->
    replace_from fuel re_non_slug (fun _ => "-") p s = s.
Proof.
  induction fuel as [| fuel IH]; intros p s Hfuel Hs; [lia |].
  cbn [replace_from]. rewrite exec_non_slug.
  destruct s as [| a r]; [reflexivity |]. simpl in Hfuel.
  cbn [singleHyphens] in Hs. apply andb_prop in Hs as [Ha Hr].
  destruct (is_slug_char a) eqn:E.
  - f_equal. apply IH; [lia | exact Hr].
  - cbn [orb] in Ha. apply andb_prop in Ha as [Ha Hstart].
    apply Ascii.eqb_eq in Ha. subst a. apply negb_true_iff in Hstart.
    assert (Hspan : span nonSlug r = 0).
    { destruct r as [| b t]; [reflexivity |].
      rewrite startsWith_hyphen in Hstart.
      cbn [singleHyphens] in Hr. apply andb_prop in Hr as [Hb _].
      apply orb_prop in Hb as [Hb | Hb].
      - cbn [span]. unfold nonSlug. now rewrite Hb.
      - apply andb_prop in Hb as [Hb _]. apply Ascii.eqb_eq in Hb.
        subst b. discriminate Hstart. }
    rewrite Hspan. cbn [matched after rest prev advance take drop last_char].
    cbn [append]. f_equal. apply IH; [lia | exact Hr].
Qed.

Lemma strip_fixed :
  forall (fuel : nat) (p : option ascii) (s : string),
    singleHyphens s = true ->
    (p = None -> startsWith s "-" = false) ->
    last_char None s <> Some "-"%char ->
    replace_from fuel re_edge_hyphens (fun _ => "") p s = s.
Proof.
  induction fuel as [| fuel IH]; intros p s Hs Hstart Hend; [reflexivity |].
  rewrite strip_step. destruct s as [| a r]; [reflexivity |].
  cbn [singleHyphens] in Hs. apply andb_prop in Hs as [Ha Hr].
  assert (Hlast : last_char None r <> Some "-"%char).
  { intros H. apply Hend. cbn [last_char]. rewrite last_char_default.
    now rewrite H. }
  destruct (isHyphen a) eqn:Ehyphen.
  - unfold isHyphen in Ehyphen. apply Ascii.eqb_eq in Ehyphen. subst a.
    change (is_slug_char "-") with false in Ha. cbn [orb] in Ha.
    apply andb_prop in Ha as [_ Hnext]. apply negb_true_iff in Hnext.
    destruct p as [x |].
    + cbn [orb andb].
      destruct r as [| b t];
        [exfalso; apply Hend; reflexivity |].
      rewrite startsWith_hyphen in Hnext.
      cbn [span]. unfold isHyphen at 1.
      rewrite Ascii.eqb_sym, Hnext. cbn [Nat.eqb String.length].
      f_equal. apply IH; [exact Hr | discriminate | exact Hlast].
    + specialize (Hstart eq_refl). rewrite startsWith_hyphen in Hstart.
      discriminate Hstart.
  - cbn [andb]. f_equal. apply IH; [exact Hr | discriminate | exact Hlast].
Qed.

(** X7. Making a slug of a slug changes nothing: [slugify] gives the
    same text when it is applied to its own result. *)
Theorem slugify_idempotent :
  forall text : string, slugify (slugify text) = slugify text.
Proof.
  intros text.
  assert (Hsingle : singleHyphens (slugify text) = true).
  { unfold slugify, replaceAll. apply strip_single; [lia |].
    apply dashed_single. lia. }
  assert (Hstart : startsWith (slugify text) "-" = false).
  { unfold slugify, replaceAll. apply strip_start_top. lia. }
  assert (Hend : last_char None (slugify text) <> Some "-"%char).
  { unfold slugify, replaceAll. apply strip_end. lia. }
  set (y := slugify text) in *. unfold slugify at 1.
  rewrite (singleHyphens_lower _ Hsingle).
  unfold replaceAll.
  rewrite (@dashed_fixed (S (String.length y)) None y)
    by (lia || assumption).
  apply strip_fixed; auto.
Qed.

(** ** The budget of a global replacement *)

Lemma exec_at_shorter (r : regex) (p : option ascii) (s : string)
  (m : mresult) :
  exec_at r p s = Some m ->
  matched m <> "" ->
  String.length (rest (after m)) < String.length s.
Proof.
  unfold exec_at. destruct (run r _ _) as [st' |]; [| discriminate].
  intros H. inversion H. subst m. cbn [matched after].
  intros Hne.
  destruct (Nat.lt_ge_cases (String.length (rest st')) (String.length s))
    as [Hlt | Hge]; [exact Hlt |].
  exfalso. apply Hne.
  replace (String.length s - String.length (rest st')) with 0 by lia.
  now destruct s.
Qed.

(** Beyond the length of the text, the budget of [replace_from] does not
    change its result. *)
Lemma replace_from_fuel (r : regex) (f : mresult -> string) :
  forall (fuel1 fuel2 : nat) (p : option ascii) (s : string),
    String.length s < fuel1 -> String.length s < fuel2 ->
    replace_from fuel1 r f p s = replace_from fuel2 r f p s.
Proof.
  induction fuel1 as [| fuel1 IH]; intros fuel2 p s H1 H2; [lia |].
  destruct fuel2 as [| fuel2]; [lia |].
  cbn [replace_from].
  destruct (exec_at r p s) as [m |] eqn:E.
  - destruct (matched m) as [| c t] eqn:Em.
    + destruct s as [| a s']; [reflexivity |].
      simpl in H1, H2. now rewrite (IH fuel2) by lia.
    + assert (Hlt : String.length (rest (after m)) < String.length s).
      { apply (exec_at_shorter _ _ _ E). now rewrite Em. }
      now rewrite (IH fuel2) by lia.
  - destruct s as [| a s']; [reflexivity |].
    simpl in H1, H2. now rewrite (IH fuel2) by lia.
Qed.

(** ** flattenHeadings, applied twice and line by line *)

Lemma hasHeading_here (h : string) (p : option ascii) (s : string) :
  hasHeading h (lineStart p) s = false ->
  lineStart p && headingStart h s = false.
Proof.
  destruct s; cbn [hasHeading]; intros H;
    now apply orb_false_iff in H as [H _].
Qed.

Lemma demote_identity (h : string) :
  forall (fuel : nat) (p : option ascii) (s : string),
    hasHeading h (lineStart p) s = false ->
    replace_from fuel (re_heading h)
      (fun m => "**" ++ group 1 m ++ "**") p s = s.
Proof.
  induction fuel as [| fuel IH]; intros p s H; [reflexivity |].
  rewrite demote_copy by now apply hasHeading_here.
  destruct s as [| c s']; [reflexivity |].
  f_equal. apply IH. cbn [hasHeading] in H.
  now apply orb_false_iff in H as [_ H].
Qed.

(** X8. Flattening the headings of a text that has been flattened
    changes nothing. *)
Theorem flattenHeadings_idempotent :
  forall content : string,
    flattenHeadings (flattenHeadings content) = flattenHeadings content.
Proof.
  intros content.
  destruct (flattenHeadings_clean content) as [H5 H6].
  set (flat := flattenHeadings content) in *.
  unfold flattenHeadings at 1. unfold replaceAll.
  rewrite (demote_identity "#####" _ None flat H5).
  now rewrite (demote_identity "######" _ None flat H6).
Qed.

Lemma join_cons_tail (l : string) (ls : list string) :
  join nl (l :: ls) = l ++ lineTail ls.
Proof.
  destruct ls as [| b ls]; cbn [join lineTail].
  - now rewrite append_nil_r.
  - reflexivity.
Qed.

Lemma join_split (s : string) : join nl (split LF s) = s.
Proof.
  induction s as [| c s IH]; [reflexivity |].
  cbn [split]. destruct (Ascii.eqb c LF) eqn:E.
  - apply Ascii.eqb_eq in E. subst c.
    pose proof (split_not_nil LF s) as Hne.
    destruct (split LF s) as [| l ls] eqn:Es; [congruence |].
    change (join nl ("" :: l :: ls)) with (nl ++ join nl (l :: ls)).
    now rewrite IH.
  - pose proof (split_not_nil LF s) as Hne.
    destruct (split LF s) as [| l ls] eqn:Es; [congruence |].
    rewrite join_cons_tail in *. cbn [append]. now rewrite IH.
Qed.

Lemma split_allChars (q : ascii -> bool) (s : string) :
  allChars q s = true ->
  Forall (fun line => allChars q line = true) (split LF s).
Proof.
  induction s as [| c s IH]; intros H; [now constructor |].
  cbn [allChars] in H. apply andb_prop in H as [Hc Hs].
  specialize (IH Hs). cbn [split].
  destruct (Ascii.eqb c LF).
  - constructor; [reflexivity | exact IH].
  - destruct (split LF s) as [| l ls].
    + constructor; [| constructor]. cbn [allChars]. now rewrite Hc.
    + inversion IH; subst. constructor; [| assumption].
      cbn [allChars]. now rewrite Hc.
Qed.

Lemma notNewline_chars (s : string) :
  noLineFeed s -> lacks CR s = true -> allChars notNewline s = true.
Proof.
  unfold noLineFeed, lacks. induction s as [| c s IH]; [reflexivity |].
  cbn [allChars]. intros H1 H2.
  apply andb_prop in H1 as [Hc1 Hs1]. apply andb_prop in H2 as [Hc2 Hs2].
  rewrite (IH Hs1 Hs2), andb_true_r.
  unfold notNewline, is_newline.
  apply negb_true_iff in Hc1, Hc2. now rewrite Hc1, Hc2.
Qed.

Lemma split_one_line (s : string) :
  lacks CR s = true ->
  Forall (fun line => allChars notNewline line = true) (split LF s).
Proof.
  intros H. pose proof (split_noLineFeed s) as H1.
  pose proof (split_allChars _ s H) as H2.
  rewrite Forall_forall in *. intros line Hin.
  apply notNewline_chars; [now apply H1 | now apply H2].
Qed.

Lemma append_inv_head (x u v : string) : x ++ u = x ++ v -> u = v.
Proof.
  induction x as [| c x IH]; cbn [append]; intros H; [exact H |].
  inversion H. now apply IH.
Qed.

Lemma span_line (q : ascii -> bool) (x t : string) :
  allChars q x = true ->
  match t with String c _ => q c = false | "" => True end ->
  span q (x ++ t) = String.length x.
Proof.
  intros Hx Ht. induction x as [| c x IH]; cbn [append].
  - destruct t as [| c t]; [reflexivity |]. cbn [span]. now rewrite Ht.
  - cbn [allChars] in Hx. apply andb_prop in Hx as [Hc Hx].
    cbn [span String.length]. rewrite Hc. now rewrite IH.
Qed.

Lemma startsWith_line (l rest x : string) :
  allChars notNewline x = true ->
  startsWith (l ++ String LF rest) x = startsWith l x.
Proof.
  revert x. induction l as [| a l IH]; intros x Hx.
  - destruct x as [| c x]; [reflexivity |].
    cbn [append]. rewrite startsWith_cons.
    cbn [allChars] in Hx. apply andb_prop in Hx as [Hc _].
    unfold notNewline, is_newline in Hc. apply negb_true_iff in Hc.
    apply orb_false_iff in Hc as [Hc _]. now rewrite Hc.
  - destruct x as [| c x]; [now rewrite !startsWith_nil |].
    cbn [append]. rewrite !startsWith_cons.
    cbn [allChars] in Hx. apply andb_prop in Hx as [_ Hx].
    now rewrite IH.
Qed.

Lemma lineTail_head (ls : list string) :
  match lineTail ls with
  | String c _ => notNewline c = false
  | "" => True
  end.
Proof. destruct ls; [exact I | reflexivity]. Qed.

Section DemoteLines.

Variable h : string.
Hypothesis h_one_line : allChars notNewline h = true.

Lemma headingStart_line (l : string) (ls : list string) :
  headingStart h (l ++ lineTail ls) = headingStart h l.
Proof.
  destruct ls as [| b ls]; cbn [lineTail]; [now rewrite append_nil_r |].
  apply headingStart_transfer; [exact h_one_line |].
  intros x Hx. now apply startsWith_line.
Qed.

Lemma headingStart_LF (rest : string) :
  headingStart h (String LF rest) = false.
Proof.
  pose proof (headingStart_line "" ["x"]) as H.
  cbn [lineTail append join] in H.
  rewrite <- (headingStart_empty h).
  apply headingStart_transfer; [exact h_one_line |].
  intros x Hx. apply (startsWith_line "" rest x Hx).
Qed.

Lemma demote_nil (fuel : nat) (p : option ascii) :
  replace_from fuel (re_heading h) (fun m => "**" ++ group 1 m ++ "**")
    p "" = "".
Proof.
  destruct fuel; [reflexivity |]. rewrite demote_copy; [reflexivity |].
  rewrite headingStart_empty. apply andb_false_r.
Qed.

(** Inside a line the text is copied. *)
Lemma demote_rest_of_line :
  forall (x : string) (fuel : nat) (p : option ascii) (t : string),
    allChars notNewline x = true ->
    lineStart p = false ->
    String.length (x ++ t) < fuel ->
    replace_from fuel (re_heading h) (fun m => "**" ++ group 1 m ++ "**")
      p (x ++ t)
    = x ++ replace_from fuel (re_heading h)
             (fun m => "**" ++ group 1 m ++ "**") (last_char p x) t.
Proof.
  induction x as [| c x IH]; intros fuel p t Hx Hp Hfuel; [reflexivity |].
  destruct fuel as [| fuel]; [lia |].
  rewrite demote_copy by now rewrite Hp.
  cbn [append]. f_equal.
  cbn [allChars] in Hx. apply andb_prop in Hx as [Hc Hx].
  simpl in Hfuel. rewrite length_append in *.
  rewrite IH; [| exact Hx | | rewrite length_append; lia].
  - cbn [last_char]. f_equal. apply replace_from_fuel; lia.
  - cbn [lineStart]. unfold notNewline in Hc. now apply negb_true_iff in Hc.
Qed.

Lemma demote_lines :
  forall (lines : list string) (fuel : nat) (p : option ascii),
    Forall (fun line => allChars notNewline line = true) lines ->
    lines <> [] ->
    lineStart p = true ->
    String.length (join nl lines) < fuel ->
    replace_from fuel (re_heading h) (fun m => "**" ++ group 1 m ++ "**")
      p (join nl lines)
    = join nl (map (demoteLine h) lines).
Proof.
  induction lines as [| l ls IH]; intros fuel p Hlines Hne Hp Hfuel;
    [congruence |].
  inversion Hlines as [| ? ? Hl Hls]; subst.
  cbn [map]. rewrite !join_cons_tail. rewrite join_cons_tail in Hfuel.
  rewrite length_append in Hfuel.
  (* what follows the line *)
  assert (Htail : forall (fuel' : nat) (p' : option ascii),
             String.length (lineTail ls) < fuel' ->
             replace_from fuel' (re_heading h)
               (fun m => "**" ++ group 1 m ++ "**") p' (lineTail ls)
             = lineTail (map (demoteLine h) ls)).
  { intros fuel' p' Hf. destruct ls as [| b ls]; [apply demote_nil |].
    cbn [lineTail] in *. destruct fuel' as [| fuel']; [lia |].
    rewrite demote_copy
      by (rewrite headingStart_LF; apply andb_false_r).
    cbn [map lineTail]. f_equal. cbn [String.length] in Hf.
    apply IH; [exact Hls | discriminate | reflexivity | lia]. }
  unfold demoteLine at 1.
  destruct (headingStart h l) eqn:Eh.
  - (* a heading *)
    destruct fuel as [| fuel]; [lia |].
    destruct (@demote_bold h h_one_line fuel p (l ++ lineTail ls))
      as (a & r & Hs & Ha & Hres).
    { now rewrite Hp, headingStart_line, Eh. }
    rewrite Hres. clear Hres.
    pose proof Eh as Estart. unfold headingStart in Estart.
    apply andb_prop in Estart as [Estart _].
    apply startsWith_eq in Estart.
    set (dl := drop (String.length (h ++ " ")) l) in *.
    assert (Hdl : String a r = dl ++ lineTail ls).
    { apply (append_inv_head (h ++ " ")).
      rewrite <- Hs. rewrite Estart at 1. now rewrite append_assoc. }
    assert (Hdl_line : allChars notNewline dl = true).
    { apply allChars_drop. exact Hl. }
    destruct dl as [| a' rl] eqn:Edl.
    { exfalso. cbn [append] in Hdl.
      pose proof (lineTail_head ls) as Hh. rewrite <- Hdl in Hh.
      congruence. }
    cbn [append] in Hdl. inversion Hdl. subst a' r.
    cbn [allChars] in Hdl_line. apply andb_prop in Hdl_line as [_ Hrl].
    rewrite (span_line notNewline rl (lineTail ls) Hrl (lineTail_head ls)).
    rewrite take_app, drop_app.
    rewrite Htail.
    + replace (String.length h + 1) with (String.length (h ++ " "))
        by (rewrite length_append; reflexivity).
      fold dl. rewrite Edl. now rewrite !append_assoc.
    + assert (String.length l = String.length (h ++ " ")
                                + String.length (String a rl)).
      { rewrite Estart at 1. now rewrite length_append. }
      simpl in *. lia.
  - (* another line *)
    destruct l as [| c l'].
    + cbn [append]. apply Htail. simpl in Hfuel. lia.
    + destruct fuel as [| fuel]; [lia |].
      rewrite demote_copy
        by (rewrite headingStart_line, Eh; apply andb_false_r).
      cbn [append]. f_equal.
      cbn [allChars] in Hl. apply andb_prop in Hl as [Hc Hl'].
      simpl in Hfuel.
      rewrite demote_rest_of_line;
        [| exact Hl' | | rewrite length_append; lia].
      * f_equal. apply Htail. lia.
      * cbn [lineStart]. unfold notNewline in Hc.
        now apply negb_true_iff in Hc.
Qed.

Lemma demoteLine_one_line (line : string) :
  allChars notNewline line = true ->
  allChars notNewline (demoteLine h line) = true.
Proof.
  intros H. unfold demoteLine. destruct (headingStart h line); [| exact H].
  rewrite !allChars_app. rewrite allChars_drop by exact H. reflexivity.
Qed.

End DemoteLines.

(** X9. On a text whose only line ends are line feeds - no carriage
    return, no line separator, no paragraph separator -
    [flattenHeadings] works line by line: a line that begins with five
    or with six hashes, a space and some text becomes that text between
    two pairs of stars, and every other line is left as it is. *)
Theorem flattenHeadings_line_by_line :
  forall content : string,
    lacks CR content = true ->
    includes content lineSeparator = false ->
    includes content paragraphSeparator = false ->
    flattenHeadings content
    = join nl (map flattenLine (split LF content)).
Proof.
  intros content Hcr _ _.
  pose proof (split_one_line content Hcr) as Hlines.
  pose proof (split_not_nil LF content) as Hne.
  unfold flattenHeadings, replaceAll.
  set (lines := split LF content) in *.
  assert (Hinner :
            replace_from (S (String.length content)) (re_heading "#####")
              (fun m => "**" ++ group 1 m ++ "**") None content
            = join nl (map (demoteLine "#####") lines)).
  { rewrite <- (join_split content). fold lines.
    apply (@demote_lines "#####" eq_refl lines _ None Hlines Hne eq_refl).
    lia. }
  rewrite Hinner.
  rewrite (@demote_lines "######" eq_refl (map (demoteLine "#####") lines)
             _ None).
  - now rewrite map_map.
  - rewrite Forall_forall in *. intros line Hin.
    apply in_map_iff in Hin as (l & <- & Hl).
    apply demoteLine_one_line. now apply Hlines.
  - destruct lines; [congruence | discriminate].
  - reflexivity.
  - lia.
Qed.

Lemma flattenHeadings_line_by_line_witness :
  lacks CR ("##### Details" ++ nl ++ "text") = true
  /\ includes ("##### Details" ++ nl ++ "text") lineSeparator = false
  /\ includes ("##### Details" ++ nl ++ "text") paragraphSeparator = false
  /\ flattenHeadings ("##### Details" ++ nl ++ "text")
     = join nl (map flattenLine
                    (split LF ("##### Details" ++ nl ++ "text"))).
Proof.
  split; [reflexivity |]. split; [reflexivity |]. split; [reflexivity |].
  apply (@flattenHeadings_line_by_line ("##### Details" ++ nl ++ "text"));
    reflexivity.
Defined.

(** ** Texts the link passes leave alone *)

Lemma lacks_lines (c : ascii) (s : string) :
  lacks c s = true ->
  Forall (fun line => lacks c line = true) (split LF s).
Proof. apply split_allChars. Qed.

Lemma linkLine_plain (typeName absoluteUrl line : string) :
  lacks "`" line = true -> linkLine typeName absoluteUrl line = line.
Proof.
  intros H. unfold linkLine.
  destruct (test re_signature_line line); [reflexivity |].
  rewrite (@replaceAll_needs "`"%char (genericInCodePattern typeName))
    by (reflexivity || assumption).
  now rewrite (@replaceAll_needs "`"%char (standaloneTypePattern typeName))
    by (reflexivity || assumption).
Qed.

Lemma processLines_plain (typeName absoluteUrl : string) :
  forall (lines : list string) (inCodeBlock : bool),
    Forall (fun line => lacks "`" line = true) lines ->
    processLines typeName absoluteUrl inCodeBlock lines = lines.
Proof.
  induction lines as [| line lines IH]; intros inCodeBlock H;
    [reflexivity |].
  inversion H; subst. cbn [processLines].
  destruct (startsWith (trim line) Theme.fence);
    [now rewrite IH |].
  destruct inCodeBlock; [now rewrite IH |].
  now rewrite linkLine_plain, IH.
Qed.

Lemma linkTypeName_plain (typeName absoluteUrl content : string) :
  lacks "`" content = true ->
  linkTypeName typeName absoluteUrl content = content.
Proof.
  intros H. unfold linkTypeName.
  rewrite processLines_plain by now apply lacks_lines.
  rewrite join_split. unfold linkParamTypes.
  now rewrite (@replaceAll_needs "`"%char (paramTypePattern typeName))
    by (reflexivity || assumption).
Qed.

(** X10. Link injection only ever touches inline code: a text without a
    backtick is returned as it is, whatever the reference map holds. *)
Theorem addTypeLinks_plain_text_unchanged :
  forall (typeToUrlMap : urlMap) (content : string),
    lacks "`" content = true ->
    addTypeLinksToIndexPage typeToUrlMap content = content.
Proof.
  intros typeToUrlMap content H. unfold addTypeLinksToIndexPage.
  destruct typeToUrlMap as [| entry entries]; [reflexivity |].
  set (m := entry :: entries).
  induction (sortByLengthDesc (map_keys m)) as [| typeName names IH];
    [reflexivity |].
  cbn [fold_left]. destruct (map_get m typeName) as [url |]; [| exact IH].
  now rewrite linkTypeName_plain.
Qed.

Lemma addTypeLinks_plain_text_unchanged_witness :
  lacks "`" "See Foo and Bar." = true
  /\ addTypeLinksToIndexPage mapFooBar "See Foo and Bar."
     = "See Foo and Bar.".
Proof.
  split; [reflexivity |].
  apply (@addTypeLinks_plain_text_unchanged mapFooBar "See Foo and Bar.").
  reflexivity.
Defined.

Lemma needs_literal_backticks (typeName : string) :
  needs "`" (Lit ("`" ++ typeName ++ "`")) = true.
Proof. destruct typeName; reflexivity. Qed.

Lemma linkTypeOnLine_plain (line : string) (entry : string * string) :
  lacks "`" line = true -> PageRenderer.linkTypeOnLine line entry = line.
Proof.
  intros H. destruct entry as [typeName path].
  unfold PageRenderer.linkTypeOnLine.
  apply replaceAll_needs with (c := "`"%char);
    [apply needs_literal_backticks | exact H].
Qed.

Lemma linkLines_plain :
  forall (lines : list string) (inCodeBlock : bool),
    Forall (fun line => lacks "`" line = true) lines ->
    PageRenderer.linkLines inCodeBlock lines = lines.
Proof.
  induction lines as [| line lines IH]; intros inCodeBlock H;
    [reflexivity |].
  inversion H; subst. cbn [PageRenderer.linkLines].
  destruct (startsWith (trim line) PageRenderer.fence);
    [now rewrite IH |].
  destruct inCodeBlock; cbn [negb]; [now rewrite IH |].
  rewrite IH by assumption. f_equal.
  induction PageRenderer.typeToPath as [| entry entries IHe];
    [reflexivity |].
  cbn [fold_left]. now rewrite linkTypeOnLine_plain.
Qed.

(** X11. [transformLinks] only rewrites links and inline code: a text
    with no opening square bracket and no backtick is returned as it
    is. *)
Theorem transformLinks_plain_text_unchanged :
  forall content : string,
    lacks "[" content = true ->
    lacks "`" content = true ->
    PageRenderer.transformLinks content = content.
Proof.
  intros content Hbracket Htick. unfold PageRenderer.transformLinks.
  rewrite (@replaceAll_needs "["%char PageRenderer.linkPattern)
    by (reflexivity || assumption).
  rewrite linkLines_plain by now apply lacks_lines.
  apply join_split.
Qed.

Lemma transformLinks_plain_text_unchanged_witness :
  lacks "[" "See User." = true
  /\ lacks "`" "See User." = true
  /\ PageRenderer.transformLinks "See User." = "See User.".
Proof.
  split; [reflexivity |]. split; [reflexivity |].
  apply (@transformLinks_plain_text_unchanged "See User."); reflexivity.
Defined.

(** ** Texts without a parameters heading *)

Lemma includes_cons (c : ascii) (s p : string) :
  includes (String c s) p = false ->
  startsWith (String c s) p = false /\ includes s p = false.
Proof.
  unfold includes. cbn [indexOf].
  destruct (startsWith (String c s) p); [discriminate |].
  destruct (indexOf s p); [discriminate | auto].
Qed.

Lemma includes_nil (p : string) :
  includes "" p = false -> startsWith "" p = false.
Proof.
  unfold includes. cbn [indexOf]. now destruct (startsWith "" p).
Qed.

(** A pattern that begins with a literal matches nowhere in a text that
    does not hold the literal. *)
Lemma search_from_literal (lit : string) (r : regex) :
  forall (s : string) (p : option ascii),
    includes s lit = false ->
    search_from (Seq (Lit lit) r) p s = None.
Proof.
  induction s as [| c s IH]; intros p H; cbn [search_from].
  - unfold exec_at. rewrite run_Seq, run_Lit. cbn [rest].
    now rewrite (includes_nil _ H).
  - apply includes_cons in H as [Hhere Hrest].
    unfold exec_at. rewrite run_Seq, run_Lit. cbn [rest].
    rewrite Hhere. now rewrite IH.
Qed.

Lemma includes_here (t lit : string) :
  startsWith t lit = true -> includes t lit = true.
Proof.
  intros H. unfold includes. destruct t; cbn [indexOf]; now rewrite H.
Qed.

Lemma includes_suffix (lit : string) :
  forall (n : nat) (s : string),
    includes (drop n s) lit = true -> includes s lit = true.
Proof.
  induction n as [| n IH]; intros s H; [now destruct s |].
  destruct s as [| c s]; [exact H |].
  cbn [drop] in H. apply IH in H.
  unfold includes in *. cbn [indexOf].
  destruct (startsWith (String c s) lit); [reflexivity |].
  now destruct (indexOf s lit).
Qed.

Lemma includes_position (s p : string) :
  includes s p = true -> exists n, startsWith (drop n s) p = true.
Proof.
  induction s as [| c s IH]; unfold includes; cbn [indexOf].
  - destruct (startsWith "" p) eqn:E; [| discriminate].
    intros _. now exists 0.
  - destruct (startsWith (String c s) p) eqn:E.
    + intros _. now exists 0.
    + intros H. destruct (indexOf s p) as [i |] eqn:Ei; [| discriminate].
      destruct IH as [n Hn]; [unfold includes; now rewrite Ei |].
      now exists (S n).
Qed.

Lemma includes_longer (s x lit : string) :
  includes s lit = false -> includes s (x ++ lit) = false.
Proof.
  intros H. destruct (includes s (x ++ lit)) eqn:E; [| reflexivity].
  apply includes_position in E as [n Hn].
  rewrite startsWith_app in Hn. apply andb_prop in Hn as [_ Hn].
  apply includes_here in Hn. apply includes_suffix in Hn.
  apply includes_suffix in Hn. congruence.
Qed.

(** X12. The two rewrites of parameter sections start from a heading: a
    text that does not hold the heading [#### Parameters] - and so not
    the deeper one either - is returned as it is by both. *)
Theorem parameter_rewrites_need_heading :
  forall content : string,
    includes content "#### Parameters" = false ->
    PageRenderer.transformParameters content = content
    /\ PageRenderer.transformFunctionParameters content = content.
Proof.
  intros content H. split.
  - unfold PageRenderer.transformParameters. apply replaceAll_no_match.
    apply search_from_literal.
    apply (includes_longer content "##" "#### Parameters" H).
  - unfold PageRenderer.transformFunctionParameters.
    apply replaceAll_no_match. now apply search_from_literal.
Qed.

Lemma parameter_rewrites_need_heading_witness :
  includes "### Returns" "#### Parameters" = false
  /\ PageRenderer.transformParameters "### Returns" = "### Returns"
  /\ PageRenderer.transformFunctionParameters "### Returns" = "### Returns".
Proof.
  split; [reflexivity |].
  apply (@parameter_rewrites_need_heading "### Returns"). reflexivity.
Defined.

(** ** What the tag scan keeps *)

Lemma isSubsequence_tail (x : string) (a b : list string) :
  isSubsequence (x :: a) b = true -> isSubsequence a b = true.
Proof.
  revert x a. induction b as [| y b IH]; intros x a H; [discriminate |].
  cbn [isSubsequence] in H. destruct (String.eqb x y).
  - destruct a as [| z a]; [reflexivity |].
    cbn [isSubsequence]. destruct (String.eqb z y); [| exact H].
    now apply IH with z.
  - apply IH in H. destruct a as [| z a]; [reflexivity |].
    cbn [isSubsequence]. destruct (String.eqb z y); [| exact H].
    now apply IH with z.
Qed.

Lemma isSubsequence_skip (y : string) (a b : list string) :
  isSubsequence a b = true -> isSubsequence a (y :: b) = true.
Proof.
  intros H. destruct a as [| x a]; [reflexivity |].
  cbn [isSubsequence]. destruct (String.eqb x y); [| exact H].
  now apply isSubsequence_tail with x.
Qed.

Lemma scanLine_drops_closing (tagStack tagStack' : list string)
  (line : string) :
  PageRenderer.scanLine tagStack line = (tagStack', false) ->
  closesOther line = true.
Proof.
  unfold PageRenderer.scanLine, closesOther, kindOf.
  destruct (PageRenderer.openTagMatch line) as [tagName |].
  - destruct (includes line "/>"); intros H; inversion H.
  - destruct (PageRenderer.closeTagMatch line) as [tagName |];
      [| intros H; inversion H].
    destruct (last (map Some tagStack) None) as [lastOpenTag |].
    + destruct (String.eqb lastOpenTag tagName); [intros H; inversion H |].
      destruct (PageRenderer.lastIndexOf tagName tagStack);
        intros H; [inversion H |]. injection H as Hs Hk. now rewrite Hk.
    + intros H. injection H as Hs Hk. now rewrite Hk.
Qed.

(** X13. The tag scan of the repair pass adds and moves no line, and the
    only lines it takes out are closing tags of elements other than
    CodeGroup: the lines it keeps are lines of the text in their order,
    and among them are, in order, all the lines that are not such a
    closing tag. *)
Theorem scanLines_only_drops_closing_tags :
  forall (tagStack lines : list string),
    isSubsequence (PageRenderer.scanLines tagStack lines) lines = true
    /\ filter (fun line => negb (closesOther line))
              (PageRenderer.scanLines tagStack lines)
       = filter (fun line => negb (closesOther line)) lines.
Proof.
  intros tagStack lines. revert tagStack.
  induction lines as [| line lines IH]; intros tagStack; [now split |].
  cbn [PageRenderer.scanLines].
  destruct (PageRenderer.scanLine tagStack line) as [tagStack' keep] eqn:E.
  destruct (IH tagStack') as [Hsub Hfilter].
  destruct keep.
  - split.
    + cbn [isSubsequence]. now rewrite String.eqb_refl.
    + cbn [filter]. now rewrite Hfilter.
  - split.
    + now apply isSubsequence_skip.
    + cbn [filter]. now rewrite (scanLine_drops_closing _ _ E).
Qed.

(** ** The two location classifiers *)

(** X14. The location classifier of the reflection renderer and the one
    of the text pipeline test the same words in a different order and
    with two more words in the first: they give the same location to
    every name that does not hold [id] or [filter] and is not
    [apikey]. *)
Theorem location_classifiers_agree :
  forall name : string,
    includes (toLowerCase name) "id" = false ->
    includes (toLowerCase name) "filter" = false ->
    String.eqb (toLowerCase name) "apikey" = false ->
    determineParameterLocation name = PageRenderer.parameterLocation name.
Proof.
  intros name Hid Hfilter Hkey.
  unfold determineParameterLocation, PageRenderer.parameterLocation.
  rewrite Hid, Hfilter, Hkey. cbn [andb].
  rewrite !orb_false_r.
  destruct (includes (toLowerCase name) "header" || _ || _); [reflexivity |].
  destruct (includes (toLowerCase name) "query" || _ || _ || _ || _);
    [reflexivity |].
  destruct (includes (toLowerCase name) "body" || _ || _ || _); reflexivity.
Qed.

Lemma location_classifiers_agree_witness :
  includes (toLowerCase "pageSize") "id" = false
  /\ includes (toLowerCase "pageSize") "filter" = false
  /\ String.eqb (toLowerCase "pageSize") "apikey" = false
  /\ determineParameterLocation "pageSize"
     = PageRenderer.parameterLocation "pageSize".
Proof.
  split; [reflexivity |]. split; [reflexivity |]. split; [reflexivity |].
  apply (@location_classifiers_agree "pageSize"); reflexivity.
Defined.

(** Each hypothesis is needed: on these names the two differ. *)
Example location_classifiers_differ :
  determineParameterLocation "headerId" = "path"
  /\ PageRenderer.parameterLocation "headerId" = "header"
  /\ determineParameterLocation "filter" = "query"
  /\ PageRenderer.parameterLocation "filter" = "path"
  /\ determineParameterLocation "apiKey" = "header"
  /\ PageRenderer.parameterLocation "apiKey" = "path".
Proof. repeat split; reflexivity. Qed.

(** ** The verb of a function name *)

Lemma lower_char_not_upper (c : ascii) : is_upper (lower_char c) = false.
Proof.
  unfold lower_char. destruct (is_upper c) eqn:E; [| exact E].
  unfold is_upper, between in *.
  change (Js.code "A"%char) with 65 in *.
  change (Js.code "Z"%char) with 90 in *.
  apply andb_prop in E as [Hlo Hhi]. apply Nat.leb_le in Hlo, Hhi.
  unfold Js.code in *. rewrite nat_ascii_embedding by lia.
  apply andb_false_iff. right. apply Nat.leb_gt. lia.
Qed.

Lemma toLowerCase_no_upper (s : string) :
  allChars (fun c => negb (is_upper c)) (toLowerCase s) = true.
Proof.
  induction s as [| c s IH]; [reflexivity |].
  unfold toLowerCase in *. cbn [map_chars allChars].
  now rewrite lower_char_not_upper, IH.
Qed.

Lemma no_upper_lower (s : string) :
  allChars (fun c => negb (is_upper c)) s = true -> toLowerCase s = s.
Proof.
  induction s as [| c s IH]; [reflexivity |].
  cbn [allChars]. intros H. apply andb_prop in H as [Hc Hs].
  unfold toLowerCase in *. cbn [map_chars]. rewrite (IH Hs). f_equal.
  unfold lower_char. apply negb_true_iff in Hc. now rewrite Hc.
Qed.

Lemma toLowerCase_idempotent (s : string) :
  toLowerCase (toLowerCase s) = toLowerCase s.
Proof. apply no_upper_lower, toLowerCase_no_upper. Qed.

Lemma search_from_class (n : nat) (q : ascii -> bool) :
  forall (s : string) (p : option ascii),
    allChars (fun c => negb (q c)) s = true ->
    search_from (Grp n (Cls q)) p s = None.
Proof.
  induction s as [| c s IH]; intros p H; cbn [search_from].
  - reflexivity.
  - cbn [allChars] in H. apply andb_prop in H as [Hc Hs].
    apply negb_true_iff in Hc.
    unfold exec_at. cbn [run rest]. rewrite Hc. now rewrite IH.
Qed.

Lemma withoutVerb_drop (verb lower : string) :
  startsWith lower verb = true ->
  withoutVerb verb lower = drop (String.length verb) lower.
Proof.
  intros H. unfold withoutVerb, replaceFirst, search.
  assert (E : run (Seq (Bol false) (Lit verb)) (MState None lower [])
                (fun st => Some st)
              = Some (advance (String.length verb) (MState None lower []))).
  { rewrite run_Seq, run_Bol. cbn [at_bol prev].
    rewrite run_Lit. cbn [rest]. now rewrite H. }
  destruct lower as [| c lower']; cbn [search_from]; unfold exec_at;
    rewrite E; cbn [after append]; now rewrite rest_advance.
Qed.

Lemma allChars_drop_lower (n : nat) (s : string) :
  toLowerCase (drop n (toLowerCase s)) = drop n (toLowerCase s).
Proof.
  apply no_upper_lower. apply allChars_drop. apply toLowerCase_no_upper.
Qed.

(** X15. The action read from a function name is the lower-cased name
    with one of five verbs taken from its front - [get] becoming
    [retrieve] - or, without such a verb, the lower-cased name trimmed:
    the name is lower-cased before the rewrite that would put a space
    before each capital, so that no space is ever put. *)
Theorem getActionFromName_lowercase_only :
  forall name : string,
    let lower := toLowerCase name in
    getActionFromName name =
    if startsWith lower "get" then "retrieve " ++ drop 3 lower
    else if startsWith lower "create" then "create " ++ drop 6 lower
    else if startsWith lower "update" then "update " ++ drop 6 lower
    else if startsWith lower "delete" then "delete " ++ drop 6 lower
    else if startsWith lower "fetch" then "fetch " ++ drop 5 lower
    else trim lower.
Proof.
  intros name lower. unfold getActionFromName. fold lower.
  destruct (startsWith lower "get") eqn:E1.
  { rewrite withoutVerb_drop by exact E1. unfold lower.
    now rewrite allChars_drop_lower. }
  destruct (startsWith lower "create") eqn:E2.
  { rewrite withoutVerb_drop by exact E2. unfold lower.
    now rewrite allChars_drop_lower. }
  destruct (startsWith lower "update") eqn:E3.
  { rewrite withoutVerb_drop by exact E3. unfold lower.
    now rewrite allChars_drop_lower. }
  destruct (startsWith lower "delete") eqn:E4.
  { rewrite withoutVerb_drop by exact E4. unfold lower.
    now rewrite allChars_drop_lower. }
  destruct (startsWith lower "fetch") eqn:E5.
  { rewrite withoutVerb_drop by exact E5. unfold lower.
    now rewrite allChars_drop_lower. }
  rewrite replaceAll_no_match.
  - unfold lower. now rewrite toLowerCase_idempotent.
  - apply search_from_class. apply toLowerCase_no_upper.
Qed.

(** ** Trimming *)

Lemma trimStart_drop (s : string) : exists n, trimStart s = drop n s.
Proof.
  induction s as [| c s [n IH]]; [now exists 0 |].
  cbn [trimStart]. destruct (is_space c); [| now exists 0].
  exists (S n). exact IH.
Qed.

Lemma allChars_rev_onto (q : ascii -> bool) (s acc : string) :
  allChars q (rev_onto s acc) = allChars q s && allChars q acc.
Proof.
  revert acc. induction s as [| c s IH]; intros acc; [reflexivity |].
  cbn [rev_onto allChars]. rewrite IH. cbn [allChars].
  destruct (q c), (allChars q s); reflexivity.
Qed.

Lemma allChars_rev (q : ascii -> bool) (s : string) :
  allChars q (rev s) = allChars q s.
Proof. unfold rev. rewrite allChars_rev_onto. apply andb_true_r. Qed.

Lemma allChars_trimStart (q : ascii -> bool) (s : string) :
  allChars q s = true -> allChars q (trimStart s) = true.
Proof.
  intros H. destruct (trimStart_drop s) as [n ->]. now apply allChars_drop.
Qed.

Lemma allChars_trim (q : ascii -> bool) (s : string) :
  allChars q s = true -> allChars q (trim s) = true.
Proof.
  intros H. unfold trim, trimEnd. rewrite allChars_rev.
  apply allChars_trimStart. rewrite allChars_rev.
  now apply allChars_trimStart.
Qed.

Lemma trimStart_head (s : string) :
  match trimStart s with
  | String c _ => is_space c = false
  | "" => True
  end.
Proof.
  induction s as [| c s IH]; [exact I |].
  cbn [trimStart]. destruct (is_space c) eqn:E; [exact IH | exact E].
Qed.

Lemma trimStart_fixed (s : string) :
  match s with
  | String c _ => is_space c = false
  | "" => True
  end ->
  trimStart s = s.
Proof. destruct s as [| c s]; [reflexivity |]. cbn. now intros ->. Qed.

Lemma trimStart_idempotent (s : string) :
  trimStart (trimStart s) = trimStart s.
Proof. apply trimStart_fixed, trimStart_head. Qed.

Lemma trimStart_spaces (s : string) :
  exists sp, s = sp ++ trimStart s.
Proof.
  induction s as [| c s [sp IH]]; [now exists "" |].
  cbn [trimStart]. destruct (is_space c); [| now exists ""].
  exists (String c sp). cbn [append]. now rewrite <- IH.
Qed.

(** The text without its final white space begins the text. *)
Lemma trimEnd_prefix (u : string) : exists sp, u = trimEnd u ++ sp.
Proof.
  unfold trimEnd. destruct (trimStart_spaces (rev u)) as [sp H].
  exists (rev sp). rewrite <- rev_app, <- H. now rewrite rev_involutive.
Qed.

Lemma trim_head (s : string) :
  match trim s with
  | String c _ => is_space c = false
  | "" => True
  end.
Proof.
  unfold trim. destruct (trimEnd_prefix (trimStart s)) as [sp H].
  pose proof (trimStart_head s) as Hhead.
  destruct (trimEnd (trimStart s)) as [| c t]; [exact I |].
  rewrite H in Hhead. exact Hhead.
Qed.

Lemma trimEnd_idempotent (u : string) : trimEnd (trimEnd u) = trimEnd u.
Proof.
  unfold trimEnd. now rewrite rev_involutive, trimStart_idempotent.
Qed.

Lemma trim_idempotent (s : string) : trim (trim s) = trim s.
Proof.
  unfold trim at 1. rewrite (trimStart_fixed _ (trim_head s)).
  unfold trim. apply trimEnd_idempotent.
Qed.

(** X16. The text extracted from a comment carries no white space at
    its ends: trimming it changes nothing. *)
Theorem extractCommentText_is_trimmed :
  forall content : list commentPart,
    trim (extractCommentText content) = extractCommentText content.
Proof. intros content. unfold extractCommentText. apply trim_idempotent. Qed.

(** ** The frontmatter *)

Lemma endsWith_split (s : string) :
  endsWith s "." = true -> exists x, s = x ++ ".".
Proof.
  unfold endsWith. change (rev ".") with ".". intros H.
  apply startsWith_eq in H. exists (rev (drop 1 (rev s))).
  rewrite <- (rev_involutive s) at 1. rewrite H at 1.
  now rewrite rev_app.
Qed.

Lemma endsWith_self (a b : string) : endsWith (a ++ b) b = true.
Proof. unfold endsWith. rewrite rev_app. apply startsWith_self. Qed.

Ltac ends_with_period :=
  repeat (rewrite endsWith_app_long
            by (rewrite ?length_append; cbn [String.length]; lia));
  reflexivity.

Lemma defaultDescription_period (reflection : declaration) (title : string) :
  endsWith (defaultDescription reflection title) "." = true.
Proof.
  unfold defaultDescription.
  destruct (String.eqb _ "Class"); [ends_with_period |].
  destruct (String.eqb _ "Interface"); [ends_with_period |].
  destruct (String.eqb _ "Function"); [ends_with_period |].
  destruct (String.eqb _ "Enum"); ends_with_period.
Qed.

Lemma expand_lacks (c : ascii) (t s : string) :
  lacks c t = true ->
  lacks c (expand (fun a => if Ascii.eqb a c then t else String a "") s)
  = true.
Proof.
  intros Ht. induction s as [| a s IH]; [reflexivity |].
  cbn [expand]. unfold lacks in *. rewrite allChars_app, IH, andb_true_r.
  destruct (Ascii.eqb a c) eqn:E; [exact Ht |].
  cbn [allChars]. now rewrite E.
Qed.

(** The description between the quotes, before it is trimmed. *)
Lemma safeDescription_shape (reflection : declaration) :
  exists x,
    safeDescription reflection = trim (x ++ ".")
    /\ lacks LF (x ++ ".") = true.
Proof.
  unfold safeDescription.
  set (title := orElse (d_name reflection) "Documentation").
  set (d0 := match summaryText reflection with
             | "" => defaultDescription reflection title
             | _ => summaryText reflection
             end).
  set (d := if nonEmpty d0 && negb (endsWith d0 ".") then d0 ++ "." else d0).
  assert (Hd : endsWith d "." = true).
  { unfold d. destruct (endsWith d0 ".") eqn:E.
    - now rewrite andb_false_r.
    - destruct d0 as [| c t] eqn:Ed0; cbn [nonEmpty negb andb].
      + exfalso. unfold d0 in Ed0.
        destruct (summaryText reflection); [| discriminate].
        pose proof (defaultDescription_period reflection title) as Hp.
        rewrite Ed0 in Hp. discriminate.
      + apply endsWith_period. }
  apply endsWith_split in Hd as [x Hx]. rewrite Hx.
  rewrite !replaceAll_Chr, !expand_app.
  cbn [expand]. change (Ascii.eqb "." DQ) with false.
  change (Ascii.eqb "." LF) with false. cbn [append].
  eexists. split; [reflexivity |].
  unfold lacks. rewrite allChars_app. rewrite andb_true_r.
  apply expand_lacks. reflexivity.
Qed.

(** X17. Whatever the reflection, its frontmatter opens with the rule
    and the title line and closes with a description that ends with a
    period, the closing quote and the rule; and the description holds
    no line feed, so that it stays on its line. *)
Theorem renderFrontmatter_description_line :
  forall reflection : declaration,
    startsWith (renderFrontmatter reflection)
               ("---" ++ nl ++ "title: " ++ dq) = true
    /\ endsWith (renderFrontmatter reflection)
                ("." ++ dq ++ nl ++ "---" ++ nl ++ nl) = true
    /\ lacks LF (safeDescription reflection) = true.
Proof.
  intros reflection.
  destruct (safeDescription_shape reflection) as (x & Hsafe & Hlacks).
  split; [| split].
  - unfold renderFrontmatter.
    change ("---" ++ nl ++ "title: " ++ dq
            ++ orElse (d_name reflection) "Documentation" ++ dq ++ nl
            ++ "description: " ++ dq ++ safeDescription reflection ++ dq
            ++ nl ++ "---" ++ nl ++ nl)
      with (("---" ++ nl ++ "title: " ++ dq)
            ++ orElse (d_name reflection) "Documentation" ++ dq ++ nl
            ++ "description: " ++ dq ++ safeDescription reflection ++ dq
            ++ nl ++ "---" ++ nl ++ nl).
    apply startsWith_self.
  - unfold renderFrontmatter. rewrite Hsafe.
    assert (Hend : endsWith (trim (x ++ ".")) "." = true).
    { apply trim_keeps_period, endsWith_period. }
    apply endsWith_split in Hend as [y Hy]. rewrite Hy.
    repeat rewrite <- append_assoc.
    rewrite (append_assoc _ "." _).
    rewrite !append_assoc.
    repeat rewrite <- append_assoc.
    match goal with
    | |- endsWith ?s ?suffix = true =>
        replace s with
          ((("---" ++ nl ++ "title: " ++ dq
             ++ orElse (d_name reflection) "Documentation" ++ dq ++ nl
             ++ "description: " ++ dq) ++ y) ++ suffix)
    end.
    + apply endsWith_self.
    + now rewrite !append_assoc.
  - rewrite Hsafe. now apply allChars_trim.
Qed.

(** ** The pages and the reference map of getUrls *)

Lemma existsb_weaken {A : Type} (f g : A -> bool) (l : list A) :
  (forall a, f a = true -> g a = true) ->
  existsb f l = true -> existsb g l = true.
Proof.
  intros H. induction l as [| a l IH]; cbn [existsb]; [discriminate |].
  intros E. apply orb_prop in E as [E | E].
  - now rewrite (H a E).
  - rewrite (IH E). apply orb_true_r.
Qed.

Lemma hasIndexUrl_index (indexUrl : string) (project : declaration) :
  hasIndexUrl indexUrl (UrlEntry indexUrl project) = true.
Proof. unfold hasIndexUrl. cbn [url]. now rewrite String.eqb_refl. Qed.

(** X18. [getUrls] keeps every page the base theme lists, in its order,
    and always returns a list with an index page in it: a page of the
    index file's name, or one whose model is the project. *)
Theorem getUrls_keeps_pages_and_index :
  forall (opts : options) (parentUrls : list urlEntry)
         (typeToUrlMap : urlMap) (project : declaration),
    (exists before after : list urlEntry,
        fst (getUrls opts parentUrls typeToUrlMap project)
        = (before ++ parentUrls ++ after)%list)
    /\ existsb (fun u => hasIndexUrl (indexUrlOf opts) u
                         || Z.eqb (d_kind (model u)) KProject)
               (fst (getUrls opts parentUrls typeToUrlMap project))
       = true.
Proof.
  intros opts parentUrls typeToUrlMap project. unfold getUrls.
  fold (indexUrlOf opts). set (indexUrl := indexUrlOf opts).
  set (isIndex := fun u => hasIndexUrl indexUrl u
                           || Z.eqb (d_kind (model u)) KProject).
  set (index := UrlEntry indexUrl project).
  assert (Hindex : isIndex index = true).
  { unfold isIndex, index. now rewrite hasIndexUrl_index. }
  destruct (existsb isIndex parentUrls) eqn:Ehas.
  - (* the base theme lists an index page *)
    destruct (String.eqb _ "members" && _); cbn [fst].
    + destruct (existsb (hasIndexUrl indexUrl) _) eqn:Eafter; cbn [fst].
      * split.
        -- exists [], (map (fun r => UrlEntry (getUrlForReflection opts r) r)
                           (flat_map (visitReflection opts)
                                     (d_children project))).
           reflexivity.
        -- rewrite existsb_app, Ehas. reflexivity.
      * split.
        -- exists [index],
             (map (fun r => UrlEntry (getUrlForReflection opts r) r)
                  (flat_map (visitReflection opts) (d_children project))).
           reflexivity.
        -- cbn [existsb]. now rewrite Hindex.
    + split.
      * exists [], []. now rewrite app_nil_r.
      * exact Ehas.
  - (* the index page is added in front *)
    destruct (String.eqb _ "members" && _); cbn [fst].
    + destruct (existsb (hasIndexUrl indexUrl) _) eqn:Eafter; cbn [fst].
      * split.
        -- exists [index],
             (map (fun r => UrlEntry (getUrlForReflection opts r) r)
                  (flat_map (visitReflection opts) (d_children project))).
           reflexivity.
        -- cbn [app existsb]. now rewrite Hindex.
      * split.
        -- exists [index; index],
             (map (fun r => UrlEntry (getUrlForReflection opts r) r)
                  (flat_map (visitReflection opts) (d_children project))).
           reflexivity.
        -- cbn [existsb]. now rewrite Hindex.
    + split.
      * exists [index], []. now rewrite app_nil_r.
      * cbn [existsb]. now rewrite Hindex.
Qed.

Lemma map_get_set (m : urlMap) (k v k' : string) :
  map_get (map_set m k v) k' =
  if String.eqb k k' then Some v else map_get m k'.
Proof.
  induction m as [| [k0 v0] m IH]; cbn [map_set map_get].
  - reflexivity.
  - destruct (String.eqb k0 k) eqn:E0.
    + apply String.eqb_eq in E0. subst k0. cbn [map_get].
      destruct (String.eqb k k'); reflexivity.
    + cbn [map_get]. rewrite IH.
      destruct (String.eqb k k') eqn:E; [| reflexivity].
      apply String.eqb_eq in E. subst k'. now rewrite E0.
Qed.

Lemma find_app {A : Type} (f : A -> bool) (a b : list A) :
  find f (a ++ b) =
  match find f a with
  | Some x => Some x
  | None => find f b
  end.
Proof.
  induction a as [| x a IH]; [reflexivity |].
  cbn [app find]. destruct (f x); [reflexivity | exact IH].
Qed.

(** The map after the entries of a list of reflections have been set. *)
Lemma map_get_entries (opts : options) (name : string) :
  forall (reflections : list declaration) (m : urlMap),
    map_get
      (fold_left
         (fun m r => map_set m (fst (mapEntry opts r)) (snd (mapEntry opts r)))
         reflections m) name
    = match lastNamed name reflections with
      | Some r => Some (snd (mapEntry opts r))
      | None => map_get m name
      end.
Proof.
  unfold lastNamed.
  induction reflections as [| r rs IH]; intros m; [reflexivity |].
  cbn [fold_left List.rev]. rewrite IH, find_app. cbn [find].
  destruct (find _ (List.rev rs)); [reflexivity |].
  rewrite map_get_set. cbn [mapEntry fst].
  now destruct (String.eqb (d_name r) name).
Qed.

(** With the strategy [members] and no individual page listed, the map
    that [getUrls] returns is the given one with the entries of the
    documented reflections set in their order. *)
Lemma getUrls_members_map
  (opts : options) (parentUrls : list urlEntry) (typeToUrlMap : urlMap)
  (project : declaration) :
  String.eqb (outputFileStrategy opts) "members" = true ->
  existsb isIndividualPage parentUrls = false ->
  isIndividualPage (UrlEntry (indexUrlOf opts) project) = false ->
  snd (getUrls opts parentUrls typeToUrlMap project)
  = fold_left
      (fun m r => map_set m (fst (mapEntry opts r)) (snd (mapEntry opts r)))
      (documentedReflections opts project) typeToUrlMap.
Proof.
  intros Hmembers Hparent Hindex.
  unfold getUrls. fold (indexUrlOf opts). rewrite Hmembers.
  match goal with
  | |- context [existsb isIndividualPage (if ?c then _ else _)] =>
      replace (existsb isIndividualPage
                 (if c then parentUrls
                  else UrlEntry (indexUrlOf opts) project :: parentUrls))
        with false
        by (destruct c; cbn [existsb]; now rewrite ?Hindex, ?Hparent)
  end.
  reflexivity.
Qed.

(** X19. When [getUrls] adds the member pages, the reference map answers
    for a name with the location of the last documented reflection that
    bears it, and with what it held before for any other name. *)
Theorem getUrls_map_holds_last_entry :
  forall (opts : options) (parentUrls : list urlEntry)
         (typeToUrlMap : urlMap) (project : declaration) (name : string),
    String.eqb (outputFileStrategy opts) "members" = true ->
    existsb isIndividualPage parentUrls = false ->
    isIndividualPage (UrlEntry (indexUrlOf opts) project) = false ->
    map_get (snd (getUrls opts parentUrls typeToUrlMap project)) name
    = match lastNamed name (documentedReflections opts project) with
      | Some r => Some (snd (mapEntry opts r))
      | None => map_get typeToUrlMap name
      end.
Proof.
  intros opts parentUrls typeToUrlMap project name Hmembers Hparent Hindex.
  rewrite getUrls_members_map by assumption. apply map_get_entries.
Qed.

Lemma getUrls_map_holds_last_entry_witness :
  String.eqb (outputFileStrategy memberPages) "members" = true
  /\ existsb isIndividualPage [] = false
  /\ isIndividualPage (UrlEntry (indexUrlOf memberPages) projectFooBar)
     = false
  /\ map_get (snd (getUrls memberPages [] [] projectFooBar)) "Bar"
     = match lastNamed "Bar"
               (documentedReflections memberPages projectFooBar) with
       | Some r => Some (snd (mapEntry memberPages r))
       | None => map_get [] "Bar"
       end.
Proof.
  split; [reflexivity |]. split; [reflexivity |]. split; [reflexivity |].
  apply (@getUrls_map_holds_last_entry memberPages [] [] projectFooBar "Bar");
    reflexivity.
Defined.

(** ** Locations and links *)

Lemma search_mdx_ext :
  forall (x : string) (p : option ascii),
    exists m, search_from re_mdx_ext p (x ++ ".mdx") = Some (x, m)
              /\ rest (after m) = "".
Proof.
  induction x as [| c x IH]; intros p.
  - eexists. split; reflexivity.
  - cbn [append search_from].
    assert (E : exec_at re_mdx_ext p (String c (x ++ ".mdx")) = None).
    { apply exec_at_None. unfold re_mdx_ext. rewrite run_Seq, run_Lit.
      destruct (startsWith _ ".mdx"); [| reflexivity].
      rewrite run_Eol. unfold at_eol. rewrite rest_advance. cbn [rest].
      destruct (drop (String.length ".mdx") (String c (x ++ ".mdx")))
        eqn:Ed; [| reflexivity].
      exfalso. apply (f_equal String.length) in Ed.
      rewrite length_drop in Ed. cbn [String.length] in Ed.
      rewrite length_append in Ed. cbn [String.length] in Ed. lia. }
    rewrite E. destruct (IH (Some c)) as (m & Hm & Hrest).
    rewrite Hm. now exists m.
Qed.

Lemma stripMdx_ext (x : string) : stripMdx (x ++ ".mdx") = x.
Proof.
  unfold stripMdx, replaceFirst, search.
  destruct (search_mdx_ext x None) as (m & Hm & Hrest).
  rewrite Hm, Hrest. cbn [append]. apply append_nil_r.
Qed.

Lemma kindFolder_not_api (kind : Z) (name : string) :
  startsWith (kindFolder kind ++ "/" ++ name) "api/" = false.
Proof.
  unfold kindFolder.
  repeat match goal with
         | |- context [if ?c then _ else _] => destruct c
         end; reflexivity.
Qed.

(** X20. With the extension [.mdx] in force and files kept in their
    folders, the location recorded for a reflection is the folder of its
    kind and its name as declared, under [api/], without the
    extension. *)
Theorem mapEntry_location :
  forall (opts : options) (reflection : declaration),
    String.eqb (orElse (fileExtension opts) ".mdx") ".mdx" = true ->
    flattenOutputFiles opts = false ->
    mapEntry opts reflection
    = (d_name reflection,
       "api/" ++ kindFolder (d_kind reflection) ++ "/" ++ d_name reflection).
Proof.
  intros opts reflection Hext Hflat. apply String.eqb_eq in Hext.
  unfold mapEntry, getUrlForReflection. rewrite Hext, Hflat.
  rewrite stripMdx_ext.
  replace ((kindFolder (d_kind reflection) ++ "/") ++ d_name reflection)
    with (kindFolder (d_kind reflection) ++ "/" ++ d_name reflection)
    by now rewrite append_assoc.
  now rewrite kindFolder_not_api.
Qed.

Lemma mapEntry_location_witness :
  String.eqb (orElse (fileExtension memberPages) ".mdx") ".mdx" = true
  /\ flattenOutputFiles memberPages = false
  /\ mapEntry memberPages classFoo
     = (d_name classFoo,
        "api/" ++ kindFolder (d_kind classFoo) ++ "/" ++ d_name classFoo).
Proof.
  split; [reflexivity |]. split; [reflexivity |].
  apply (@mapEntry_location memberPages classFoo); reflexivity.
Defined.

(** *** The reference map of the graph of Foo and Bar *)

(** C1, as amended.  For the graph with one class Foo and one interface
    Bar, with one page per member for classes and interfaces, the
    extension [.mdx] in force and the files kept in their folders, and
    whatever pages the base theme lists short of an individual page,
    [getUrls] leaves a reference map with exactly two entries: Foo at
    [api/classes/Foo] and Bar at [api/interfaces/Bar] - the folder of the
    kind and the name as declared, under the [api/] prefix. *)
Theorem getUrls_reference_map_Foo_Bar :
  forall (opts : options) (parentUrls : list urlEntry),
    String.eqb (outputFileStrategy opts) "members" = true ->
    ownFile opts "Class" = true ->
    ownFile opts "Interface" = true ->
    String.eqb (orElse (fileExtension opts) ".mdx") ".mdx" = true ->
    flattenOutputFiles opts = false ->
    existsb isIndividualPage parentUrls = false ->
    isIndividualPage (UrlEntry (indexUrlOf opts) projectFooBar) = false ->
    snd (getUrls opts parentUrls [] projectFooBar) =
    [("Foo", "api/classes/Foo"); ("Bar", "api/interfaces/Bar")].
Proof.
  intros opts parentUrls Hmembers Hclass Hinterface Hext Hflat Hparent
         Hindex.
  rewrite getUrls_members_map by assumption.
  assert (Hdocs : documentedReflections opts projectFooBar
                  = [classFoo; interfaceBar]).
  { unfold documentedReflections. cbn [projectFooBar plain d_children
      flat_map classFoo interfaceBar visitReflection app].
    unfold documented. cbn [d_kind]. rewrite Hclass, Hinterface.
    reflexivity. }
  rewrite Hdocs. apply String.eqb_eq in Hext.
  assert (Hentry : forall r,
             mapEntry opts r
             = (d_name r, "api/" ++ kindFolder (d_kind r) ++ "/" ++ d_name r)).
  { intros r. unfold mapEntry, getUrlForReflection. rewrite Hext, Hflat.
    rewrite stripMdx_ext.
    replace ((kindFolder (d_kind r) ++ "/") ++ d_name r)
      with (kindFolder (d_kind r) ++ "/" ++ d_name r)
      by now rewrite append_assoc.
    now rewrite kindFolder_not_api. }
  cbn [fold_left]. rewrite !Hentry. reflexivity.
Qed.

Lemma getUrls_reference_map_Foo_Bar_witness :
  String.eqb (outputFileStrategy memberPages) "members" = true
  /\ ownFile memberPages "Class" = true
  /\ ownFile memberPages "Interface" = true
  /\ String.eqb (orElse (fileExtension memberPages) ".mdx") ".mdx" = true
  /\ flattenOutputFiles memberPages = false
  /\ existsb isIndividualPage [] = false
  /\ isIndividualPage (UrlEntry (indexUrlOf memberPages) projectFooBar)
     = false
  /\ snd (getUrls memberPages [] [] projectFooBar) =
     [("Foo", "api/classes/Foo"); ("Bar", "api/interfaces/Bar")].
Proof.
  repeat (split; [reflexivity |]).
  apply (@getUrls_reference_map_Foo_Bar memberPages []); reflexivity.
Defined.

(** The conditions on the extension and on the folders are needed: with
    the extension [.md] the location keeps it, and with the files
    flattened the folder of the kind is left out. *)
Example getUrls_reference_map_other_options :
  snd (getUrls (Options "members" (Some ["Class"; "Interface"]) ".md"
                        "index" false) [] [] projectFooBar)
  = [("Foo", "api/classes/Foo.md"); ("Bar", "api/interfaces/Bar.md")]
  /\ snd (getUrls (Options "members" (Some ["Class"; "Interface"]) ".mdx"
                           "index" true) [] [] projectFooBar)
     = [("Foo", "api/Foo"); ("Bar", "api/Bar")].
Proof. split; vm_compute; reflexivity. Qed.

Lemma mapEntry_api (opts : options) (reflection : declaration) :
  startsWith (snd (mapEntry opts reflection)) "api/" = true.
Proof.
  unfold mapEntry. cbn [snd].
  destruct (startsWith (stripMdx _) "api/") eqn:E; [exact E |].
  apply (startsWith_self "api/").
Qed.

Lemma find_existsb {A : Type} (f : A -> bool) (l : list A) :
  existsb f l = true -> exists x, find f l = Some x.
Proof.
  induction l as [| a l IH]; cbn [existsb find]; [discriminate |].
  destruct (f a); [now exists a | exact IH].
Qed.

Lemma existsb_rev {A : Type} (f : A -> bool) (l : list A) :
  existsb f (List.rev l) = existsb f l.
Proof.
  induction l as [| a l IH]; [reflexivity |].
  cbn [List.rev existsb]. rewrite existsb_app, IH. cbn [existsb].
  rewrite orb_false_r. apply orb_comm.
Qed.

(** X21. Once [getUrls] has added the member pages, the index page links
    every reflection that bears the name of a documented one to a page
    under [/api/]. *)
Theorem getLinkForReflection_documented :
  forall (opts : options) (parentUrls : list urlEntry)
         (typeToUrlMap : urlMap) (project : declaration)
         (parents : list declaration) (reflection : declaration),
    String.eqb (outputFileStrategy opts) "members" = true ->
    existsb isIndividualPage parentUrls = false ->
    isIndividualPage (UrlEntry (indexUrlOf opts) project) = false ->
    existsb (fun r => String.eqb (d_name r) (d_name reflection))
            (documentedReflections opts project) = true ->
    startsWith
      (getLinkForReflection
         (snd (getUrls opts parentUrls typeToUrlMap project))
         parents reflection)
      "/api/" = true.
Proof.
  intros opts parentUrls typeToUrlMap project parents reflection
         Hm Hp Hi Hdoc.
  unfold getLinkForReflection.
  rewrite getUrls_members_map by assumption.
  rewrite map_get_entries. unfold lastNamed.
  rewrite <- existsb_rev in Hdoc.
  destruct (find_existsb _ _ Hdoc) as (r & Hr). rewrite Hr.
  pose proof (mapEntry_api opts r) as Hapi.
  destruct (snd (mapEntry opts r)) as [| c u]; [discriminate |].
  exact Hapi.
Qed.

Lemma getLinkForReflection_documented_witness :
  String.eqb (outputFileStrategy memberPages) "members" = true
  /\ existsb isIndividualPage [] = false
  /\ isIndividualPage (UrlEntry (indexUrlOf memberPages) projectFooBar)
     = false
  /\ existsb (fun r => String.eqb (d_name r) (d_name classFoo))
             (documentedReflections memberPages projectFooBar) = true
  /\ startsWith
       (getLinkForReflection
          (snd (getUrls memberPages [] [] projectFooBar)) [] classFoo)
       "/api/" = true.
Proof.
  split; [reflexivity |]. split; [reflexivity |]. split; [reflexivity |].
  split; [reflexivity |].
  apply (@getLinkForReflection_documented
           memberPages [] [] projectFooBar [] classFoo); reflexivity.
Defined.

(** ** The order in which names are tried *)

Lemma insertByLength_perm (x : string) (l : list string) :
  Permutation (x :: l) (insertByLength x l).
Proof.
  induction l as [| y l IH]; cbn [insertByLength]; [apply Permutation_refl |].
  destruct (Nat.ltb _ _); [apply Permutation_refl |].
  eapply Permutation_trans; [apply perm_swap |].
  now apply perm_skip.
Qed.

Lemma insertByLength_head (x : string) (l : list string) :
  exists h t, insertByLength x l = h :: t
              /\ (h = x \/ exists t', l = h :: t').
Proof.
  destruct l as [| y l]; cbn [insertByLength].
  - exists x, []. auto.
  - destruct (Nat.ltb _ _).
    + exists x, (y :: l). auto.
    + exists y, (insertByLength x l). split; [reflexivity |].
      right. now exists l.
Qed.

Lemma insertByLength_descending (x : string) (l : list string) :
  descending l = true -> descending (insertByLength x l) = true.
Proof.
  induction l as [| y l IH]; intros Hd; [reflexivity |].
  cbn [insertByLength].
  destruct (Nat.ltb (String.length y) (String.length x)) eqn:E.
  - apply Nat.ltb_lt in E.
    change (Nat.leb (String.length y) (String.length x)
            && descending (y :: l) = true).
    rewrite Hd, andb_true_r. apply Nat.leb_le. lia.
  - apply Nat.ltb_ge in E.
    assert (Hl : descending l = true).
    { destruct l as [| z l]; [reflexivity |].
      cbn [descending] in Hd. now apply andb_prop in Hd. }
    specialize (IH Hl).
    destruct (insertByLength_head x l) as (h & t & Eh & Hh).
    rewrite Eh in *.
    change (Nat.leb (String.length h) (String.length y)
            && descending (h :: t) = true).
    rewrite IH, andb_true_r. apply Nat.leb_le.
    destruct Hh as [-> | (t' & ->)]; [exact E |].
    cbn [descending] in Hd. apply andb_prop in Hd as [Hd _].
    now apply Nat.leb_le in Hd.
Qed.

Lemma descending_shorter (n : nat) :
  forall (l : list string) (y : string),
    descending (y :: l) = true -> String.length y < n ->
    ofLength n (y :: l) = [].
Proof.
  unfold ofLength.
  induction l as [| z l IH]; intros y Hd Hy; cbn [filter].
  - destruct (Nat.eqb_spec (String.length y) n); [lia | reflexivity].
  - destruct (Nat.eqb_spec (String.length y) n); [lia |].
    cbn [descending] in Hd. apply andb_prop in Hd as [Hz Hd].
    apply Nat.leb_le in Hz. apply (IH z Hd). lia.
Qed.

Lemma insertByLength_ofLength (n : nat) (x : string) :
  forall l : list string,
    descending l = true ->
    ofLength n (insertByLength x l)
    = (ofLength n l ++ ofLength n [x])%list.
Proof.
  induction l as [| y l IH]; intros Hd; [reflexivity |].
  cbn [insertByLength].
  destruct (Nat.ltb (String.length y) (String.length x)) eqn:E.
  - apply Nat.ltb_lt in E.
    change (ofLength n (x :: y :: l))
      with (if Nat.eqb (String.length x) n
            then x :: ofLength n (y :: l) else ofLength n (y :: l)).
    change (ofLength n [x])
      with (if Nat.eqb (String.length x) n then [x] else []).
    destruct (Nat.eqb_spec (String.length x) n) as [Hx | Hx].
    + rewrite (@descending_shorter n l y Hd) by lia. reflexivity.
    + now rewrite app_nil_r.
  - assert (Hl : descending l = true).
    { destruct l as [| z l]; [reflexivity |].
      cbn [descending] in Hd. now apply andb_prop in Hd. }
    change (ofLength n (y :: insertByLength x l))
      with (if Nat.eqb (String.length y) n
            then y :: ofLength n (insertByLength x l)
            else ofLength n (insertByLength x l)).
    change (ofLength n (y :: l))
      with (if Nat.eqb (String.length y) n
            then y :: ofLength n l else ofLength n l).
    rewrite (IH Hl).
    now destruct (Nat.eqb (String.length y) n).
Qed.

Lemma sortByLengthDesc_fold (l : list string) :
  forall acc : list string,
    descending acc = true ->
    Permutation (acc ++ l)
                (fold_left (fun acc x => insertByLength x acc) l acc)
    /\ descending (fold_left (fun acc x => insertByLength x acc) l acc)
       = true
    /\ forall n,
        ofLength n (fold_left (fun acc x => insertByLength x acc) l acc)
        = (ofLength n acc ++ ofLength n l)%list.
Proof.
  induction l as [| x l IH]; intros acc Hd; cbn [fold_left].
  - rewrite app_nil_r. split; [apply Permutation_refl |].
    split; [exact Hd |]. intros n. unfold ofLength at 3. cbn [filter].
    now rewrite app_nil_r.
  - destruct (IH (insertByLength x acc)
                 (@insertByLength_descending x acc Hd)) as (Hp & Hs & Hf).
    split; [| split; [exact Hs |]].
    + eapply Permutation_trans; [| exact Hp].
      apply Permutation_trans with ((x :: acc) ++ l)%list.
      * apply Permutation_sym. apply Permutation_middle.
      * apply Permutation_app_tail. apply insertByLength_perm.
    + intros n. rewrite Hf, (@insertByLength_ofLength n x acc Hd).
      rewrite <- app_assoc. f_equal.
      unfold ofLength. cbn [filter].
      now destruct (Nat.eqb (String.length x) n).
Qed.

(** X22. The names are tried longest first: the sorted list holds the
    same names, none longer than the one before it, and the names of one
    length stay in the order of the map. *)
Theorem sortByLengthDesc_stable_descending :
  forall l : list string,
    Permutation l (sortByLengthDesc l)
    /\ descending (sortByLengthDesc l) = true
    /\ forall n, ofLength n (sortByLengthDesc l) = ofLength n l.
Proof.
  intros l. unfold sortByLengthDesc.
  destruct (@sortByLengthDesc_fold l [] eq_refl) as (Hp & Hd & Hf).
  split; [exact Hp |]. split; [exact Hd |]. exact Hf.
Qed.

(** ** The navigation of mint.json *)

Section NavigationProperties.

Variable kindString : declaration -> option string.

Lemma pushGroup_pages (nav : list navigationGroup) (group : string)
  (pages : list string) :
  pagesOfNavigation (pushGroup nav group pages)
  = (pagesOfNavigation nav ++ pages)%list.
Proof.
  unfold pagesOfNavigation, pushGroup. destruct pages as [| p ps].
  - now rewrite app_nil_r.
  - rewrite map_app, concat_app. cbn [map concat nav_pages].
    now rewrite app_nil_r.
Qed.

Lemma pushGroup_not_empty (nav : list navigationGroup) (group : string)
  (pages : list string) :
  forallb (fun g => negb (isEmpty (nav_pages g))) nav = true ->
  forallb (fun g => negb (isEmpty (nav_pages g)))
          (pushGroup nav group pages) = true.
Proof.
  intros H. unfold pushGroup. destruct pages as [| p ps]; [exact H |].
  rewrite forallb_app, H. reflexivity.
Qed.

Lemma pushGroup_names (nav : list navigationGroup) (group : string)
  (pages : list string) :
  map nav_group (pushGroup nav group pages)
  = (map nav_group nav ++ if isEmpty pages then [] else [group])%list.
Proof.
  unfold pushGroup. destruct pages as [| p ps]; cbn [isEmpty].
  - now rewrite app_nil_r.
  - now rewrite map_app.
Qed.

Lemma pushGroup_first (g : navigationGroup) (nav : list navigationGroup)
  (group : string) (pages : list string) :
  exists rest, pushGroup (g :: nav) group pages = g :: rest.
Proof.
  unfold pushGroup. destruct pages; eexists; reflexivity.
Qed.

(** The pages of the navigation: the introduction, then the pages of the
    children of each kind, kind after kind. *)
Lemma buildNavigation_pages (project : declaration) :
  pagesOfNavigation (buildNavigation kindString project)
  = ("introduction"
     :: map getModulePath
            (filter (hasKindString kindString "Module") (d_children project))
     ++ map Navigation.getClassPath
            (filter (hasKindString kindString "Class") (d_children project))
     ++ map Navigation.getInterfacePath
            (filter (hasKindString kindString "Interface")
                    (d_children project))
     ++ map Navigation.getFunctionPath
            (filter (hasKindString kindString "Function")
                    (d_children project))
     ++ map Navigation.getTypePath
            (filter (hasKindString kindString "Type alias")
                    (d_children project)))%list.
Proof.
  unfold buildNavigation.
  destruct (d_children project) as [| c cs] eqn:Ec; [reflexivity |].
  rewrite !pushGroup_pages. unfold pagesOfNavigation.
  cbn [map concat nav_pages app]. now rewrite <- !app_assoc.
Qed.

(** X23. The navigation starts with the group Getting Started, has no
    group without a page, names its groups in one fixed order, and lists
    the introduction and then one page for every child whose kind string
    is one of the five it knows, kind after kind. *)
Theorem buildNavigation_groups :
  forall project : declaration,
    (exists rest,
        buildNavigation kindString project
        = NavigationGroup "Getting Started" ["introduction"] :: rest)
    /\ forallb (fun g => negb (isEmpty (nav_pages g)))
               (buildNavigation kindString project) = true
    /\ isSubsequence (map nav_group (buildNavigation kindString project))
                     groupOrder = true
    /\ pagesOfNavigation (buildNavigation kindString project)
       = ("introduction"
          :: map getModulePath
                 (filter (hasKindString kindString "Module")
                         (d_children project))
          ++ map Navigation.getClassPath
                 (filter (hasKindString kindString "Class")
                         (d_children project))
          ++ map Navigation.getInterfacePath
                 (filter (hasKindString kindString "Interface")
                         (d_children project))
          ++ map Navigation.getFunctionPath
                 (filter (hasKindString kindString "Function")
                         (d_children project))
          ++ map Navigation.getTypePath
                 (filter (hasKindString kindString "Type alias")
                         (d_children project)))%list.
Proof.
  intros project.
  split; [| split; [| split; [| apply buildNavigation_pages]]].
  - unfold buildNavigation.
    destruct (d_children project) as [| c cs]; [now eexists |].
    set (children := c :: cs).
    destruct (pushGroup_first
                (NavigationGroup "Getting Started" ["introduction"]) []
                "Modules"
                (map getModulePath
                     (filter (hasKindString kindString "Module") children)))
      as (r1 & ->).
    destruct (pushGroup_first
                (NavigationGroup "Getting Started" ["introduction"]) r1
                "Classes"
                (map Navigation.getClassPath
                     (filter (hasKindString kindString "Class") children)))
      as (r2 & ->).
    destruct (pushGroup_first
                (NavigationGroup "Getting Started" ["introduction"]) r2
                "Interfaces"
                (map Navigation.getInterfacePath
                     (filter (hasKindString kindString "Interface")
                             children)))
      as (r3 & ->).
    destruct (pushGroup_first
                (NavigationGroup "Getting Started" ["introduction"]) r3
                "Functions"
                (map Navigation.getFunctionPath
                     (filter (hasKindString kindString "Function")
                             children)))
      as (r4 & ->).
    apply pushGroup_first.
  - unfold buildNavigation.
    destruct (d_children project) as [| c cs]; [reflexivity |].
    repeat apply pushGroup_not_empty. reflexivity.
  - unfold buildNavigation.
    destruct (d_children project) as [| c cs]; [reflexivity |].
    rewrite !pushGroup_names. cbn [map nav_group].
    repeat match goal with
           | |- context [isEmpty ?l] => destruct (isEmpty l)
           end; reflexivity.
Qed.

Lemma filter_none {A : Type} (f : A -> bool) (l : list A) :
  forallb (fun a => negb (f a)) l = true -> filter f l = [].
Proof.
  induction l as [| a l IH]; cbn [forallb filter]; [reflexivity |].
  intros H. apply andb_prop in H as [Ha Hl].
  destruct (f a); [discriminate | now apply IH].
Qed.

(** X24. When no child of the project has a kind string, as with the
    reflections of a TypeDoc that no longer sets the field, the
    navigation is the group Getting Started alone. *)
Theorem buildNavigation_without_kindString :
  forall project : declaration,
    forallb (fun child =>
               match kindString child with None => true | Some _ => false end)
            (d_children project) = true ->
    buildNavigation kindString project
    = [NavigationGroup "Getting Started" ["introduction"]].
Proof.
  intros project Hnone. unfold buildNavigation.
  destruct (d_children project) as [| c cs]; [reflexivity |].
  assert (Hf : forall label,
             filter (hasKindString kindString label) (c :: cs) = []).
  { intros label. apply filter_none.
    rewrite forallb_forall in *. intros child Hin.
    specialize (Hnone child Hin). unfold hasKindString.
    now destruct (kindString child). }
  now rewrite !Hf.
Qed.

Lemma slugify_slugChars (text : string) :
  allChars slugChar (Utils.slugify text) = true.
Proof.
  unfold Utils.slugify, replaceAll.
  apply strip_chars; [lia |]. apply replace_non_slug_chars. lia.
Qed.

Lemma slugChar_pathChar (s : string) :
  allChars slugChar s = true -> allChars pathChar s = true.
Proof.
  induction s as [| c s IH]; cbn [allChars]; [reflexivity |].
  intros H. apply andb_prop in H as [Hc Hs].
  unfold pathChar at 1. now rewrite Hc, (IH Hs).
Qed.

Lemma folder_path (folder : string) (text : string) :
  allChars pathChar folder = true ->
  allChars pathChar (folder ++ Utils.slugify text) = true.
Proof.
  intros H. rewrite allChars_app, H.
  apply slugChar_pathChar, slugify_slugChars.
Qed.

Lemma forallb_map_filter {A B : Type} (q : B -> bool) (path : A -> B)
  (f : A -> bool) (l : list A) :
  (forall a, q (path a) = true) ->
  forallb q (map path (filter f l)) = true.
Proof.
  intros H. induction l as [| a l IH]; [reflexivity |].
  cbn [filter]. destruct (f a); [| exact IH].
  cbn [map forallb]. now rewrite H, IH.
Qed.

(** X25. Every page the navigation lists is a path of lower-case
    letters, digits, hyphens and slashes, whatever the names of the
    reflections. *)
Theorem buildNavigation_page_paths :
  forall project : declaration,
    forallb (allChars pathChar)
            (pagesOfNavigation (buildNavigation kindString project))
    = true.
Proof.
  intros project. rewrite buildNavigation_pages.
  cbn [forallb]. rewrite !forallb_app.
  rewrite !forallb_map_filter; [reflexivity | | | | |].
  - intros a. apply (folder_path "types/" (d_name a)). reflexivity.
  - intros a. apply (folder_path "functions/" (d_name a)). reflexivity.
  - intros a. apply (folder_path "interfaces/" (d_name a)). reflexivity.
  - intros a. apply (folder_path "classes/" (d_name a)). reflexivity.
  - intros a. unfold getModulePath.
    destruct (String.eqb _ "index" || String.eqb _ "readme");
      [reflexivity |].
    apply (folder_path "modules/" (d_name a)). reflexivity.
Qed.

End NavigationProperties.

Lemma buildNavigation_without_kindString_witness :
  forallb (fun child =>
             match (fun _ : declaration => @None string) child with
             | None => true
             | Some _ => false
             end)
          (d_children projectFooBar) = true
  /\ buildNavigation (fun _ => None) projectFooBar
     = [NavigationGroup "Getting Started" ["introduction"]].
Proof.
  split; [reflexivity |].
  apply (@buildNavigation_without_kindString (fun _ => None) projectFooBar).
  reflexivity.
Defined.

(** ** Types without a page *)

Lemma referenceNames_Reference name args :
  referenceNames (Reference name args)
  = name :: flat_map referenceNames args.
Proof. reflexivity. Qed.

Lemma referenceNames_Union l :
  referenceNames (Union l) = flat_map referenceNames l.
Proof. reflexivity. Qed.

Lemma referenceNames_Intersection l :
  referenceNames (Intersection l) = flat_map referenceNames l.
Proof. reflexivity. Qed.

Lemma referenceNames_Tuple l :
  referenceNames (Tuple l) = flat_map referenceNames l.
Proof. reflexivity. Qed.

Lemma referenceNames_Reflection d :
  referenceNames (ReflectionT (Some d)) =
  match d_signatures d with
  | sig :: _ =>
      (flat_map (fun p => referenceNamesOpt (p_type p)) (s_parameters sig)
       ++ referenceNamesOpt (s_type sig))%list
  | [] => flat_map (fun c => referenceNamesOpt (d_type c)) (d_children d)
  end.
Proof. simpl. destruct (d_signatures d); reflexivity. Qed.

Lemma forallb_flat_map_in {A B : Type} (q : B -> bool) (f : A -> list B)
  (l : list A) (a : A) :
  forallb q (flat_map f l) = true -> In a l -> forallb q (f a) = true.
Proof.
  induction l as [| b l IH]; cbn [flat_map]; [now intros _ [] |].
  rewrite forallb_app. intros H [-> | Hin].
  - now apply andb_prop in H.
  - apply andb_prop in H as [_ H]. now apply IH.
Qed.

Lemma linkName_unknown (m : urlMap) (name : string) :
  unknownTo m name = true -> linkName (Some m) name = linkName None name.
Proof.
  unfold unknownTo, map_has, linkName.
  now destruct (map_get m name).
Qed.

Lemma mapThrowing_ext_in {X Y : Type} (f g : X -> completion Y)
  (l : list X) :
  (forall a, In a l -> f a = g a) -> mapThrowing f l = mapThrowing g l.
Proof.
  induction l as [| a l IH]; intros H; [reflexivity |].
  change (mapThrowing f (a :: l))
    with (andThen (f a) (fun y =>
          andThen (mapThrowing f l) (fun ys => Normal (y :: ys)))).
  change (mapThrowing g (a :: l))
    with (andThen (g a) (fun y =>
          andThen (mapThrowing g l) (fun ys => Normal (y :: ys)))).
  rewrite (H a (or_introl eq_refl)), IH; [reflexivity |].
  intros b Hb. apply H. now right.
Qed.

Lemma formatType_unknown_depth (m : urlMap) :
  forall (n : nat) (type : option type),
    depthOpt type < n ->
    forallb (unknownTo m) (referenceNamesOpt type) = true ->
    formatType (Some m) type = formatType None type.
Proof.
  induction n as [| n IH]; intros type Hd Hn; [lia |].
  destruct type as [t |]; [| reflexivity].
  assert (Hall : forall l,
             maxOf depth l < n ->
             forallb (unknownTo m) (flat_map referenceNames l) = true ->
             mapThrowing (formatNode (Some m)) l
             = mapThrowing (formatNode None) l).
  { intros l Hl Hq. apply mapThrowing_ext_in. intros a Ha.
    apply (IH (Some a)).
    - pose proof (maxOf_in depth l a Ha). simpl. lia.
    - apply (forallb_flat_map_in _ _ _ a Hq Ha). }
  rewrite depthOpt_Some in Hd. cbn [referenceNamesOpt] in Hn.
  rewrite !formatNode_eq.
  destruct t as [s | name | name args | e | l | l | v | l | [d |]
                 | c e a b | o i | q | name target | ts | ts].
  - reflexivity.
  - reflexivity.
  - rewrite depth_Reference in Hd. rewrite referenceNames_Reference in Hn.
    cbn [forallb] in Hn. apply andb_prop in Hn as [Hname Hargs].
    rewrite !formatNode_Reference, (linkName_unknown _ _ Hname).
    rewrite (Hall args) by (assumption || lia). reflexivity.
  - pose proof (IH (Some e) ltac:(simpl in *; lia) Hn) as Ee.
    rewrite !formatNode_eq in Ee. cbn [formatNode]. now rewrite Ee.
  - rewrite depth_Union in Hd. rewrite referenceNames_Union in Hn.
    rewrite !formatNode_Union, (Hall l) by (assumption || lia). reflexivity.
  - rewrite depth_Intersection in Hd.
    rewrite referenceNames_Intersection in Hn.
    rewrite !formatNode_Intersection, (Hall l) by (assumption || lia).
    reflexivity.
  - reflexivity.
  - rewrite depth_Tuple in Hd. rewrite referenceNames_Tuple in Hn.
    rewrite !formatNode_Tuple, (Hall l) by (assumption || lia). reflexivity.
  - rewrite depth_Reflection in Hd. rewrite referenceNames_Reflection in Hn.
    rewrite !formatNode_Reflection.
    destruct (d_signatures d) as [| sig sigs].
    + destruct (d_children d) as [| child children] eqn:Hch; [reflexivity |].
      f_equal. apply mapThrowing_ext_in. intros c Hc.
      rewrite (IH (d_type c)); [reflexivity | |].
      * pose proof (maxOf_in (fun c => depthOpt (d_type c)) _ c Hc). lia.
      * apply (forallb_flat_map_in _ _ _ c Hn Hc).
    + rewrite forallb_app in Hn. apply andb_prop in Hn as [Hp Hr].
      rewrite (IH (s_type sig)) by (assumption || lia).
      f_equal. apply mapThrowing_ext_in. intros p Hin.
      rewrite (IH (p_type p)); [reflexivity | |].
      * pose proof (maxOf_in (fun p => depthOpt (p_type p)) _ p Hin). lia.
      * apply (forallb_flat_map_in _ _ _ p Hp Hin).
  - reflexivity.
  - simpl in Hd. cbn [referenceNames] in Hn.
    rewrite !forallb_app in Hn.
    apply andb_prop in Hn as [Hc Hn]. apply andb_prop in Hn as [He Hn].
    apply andb_prop in Hn as [Ha Hb].
    pose proof (IH (Some c) ltac:(simpl; lia) Hc) as Ec.
    pose proof (IH (Some e) ltac:(simpl; lia) He) as Ee.
    pose proof (IH (Some a) ltac:(simpl; lia) Ha) as Ea.
    pose proof (IH (Some b) ltac:(simpl; lia) Hb) as Eb.
    rewrite !formatNode_eq in Ec, Ee, Ea, Eb.
    cbn [formatNode]. now rewrite Ec, Ee, Ea, Eb.
  - simpl in Hd. cbn [referenceNames] in Hn.
    rewrite forallb_app in Hn. apply andb_prop in Hn as [Ho Hi].
    pose proof (IH (Some o) ltac:(simpl; lia) Ho) as Eo.
    pose proof (IH (Some i) ltac:(simpl; lia) Hi) as Ei.
    rewrite !formatNode_eq in Eo, Ei.
    cbn [formatNode]. now rewrite Eo, Ei.
  - reflexivity.
  - reflexivity.
  - reflexivity.
  - reflexivity.
Qed.

(** X26. [formatType] turns into links only the references that have an
    entry in the map: when no reference of the type expression has one,
    the text is the one formatted without a map. *)
Theorem formatType_links_known_names_only :
  forall (typeToUrlMap : urlMap) (type : option type),
    forallb (unknownTo typeToUrlMap) (referenceNamesOpt type) = true ->
    formatType (Some typeToUrlMap) type = formatType None type.
Proof.
  intros m type H.
  apply (@formatType_unknown_depth m (S (depthOpt type)) type); [lia | exact H].
Qed.

Lemma formatType_links_known_names_only_witness :
  forallb (unknownTo [("Foo", "api/classes/Foo")])
          (referenceNamesOpt (Some promiseOfUser)) = true
  /\ formatType (Some [("Foo", "api/classes/Foo")]) (Some promiseOfUser)
     = formatType None (Some promiseOfUser).
Proof.
  split; [reflexivity |].
  apply (@formatType_links_known_names_only
           [("Foo", "api/classes/Foo")] (Some promiseOfUser)).
  reflexivity.
Defined.

(** ** The indentation of accordion contents *)

(** X27. The indentation of an accordion's content moves every line two
    columns to the right, keeps the number of lines, and is undone by
    dropping two characters from every line. *)
Theorem indent_line_by_line_and_back :
  forall content : string,
    split LF (indent content)
    = map (fun line => "  " ++ line) (split LF content)
    /\ join nl (map (drop 2) (split LF (indent content))) = content.
Proof.
  intros content. unfold indent.
  assert (Hsplit : split LF (join nl (map (fun line => "  " ++ line)
                                          (split LF content)))
                   = map (fun line => "  " ++ line) (split LF content)).
  { apply split_join.
    - pose proof (split_not_nil LF content) as Hne.
      destruct (split LF content); [congruence | discriminate].
    - pose proof (split_noLineFeed content) as H.
      induction H as [| line lines Hline _ IH]; cbn [map]; constructor.
      + exact Hline.
      + exact IH. }
  rewrite Hsplit. split; [reflexivity |].
  rewrite map_map. cbn [append drop].
  rewrite map_id. apply join_split.
Qed.

(** ** The examples of a comment *)

Lemma orElse_nonEmpty (s d : string) :
  nonEmpty d = true -> nonEmpty (orElse s d) = true.
Proof. intros H. now destruct s. Qed.

Lemma extractExamples_fold (q : Renderer.example -> bool) :
  (forall lang text : string,
      q (Renderer.Example_ (orElse lang "typescript") (trim text)) = true) ->
  forall c : option comment, forallb q (extractExamples c) = true.
Proof.
  intros Hq [c |]; [| reflexivity]. unfold extractExamples.
  match goal with
  | |- context [fold_left ?f _ _] => set (step := f)
  end.
  assert (Hstep : forall acc t,
             forallb q acc = true -> forallb q (step acc t) = true).
  { intros acc t Hacc. unfold step.
    destruct (String.eqb (tag t) "@example"); [| exact Hacc].
    assert (Hfound : forallb q (acc ++ map
               (fun m => Renderer.Example_ (orElse (group 1 m) "typescript")
                                           (trim (group 2 m)))
               (matchAll Renderer.re_code_block
                         (firstText (Model.content t)))) = true).
    { rewrite forallb_app, Hacc. cbn [andb].
      induction (matchAll _ _) as [| m ms IHm]; [reflexivity |].
      cbn [map forallb]. now rewrite Hq, IHm. }
    destruct (acc ++ _)%list as [| e es]; [| exact Hfound].
    destruct (trim (firstText (Model.content t))) as [| a s] eqn:E;
      [reflexivity |].
    cbn [forallb]. rewrite <- E.
    change "typescript" with (orElse "" "typescript").
    now rewrite Hq. }
  assert (Hfold : forall tags acc,
             forallb q acc = true ->
             forallb q (fold_left step tags acc) = true).
  { induction tags as [| t tags IH]; intros acc Hacc; [exact Hacc |].
    cbn [fold_left]. apply IH. now apply Hstep. }
  now apply Hfold.
Qed.

(** X28. Every example [extractExamples] returns has a language, and its
    code has no white space at either end. *)
Theorem extractExamples_well_formed :
  forall c : option comment,
    forallb (fun e =>
               nonEmpty (Renderer.language e)
               && String.eqb (trim (Renderer.code e)) (Renderer.code e))
            (extractExamples c) = true.
Proof.
  apply extractExamples_fold. intros lang text.
  cbn [Renderer.language Renderer.code].
  rewrite orElse_nonEmpty by reflexivity.
  now rewrite trim_idempotent, String.eqb_refl.
Qed.

(** X29. An example tag without a fenced block adds its text as an
    example only when no example has been found before: after a tag
    that gave one, such a tag adds nothing. *)
Theorem extractExamples_plain_text_after_examples :
  forall (summary : list commentPart) (tags : list blockTag) (t : blockTag),
    isEmpty (extractExamples (Some (Comment summary tags))) = false ->
    isEmpty (matchAll Renderer.re_code_block (firstText (Model.content t)))
    = true ->
    extractExamples (Some (Comment summary (tags ++ [t])))
    = extractExamples (Some (Comment summary tags)).
Proof.
  intros summary tags t Hsome Hplain. unfold extractExamples in *.
  cbn [blockTags] in *. rewrite fold_left_app. cbn [fold_left].
  destruct (fold_left _ tags []) as [| e es]; [discriminate Hsome |].
  destruct (String.eqb (tag t) "@example"); [| reflexivity].
  destruct (matchAll _ _); [| discriminate Hplain].
  cbn [map]. rewrite app_nil_r. reflexivity.
Qed.

Lemma extractExamples_plain_text_after_examples_witness :
  isEmpty (extractExamples
             (Some (Comment []
                      [BlockTag "@example"
                         [CommentPart "text"
                            (Components.fence ++ "ts" ++ nl ++ "run()" ++ nl
                             ++ Components.fence)]])))
  = false
  /\ isEmpty (matchAll Renderer.re_code_block
                (firstText
                   (Model.content
                      (BlockTag "@example" [CommentPart "text" "run()"]))))
     = true
  /\ extractExamples
       (Some (Comment []
                ([BlockTag "@example"
                    [CommentPart "text"
                       (Components.fence ++ "ts" ++ nl ++ "run()" ++ nl
                        ++ Components.fence)]]
                 ++ [BlockTag "@example" [CommentPart "text" "run()"]])))
     = extractExamples
         (Some (Comment []
                  [BlockTag "@example"
                     [CommentPart "text"
                        (Components.fence ++ "ts" ++ nl ++ "run()" ++ nl
                         ++ Components.fence)]])).
Proof.
  split; [vm_compute; reflexivity |]. split; [vm_compute; reflexivity |].
  apply (@extractExamples_plain_text_after_examples
           []
           [BlockTag "@example"
              [CommentPart "text"
                 (Components.fence ++ "ts" ++ nl ++ "run()" ++ nl
                  ++ Components.fence)]]
           (BlockTag "@example" [CommentPart "text" "run()"]));
    vm_compute; reflexivity.
Defined.

(** ** The two description generators *)

(** X30. The description generator of the page renderer and the one of
    the reflection renderer give the same sentence for a parameter
    exactly when its name holds a word both look for, or none of the
    words only the page renderer looks for. *)
Theorem description_generators_agree :
  forall name type : string,
    String.eqb (PageRenderer.generateParameterDescription name type)
               (Renderer.generateParameterDescription name type)
    = commonKeyword (toLowerCase name)
      || negb (pageKeyword (toLowerCase name)).
Proof.
  intros name type.
  unfold PageRenderer.generateParameterDescription,
         Renderer.generateParameterDescription, commonKeyword, pageKeyword.
  set (l := toLowerCase name).
  repeat match goal with
         | |- context [includes l ?k] =>
             destruct (includes l k);
             [ cbn [orb negb];
               try reflexivity;
               destruct (String.eqb type "string"),
                        (String.eqb type "number"),
                        (String.eqb type "boolean"); reflexivity
             | cbn [orb negb] ]
         end.
  apply String.eqb_refl.
Qed.

(** ** Parameter descriptions and their final period *)










(** ** The one place where the formatter throws *)

Lemma literalsOf_Reference name args :
  literalsOf (Reference name args) = flat_map literalsOf args.
Proof. reflexivity. Qed.

Lemma literalsOf_Union l : literalsOf (Union l) = flat_map literalsOf l.
Proof. reflexivity. Qed.

Lemma literalsOf_Intersection l :
  literalsOf (Intersection l) = flat_map literalsOf l.
Proof. reflexivity. Qed.

Lemma literalsOf_Tuple l : literalsOf (Tuple l) = flat_map literalsOf l.
Proof. reflexivity. Qed.

Lemma literalsOf_Reflection d :
  literalsOf (ReflectionT (Some d)) =
  match d_signatures d with
  | sig :: _ =>
      (flat_map (fun p => literalsOpt (p_type p)) (s_parameters sig)
       ++ literalsOpt (s_type sig))%list
  | [] => flat_map (fun c => literalsOpt (d_type c)) (d_children d)
  end.
Proof. simpl. destruct (d_signatures d); reflexivity. Qed.

Lemma mapThrowing_returns {X Y : Type} (f : X -> completion Y) (l : list X) :
  (forall a, In a l -> exists y, f a = Normal y) ->
  exists ys, mapThrowing f l = Normal ys.
Proof.
  induction l as [| a l IH]; intros H; [now exists [] |].
  change (mapThrowing f (a :: l))
    with (andThen (f a) (fun y =>
          andThen (mapThrowing f l) (fun ys => Normal (y :: ys)))).
  destruct (H a (or_introl eq_refl)) as [y ->].
  destruct IH as [ys ->]; [intros b Hb; apply H; now right |].
  now exists (y :: ys).
Qed.

(** A type expression in which the formatter meets no bigint literal is
    formatted to a text. *)
Lemma formatType_returns_without_bigint (m : option urlMap) :
  forall (n : nat) (type : option type),
    depthOpt type < n ->
    existsb isBigInt (literalsOpt type) = false ->
    exists text, formatType m type = Normal text.
Proof.
  induction n as [| n IH]; intros type Hd Hn; [lia |].
  destruct type as [t |]; [| now exists "any"].
  assert (Hall : forall l,
             maxOf depth l < n ->
             existsb isBigInt (flat_map literalsOf l) = false ->
             exists ss, mapThrowing (formatNode m) l = Normal ss).
  { intros l Hl Hq. apply mapThrowing_returns. intros a Ha.
    apply (IH (Some a)).
    - pose proof (maxOf_in depth l a Ha). simpl. lia.
    - cbn [literalsOpt]. apply not_true_is_false. intros Hb.
      rewrite existsb_exists in Hb. destruct Hb as (v & Hv & Hbig).
      assert (Hex : existsb isBigInt (flat_map literalsOf l) = true).
      { apply existsb_exists. exists v. split; [| exact Hbig].
        apply in_flat_map. now exists a. }
      congruence. }
  rewrite depthOpt_Some in Hd. cbn [literalsOpt] in Hn.
  rewrite formatNode_eq.
  destruct t as [s | name | name args | e | l | l | v | l | [d |]
                 | c e a b | o i | q | name target | ts | ts];
    try (eexists; reflexivity).
  - rewrite depth_Reference in Hd. rewrite literalsOf_Reference in Hn.
    rewrite formatNode_Reference.
    destruct args as [| a args]; [eexists; reflexivity |].
    destruct (Hall (a :: args)) as [ss ->]; [lia | exact Hn |].
    eexists; reflexivity.
  - destruct (IH (Some e)) as [text He]; [simpl in *; lia | exact Hn |].
    rewrite formatNode_eq in He. cbn [formatNode]. rewrite He.
    eexists; reflexivity.
  - rewrite depth_Union in Hd. rewrite literalsOf_Union in Hn.
    rewrite formatNode_Union.
    destruct (Hall l) as [ss ->]; [lia | exact Hn |].
    eexists; reflexivity.
  - rewrite depth_Intersection in Hd. rewrite literalsOf_Intersection in Hn.
    rewrite formatNode_Intersection.
    destruct (Hall l) as [ss ->]; [lia | exact Hn |].
    eexists; reflexivity.
  - cbn [literalsOf existsb] in Hn. rewrite orb_false_r in Hn.
    destruct v as [s | digits | [|] | | digits]; try (eexists; reflexivity).
    discriminate Hn.
  - rewrite depth_Tuple in Hd. rewrite literalsOf_Tuple in Hn.
    rewrite formatNode_Tuple.
    destruct (Hall l) as [ss ->]; [lia | exact Hn |].
    eexists; reflexivity.
  - rewrite depth_Reflection in Hd. rewrite literalsOf_Reflection in Hn.
    rewrite formatNode_Reflection.
    assert (Hmember : forall (X : Type) (l : list X) (ty : X -> option type)
                             (text : X -> string -> string),
               maxOf (fun x => depthOpt (ty x)) l < n ->
               existsb isBigInt (flat_map (fun x => literalsOpt (ty x)) l)
               = false ->
               exists ss,
                 mapThrowing
                   (fun x => andThen (formatType m (ty x))
                                     (fun s => Normal (text x s))) l
                 = Normal ss).
    { intros X l ty text Hl Hq. apply mapThrowing_returns. intros x Hx.
      destruct (IH (ty x)) as [s ->].
      - pose proof (maxOf_in (fun x => depthOpt (ty x)) l x Hx). lia.
      - apply not_true_is_false. intros Hb.
        rewrite existsb_exists in Hb. destruct Hb as (v & Hv & Hbig).
        assert (Hex : existsb isBigInt
                        (flat_map (fun x => literalsOpt (ty x)) l) = true).
        { apply existsb_exists. exists v. split; [| exact Hbig].
          apply in_flat_map. now exists x. }
        congruence.
      - eexists; reflexivity. }
    destruct (d_signatures d) as [| sig sigs].
    + destruct (d_children d) as [| child children] eqn:Hch;
        [eexists; reflexivity |].
      destruct (Hmember declaration (child :: children) d_type
                  (fun c s => d_name c ++ optionalMark (d_isOptional c)
                              ++ ": " ++ s)) as [ss ->];
        [lia | exact Hn |].
      eexists; reflexivity.
    + rewrite existsb_app in Hn. apply orb_false_iff in Hn as [Hp Hr].
      destruct (Hmember param (s_parameters sig) p_type
                  (fun p s => p_name p ++ optionalMark (p_isOptional p)
                              ++ ": " ++ s)) as [ss ->];
        [lia | exact Hp |].
      destruct (IH (s_type sig)) as [r ->]; [lia | exact Hr |].
      eexists; reflexivity.
  - simpl in Hd. cbn [literalsOf] in Hn.
    rewrite !existsb_app in Hn.
    apply orb_false_iff in Hn as [Hc Hn].
    apply orb_false_iff in Hn as [He Hn].
    apply orb_false_iff in Hn as [Ha Hb].
    destruct (IH (Some c)) as [tc Ec]; [simpl; lia | exact Hc |].
    destruct (IH (Some e)) as [te Ee]; [simpl; lia | exact He |].
    destruct (IH (Some a)) as [ta Ea]; [simpl; lia | exact Ha |].
    destruct (IH (Some b)) as [tb Eb]; [simpl; lia | exact Hb |].
    rewrite formatNode_eq in Ec, Ee, Ea, Eb.
    cbn [formatNode]. rewrite Ec, Ee, Ea, Eb. eexists; reflexivity.
  - simpl in Hd. cbn [literalsOf] in Hn.
    rewrite existsb_app in Hn. apply orb_false_iff in Hn as [Ho Hi].
    destruct (IH (Some o)) as [to Eo]; [simpl; lia | exact Ho |].
    destruct (IH (Some i)) as [ti Ei]; [simpl; lia | exact Hi |].
    rewrite formatNode_eq in Eo, Ei.
    cbn [formatNode]. rewrite Eo, Ei. eexists; reflexivity.
Qed.
